(** * SPIR-V lowering: algebraic transformation pass

    A shallow embedding of [SpirvLowerAlgebraTransform]
    (lower/llpcSpirvLowerAlgebraTransform.cpp) and of the parts of the
    LLVM IR it works on: floating constants ([APFloat]), constants,
    values, instructions with their fast-math flags, and the module as
    the list of its instructions in layout order.

    The embedding is of the build with [VKI_KHR_SHADER_FLOAT_CONTROLS]
    defined, the one in which the floating-point control flags exist. *)

From Stdlib Require Import ZArith List String Bool Lia Relations Wellfounded.
Import ListNotations.
Open Scope Z_scope.

(* ================================================================== *)
(** * LLVM's arbitrary-precision floats, as far as the pass uses them *)
(* ================================================================== *)

Module APFloat.

(** The three IEEE formats the pass meets. *)
Inductive fltSemantics := IEEEhalf | IEEEsingle | IEEEdouble.

Definition precision (s : fltSemantics) : Z :=
  match s with IEEEhalf => 11 | IEEEsingle => 24 | IEEEdouble => 53 end.
Definition maxExponent (s : fltSemantics) : Z :=
  match s with IEEEhalf => 15 | IEEEsingle => 127 | IEEEdouble => 1023 end.
Definition minExponent (s : fltSemantics) : Z :=
  match s with IEEEhalf => -14 | IEEEsingle => -126 | IEEEdouble => -1022 end.
Definition sizeInBits (s : fltSemantics) : Z :=
  match s with IEEEhalf => 16 | IEEEsingle => 32 | IEEEdouble => 64 end.

Definition semantics_eqb (a b : fltSemantics) : bool :=
  match a, b with
  | IEEEhalf, IEEEhalf | IEEEsingle, IEEEsingle | IEEEdouble, IEEEdouble => true
  | _, _ => false
  end.

Inductive fltCategory := fcInfinity | fcNaN | fcNormal | fcZero.

Inductive roundingMode :=
| rmNearestTiesToEven | rmTowardPositive | rmTowardNegative
| rmTowardZero | rmNearestTiesToAway.

Inductive lostFraction :=
| lfExactlyZero | lfLessThanHalf | lfExactlyHalf | lfMoreThanHalf.

(** [IEEEFloat]: the value is
    (-1)^sign * significand * 2^(exponent - (precision - 1)) when the
    category is [fcNormal].  The exponent and significand of a zero
    or an infinity are meaningless in LLVM; here they are kept at 0,
    so that equality of records is LLVM's [bitwiseIsEqual]. *)
Record t := mk {
  semantics   : fltSemantics;
  category    : fltCategory;
  sign        : bool;
  exponent    : Z;
  significand : Z
}.

Definition makeZero (s : fltSemantics) (neg : bool) : t := mk s fcZero neg 0 0.
Definition makeInf (s : fltSemantics) (neg : bool) : t := mk s fcInfinity neg 0 0.

Definition isZero (f : t) : bool :=
  match category f with fcZero => true | _ => false end.
Definition isFiniteNonZero (f : t) : bool :=
  match category f with fcNormal => true | _ => false end.
Definition isNegative (f : t) : bool := sign f.

(** [isDenormal]: finite, non-zero, minimum exponent, integer bit clear. *)
Definition isDenormal (f : t) : bool :=
  isFiniteNonZero f
  && (exponent f =? minExponent (semantics f))
  && negb (Z.testbit (significand f) (precision (semantics f) - 1)).

Definition isNormal (f : t) : bool := negb (isDenormal f) && isFiniteNonZero f.

(** One-based index of the most significant set bit, 0 for 0. *)
Definition omsbOf (m : Z) : Z := if m =? 0 then 0 else Z.log2 m + 1.

(** [lostFractionThroughTruncation]: what the low [bits] bits of [m] are
    worth, compared with half a unit of the bit above them. *)
Definition lostFractionThroughTruncation (m bits : Z) : lostFraction :=
  let r := m mod 2 ^ bits in
  let h := 2 ^ (bits - 1) in
  if r =? 0 then lfExactlyZero
  else if r =? h then lfExactlyHalf
  else if h <? r then lfMoreThanHalf
  else lfLessThanHalf.

Definition combineLostFractions (moreSignificant lessSignificant : lostFraction)
  : lostFraction :=
  match lessSignificant with
  | lfExactlyZero => moreSignificant
  | _ => match moreSignificant with
         | lfExactlyZero => lfLessThanHalf
         | lfExactlyHalf => lfMoreThanHalf
         | other => other
         end
  end.

Definition roundAwayFromZero (rm : roundingMode) (sgn : bool) (m : Z)
           (lf : lostFraction) : bool :=
  match rm with
  | rmNearestTiesToAway =>
      match lf with lfExactlyHalf | lfMoreThanHalf => true | _ => false end
  | rmNearestTiesToEven =>
      match lf with
      | lfMoreThanHalf => true
      | lfExactlyHalf => Z.testbit m 0
      | _ => false
      end
  | rmTowardZero => false
  | rmTowardPositive => negb sgn
  | rmTowardNegative => sgn
  end.

Definition handleOverflow (rm : roundingMode) (s : fltSemantics) (sgn : bool) : t :=
  match rm, sgn with
  | rmNearestTiesToEven, _ | rmNearestTiesToAway, _
  | rmTowardPositive, false | rmTowardNegative, true => makeInf s sgn
  | _, _ => mk s fcNormal sgn (maxExponent s) (Z.ones (precision s))
  end.

(** [normalize] of a finite non-zero value with significand [m] and
    exponent [e] in the format [s], after [lost] was already shifted
    out. *)
Definition normalize (s : fltSemantics) (rm : roundingMode) (sgn : bool)
           (e m : Z) (lost : lostFraction) : t :=
  let omsb := omsbOf m in
  let exponentChange0 := omsb - precision s in
  if (omsb =? 0) then
    (* nothing but a lost fraction is left *)
    match lost with
    | lfExactlyZero => makeZero s sgn
    | _ =>
        if roundAwayFromZero rm sgn m lost
        then mk s fcNormal sgn (minExponent s) 1
        else makeZero s sgn
    end
  else if maxExponent s <? e + exponentChange0 then handleOverflow rm s sgn
  else
    let exponentChange :=
      if e + exponentChange0 <? minExponent s then minExponent s - e
      else exponentChange0 in
    if exponentChange <? 0 then
      mk s fcNormal sgn (e + exponentChange) (Z.shiftl m (- exponentChange))
    else
      let lf := if 0 <? exponentChange
                then combineLostFractions
                       (lostFractionThroughTruncation m exponentChange) lost
                else lost in
      let m1 := Z.shiftr m exponentChange in
      let e1 := e + exponentChange in
      match lf with
      | lfExactlyZero =>
          if m1 =? 0 then makeZero s sgn else mk s fcNormal sgn e1 m1
      | _ =>
          if roundAwayFromZero rm sgn m1 lf then
            let e2 := if m1 =? 0 then minExponent s else e1 in
            let m2 := m1 + 1 in
            if omsbOf m2 =? precision s + 1 then
              if e2 =? maxExponent s then makeInf s sgn
              else mk s fcNormal sgn (e2 + 1) (Z.shiftr m2 1)
            else mk s fcNormal sgn e2 m2
          else if m1 =? 0 then makeZero s sgn
          else mk s fcNormal sgn e1 m1
      end.

(** [IEEEFloat(semantics, integerPart)]: the float of an unsigned
    integer, which is +0.0 for 0. *)
Definition ofInteger (s : fltSemantics) (value : Z) : t :=
  normalize s rmNearestTiesToEven false (precision s - 1) value lfExactlyZero.

(** [IEEEFloat(semantics, APInt)]: decoding of an IEEE bit pattern
    ([initFromHalfAPInt], [initFromFloatAPInt], [initFromDoubleAPInt]). *)
Definition ofBits (s : fltSemantics) (i : Z) : t :=
  let p := precision s in
  let expMask := Z.ones (sizeInBits s - p) in
  let myexponent := Z.land (Z.shiftr i (p - 1)) expMask in
  let mysignificand := Z.land i (Z.ones (p - 1)) in
  let sgn := Z.testbit i (sizeInBits s - 1) in
  if (myexponent =? 0) && (mysignificand =? 0) then makeZero s sgn
  else if (myexponent =? expMask) && (mysignificand =? 0) then makeInf s sgn
  else if (myexponent =? expMask) then mk s fcNaN sgn 0 mysignificand
  else if (myexponent =? 0) then mk s fcNormal sgn (minExponent s) mysignificand
  else mk s fcNormal sgn (myexponent - maxExponent s)
          (Z.lor mysignificand (Z.shiftl 1 (p - 1))).

(** [bitcastToAPInt]: the IEEE bit pattern of a value. *)
Definition toBits (f : t) : Z :=
  let s := semantics f in
  let p := precision s in
  let expMask := Z.ones (sizeInBits s - p) in
  let '(myexponent, mysignificand) :=
    match category f with
    | fcNormal =>
        if (exponent f =? minExponent s) && negb (Z.testbit (significand f) (p - 1))
        then (0, significand f)
        else (exponent f + maxExponent s, significand f)
    | fcZero => (0, 0)
    | fcInfinity => (expMask, 0)
    | fcNaN => (expMask, significand f)
    end in
  Z.lor (Z.shiftl (Z.b2z (sign f)) (sizeInBits s - 1))
        (Z.lor (Z.shiftl (Z.land myexponent expMask) (p - 1))
               (Z.land mysignificand (Z.ones (p - 1)))).

(** [isSignaling]: a NaN whose quiet bit, the top bit of the fraction,
    is clear. *)
Definition isSignaling (f : t) : bool :=
  match category f with
  | fcNaN => negb (Z.testbit (significand f) (precision (semantics f) - 2))
  | _ => false
  end.

(** [makeQuiet]: the quiet bit is set, the rest of the payload stays. *)
Definition makeQuiet (f : t) : t :=
  mk (semantics f) (category f) (sign f) (exponent f)
     (Z.lor (significand f) (Z.shiftl 1 (precision (semantics f) - 2))).

(** [convert]: change of format.  A widening shifts the significand
    left and normalizes; a narrowing shifts right, keeps what was
    lost and rounds in [normalize].  The payload of a NaN is shifted
    likewise, and a signalling NaN comes out quiet. *)
Definition convert (toSemantics : fltSemantics) (rm : roundingMode) (f : t) : t :=
  let fromSemantics := semantics f in
  let shift0 := precision toSemantics - precision fromSemantics in
  match category f with
  | fcNormal =>
      let '(shift, e) :=
        if shift0 <? 0 then
          let ec0 := omsbOf (significand f) - precision fromSemantics in
          let ec1 := if exponent f + ec0 <? minExponent toSemantics
                     then minExponent toSemantics - exponent f else ec0 in
          let ec2 := if ec1 <? shift0 then shift0 else ec1 in
          if ec2 <? 0 then (shift0 - ec2, exponent f + ec2)
          else (shift0, exponent f)
        else (shift0, exponent f) in
      if shift <? 0 then
        normalize toSemantics rm (sign f) e (Z.shiftr (significand f) (- shift))
                  (lostFractionThroughTruncation (significand f) (- shift))
      else
        normalize toSemantics rm (sign f) e (Z.shiftl (significand f) shift)
                  lfExactlyZero
  | fcNaN =>
      let r := mk toSemantics fcNaN (sign f) 0
                  (if shift0 <? 0 then Z.shiftr (significand f) (- shift0)
                   else Z.shiftl (significand f) shift0) in
      if isSignaling r then makeQuiet r else r
  | fcZero => makeZero toSemantics (sign f)
  | fcInfinity => makeInf toSemantics (sign f)
  end.

End APFloat.

(* ================================================================== *)
(** * The IR: types, constants, values, instructions *)
(* ================================================================== *)

Inductive Ty :=
| HalfTy | FloatTy | DoubleTy
| IntegerTy (bits : Z)
| VectorTy (elt : Ty) (n : nat)
| VoidTy
| OtherTy.

Definition getScalarType (t : Ty) : Ty :=
  match t with VectorTy e _ => e | _ => t end.

Definition isHalfTy (t : Ty) : bool := match t with HalfTy => true | _ => false end.
Definition isFloatTy (t : Ty) : bool := match t with FloatTy => true | _ => false end.
Definition isDoubleTy (t : Ty) : bool := match t with DoubleTy => true | _ => false end.

Definition isFloatingPointTy (t : Ty) : bool :=
  match t with HalfTy | FloatTy | DoubleTy => true | _ => false end.

Definition isFPOrFPVectorTy (t : Ty) : bool := isFloatingPointTy (getScalarType t).

Definition getFltSemantics (t : Ty) : option APFloat.fltSemantics :=
  match t with
  | HalfTy => Some APFloat.IEEEhalf
  | FloatTy => Some APFloat.IEEEsingle
  | DoubleTy => Some APFloat.IEEEdouble
  | _ => None
  end.

Definition typeOfSemantics (s : APFloat.fltSemantics) : Ty :=
  match s with
  | APFloat.IEEEhalf => HalfTy
  | APFloat.IEEEsingle => FloatTy
  | APFloat.IEEEdouble => DoubleTy
  end.

(** Constants.  A [ConstantInt] holds its zero-extended value; a
    [Function] is a constant too (it is the last operand of a call). *)
#[warnings="-register-all"]
Inductive Constant :=
| ConstantFP (v : APFloat.t)
| ConstantInt (bits : Z) (v : Z)
| ConstantAggregateZero (ty : Ty)
| ConstantVector (elts : list Constant)
| UndefValue (ty : Ty)
| Function (name : string).

Definition Constant_getType : Constant -> Ty :=
  fix ty_of (c : Constant) : Ty :=
    match c with
    | ConstantFP v => typeOfSemantics (APFloat.semantics v)
    | ConstantInt bits _ => IntegerTy bits
    | ConstantAggregateZero t => t
    | ConstantVector elts =>
        match elts with
        | e :: _ => VectorTy (ty_of e) (List.length elts)
        | [] => VectorTy VoidTy 0
        end
    | UndefValue t => t
    | Function _ => OtherTy
    end.

(** [Constant::getNullValue] *)
Definition getNullValue (t : Ty) : Constant :=
  match t with
  | HalfTy => ConstantFP (APFloat.makeZero APFloat.IEEEhalf false)
  | FloatTy => ConstantFP (APFloat.makeZero APFloat.IEEEsingle false)
  | DoubleTy => ConstantFP (APFloat.makeZero APFloat.IEEEdouble false)
  | IntegerTy bits => ConstantInt bits 0
  | _ => ConstantAggregateZero t
  end.

(** The elements [getAggregateElement] hands out for a vector constant. *)
Definition vectorElements (c : Constant) : option (list Constant) :=
  match c with
  | ConstantVector elts => Some elts
  | ConstantAggregateZero (VectorTy e n) => Some (repeat (getNullValue e) n)
  | UndefValue (VectorTy e n) => Some (repeat (UndefValue e) n)
  | _ => None
  end.

Definition getAggregateElement (c : Constant) (i : nat) : option Constant :=
  match vectorElements c with
  | Some elts => nth_error elts i
  | None => None
  end.

(** [Constant::isNullValue]: +0.0, integer 0, or an aggregate zero. *)
Definition isNullValue (c : Constant) : bool :=
  match c with
  | ConstantFP v => APFloat.isZero v && negb (APFloat.isNegative v)
  | ConstantInt _ v => v =? 0
  | ConstantAggregateZero _ => true
  | _ => false
  end.

(** [ConstantFP::isZero]: positive or negative zero. *)
Definition ConstantFP_isZero (v : APFloat.t) : bool := APFloat.isZero v.

(** [Constant::isFiniteNonZeroFP] and [Constant::isNormalFP]: the test on
    a [ConstantFP], or on every element of a vector constant. *)
Definition allElementsFP (p : APFloat.t -> bool) (c : Constant) : bool :=
  match c with
  | ConstantFP v => p v
  | _ =>
      match vectorElements c with
      | Some elts =>
          forallb (fun e => match e with ConstantFP v => p v | _ => false end) elts
      | None => false
      end
  end.

Definition isFiniteNonZeroFP (c : Constant) : bool :=
  allElementsFP APFloat.isFiniteNonZero c.
Definition isNormalFP (c : Constant) : bool :=
  allElementsFP APFloat.isNormal c.

Definition APFloat_eqb (a b : APFloat.t) : bool :=
  APFloat.semantics_eqb (APFloat.semantics a) (APFloat.semantics b)
  && match APFloat.category a, APFloat.category b with
     | APFloat.fcZero, APFloat.fcZero
     | APFloat.fcInfinity, APFloat.fcInfinity
     | APFloat.fcNaN, APFloat.fcNaN
     | APFloat.fcNormal, APFloat.fcNormal => true
     | _, _ => false
     end
  && Bool.eqb (APFloat.sign a) (APFloat.sign b)
  && (APFloat.exponent a =? APFloat.exponent b)
  && (APFloat.significand a =? APFloat.significand b).

(** [ConstantVector::get] of floating elements: an all-(+0.0) vector is
    the aggregate zero of the vector type, any other one keeps its
    elements. *)
Definition ConstantVector_get (V : list Constant) : Constant :=
  match V with
  | ConstantFP z :: rest =>
      if isNullValue (ConstantFP z)
         && forallb (fun e => match e with
                              | ConstantFP v => APFloat_eqb v z
                              | _ => false
                              end) rest
      then ConstantAggregateZero
             (VectorTy (typeOfSemantics (APFloat.semantics z)) (List.length V))
      else ConstantVector V
  | _ => ConstantVector V
  end.

(** [ConstantFP::get(Type*, double)]: the host value [V] converted to the
    scalar format of the type with round-to-nearest-even, splatted when
    the type is a vector.  (On a type that is not floating LLVM asserts;
    the pass never asks for it.) *)
Definition ConstantFP_get (t : Ty) (V : APFloat.t) : Constant :=
  match getFltSemantics (getScalarType t) with
  | Some sem =>
      let C := ConstantFP (APFloat.convert sem APFloat.rmNearestTiesToEven V) in
      match t with
      | VectorTy _ n => ConstantVector_get (repeat C n)
      | _ => C
      end
  | None => UndefValue t
  end.

(** The host's [double] 0.0 *)
Definition hostZero : APFloat.t := APFloat.makeZero APFloat.IEEEdouble false.

(** [APFloat::convertToFloat] followed by the promotion of the host
    [float] to the [double] parameter of [ConstantFP::get].  The
    promotion is exact on every number, and like every conversion of
    format it hands a signalling NaN on as a quiet one. *)
Definition convertToFloat (f : APFloat.t) : APFloat.t :=
  APFloat.convert APFloat.IEEEdouble APFloat.rmNearestTiesToEven f.

(** Values: constants, instructions (by identity) and arguments. *)
Inductive Value :=
| VConst (c : Constant)
| VInst (id : nat)
| VArg (n : nat) (ty : Ty).

Inductive BinaryOps :=
| Add | FAdd | Sub | FSub | Mul | FMul | UDiv | SDiv | FDiv
| URem | SRem | FRem | Shl | LShr | AShr | And | Or | Xor.

Inductive Opcode :=
| BinaryOp (op : BinaryOps)
| Call
| BitCast
| Ret
| OtherOp (terminator : bool).

Definition opcode_is (op : BinaryOps) (o : Opcode) : bool :=
  match o, op with
  | BinaryOp FAdd, FAdd | BinaryOp FSub, FSub
  | BinaryOp FMul, FMul | BinaryOp FDiv, FDiv => true
  | _, _ => false
  end.

(** Fast-math flags, the bit set LLVM keeps in [SubclassOptionalData]. *)
Module FastMathFlags.
Definition AllowReassoc : Z := 1.
Definition NoNaNs : Z := 2.
Definition NoInfs : Z := 4.
Definition NoSignedZeros : Z := 8.
Definition AllowReciprocal : Z := 16.
Definition AllowContract : Z := 32.
Definition ApproxFunc : Z := 64.

Definition any (Flags : Z) : bool := negb (Flags =? 0).
Definition allowReassoc (Flags : Z) : bool :=
  negb (Z.land Flags AllowReassoc =? 0).
Definition allowContract (Flags : Z) : bool :=
  negb (Z.land Flags AllowContract =? 0).
Definition setAllowReassoc (B : bool) (Flags : Z) : Z :=
  Z.lor (Z.ldiff Flags AllowReassoc) (Z.b2z B * AllowReassoc).
Definition setAllowContract (B : bool) (Flags : Z) : Z :=
  Z.lor (Z.ldiff Flags AllowContract) (Z.b2z B * AllowContract).
End FastMathFlags.

(** An instruction.  [id] is the identity of the node (the pointer in
    C++); [parent] names the function it lives in.  The operands of a
    call are its arguments followed by the callee. *)
Record Instruction := mkInst {
  id : nat;
  parent : string;
  opcode : Opcode;
  ty : Ty;
  operands : list Value;
  SubclassOptionalData : Z;
  mayHaveSideEffects : bool
}.

Definition isBinaryOperator (i : Instruction) : bool :=
  match opcode i with BinaryOp _ => true | _ => false end.

(** [isa<FPMathOperator>] of a binary operator: the floating opcodes. *)
Definition isFPMathOperator (i : Instruction) : bool :=
  match opcode i with
  | BinaryOp (FAdd | FSub | FMul | FDiv | FRem) => true
  | BinaryOp _ => false
  | _ => isFPOrFPVectorTy (ty i)
  end.

Definition isTerminator (i : Instruction) : bool :=
  match opcode i with
  | Ret => true
  | OtherOp t => t
  | _ => false
  end.

Definition getOperand (i : Instruction) (n : nat) : option Value :=
  nth_error (operands i) n.

(** [CallInst::getCalledFunction]: the callee, when it is a function. *)
Definition getCalledFunction (i : Instruction) : option string :=
  match last (operands i) (VArg 0 VoidTy) with
  | VConst (Function name) => Some name
  | _ => None
  end.

(** The module: its instructions in layout order (function after
    function, block after block). *)
Definition Module := list Instruction.

Definition lookup (g : Module) (n : nat) : option Instruction :=
  find (fun i => Nat.eqb (id i) n) g.

Definition isUseOf (n : nat) (v : Value) : bool :=
  match v with VInst m => Nat.eqb m n | _ => false end.

Definition use_empty (g : Module) (n : nat) : bool :=
  forallb (fun i => negb (existsb (isUseOf n) (operands i))) g.

Definition setOperands (i : Instruction) (ops : list Value) : Instruction :=
  mkInst (id i) (parent i) (opcode i) (ty i) ops
         (SubclassOptionalData i) (mayHaveSideEffects i).

Definition setFlags (i : Instruction) (F : Z) : Instruction :=
  mkInst (id i) (parent i) (opcode i) (ty i) (operands i)
         F (mayHaveSideEffects i).

(** [replaceAllUsesWith]: every operand slot that holds the instruction
    [n] holds [v] afterwards. *)
Definition replaceAllUsesWith (g : Module) (n : nat) (v : Value) : Module :=
  map (fun i => setOperands i
                  (map (fun o => if isUseOf n o then v else o) (operands i))) g.

(** [eraseFromParent] (after [dropAllReferences], which only unhooks
    the operands of the node that is deleted). *)
Definition eraseFromParent (g : Module) (n : nat) : Module :=
  filter (fun i => negb (Nat.eqb (id i) n)) g.

(** [copyFastMathFlags] on the instruction [n]. *)
Definition copyFastMathFlags (g : Module) (n : nat) (F : Z) : Module :=
  map (fun i => if Nat.eqb (id i) n then setFlags i F else i) g.

(** Insertion of [new] right before the instruction [n]. *)
Fixpoint insertBefore (g : Module) (n : nat) (new : Instruction) : Module :=
  match g with
  | [] => []
  | i :: rest =>
      if Nat.eqb (id i) n then new :: i :: rest
      else i :: insertBefore rest n new
  end.

Definition Value_getType (g : Module) (v : Value) : Ty :=
  match v with
  | VConst c => Constant_getType c
  | VArg _ t => t
  | VInst n => match lookup g n with Some i => ty i | None => VoidTy end
  end.

(** [llvm::isInstructionTriviallyDead]: no use, not a terminator, no
    side effect. *)
Definition isInstructionTriviallyDead (g : Module) (i : Instruction) : bool :=
  use_empty g (id i) && negb (isTerminator i) && negb (mayHaveSideEffects i).

(* ================================================================== *)
(** * The pass *)
(* ================================================================== *)

(** What the pass reads and never writes: its two switches, the entry
    point, and the floating-point control flags of the shader stage
    ([builtInUsage.common]). *)
Record Context := mkContext {
  m_enableConstFolding : bool;
  m_enableFloatOpt : bool;
  m_pEntryPoint : string;
  denormFlushToZero : Z;
  signedZeroInfNanPreserve : Z
}.

(** What the pass writes: the module and its [m_changed] member. *)
Record PassState := mkState {
  m_pModule : Module;
  m_changed : bool
}.

(** A step that has no result (a query that does not return, a null
    pointer that is dereferenced) is [None], and so is everything that
    comes after it. *)
Definition bind {A B : Type} (x : option A) (k : A -> option B) : option B :=
  match x with Some a => k a | None => None end.

Notation "x <- c ;; k" := (bind c (fun x => k))
  (at level 61, c at next level, right associativity).

(** ** [IsOperandNoContract]

    The recursion follows the defining chain, which the module does not
    bound by its type; [fuel] is the depth the recursion may reach, and
    [None] says that it was not enough. *)
Fixpoint IsOperandNoContract (fuel : nat) (g : Module) (pOperand : Value)
  : option bool :=
  match fuel with
  | O => None
  | S fuel' =>
      match pOperand with
      | VInst n =>
          match lookup g n with
          | Some pInst =>
              if isBinaryOperator pInst then
                let fastMathFlags := SubclassOptionalData pInst in
                if isFPMathOperator pInst
                   && (FastMathFlags.any fastMathFlags
                       && negb (FastMathFlags.allowContract fastMathFlags))
                then Some true
                else
                  (* the loop over the operands returns in its first round *)
                  match operands pInst with
                  | opIt :: _ => IsOperandNoContract fuel' g opIt
                  | [] => Some false
                  end
              else Some false
          | None => Some false
          end
      | _ => Some false
      end
  end.

(** A chain without a cycle has at most as many links as the module has
    instructions. *)
Definition chainFuel (g : Module) : nat := S (List.length g).

Definition operandNoContract (g : Module) (o : option Value) : option bool :=
  match o with
  | Some v => IsOperandNoContract (chainFuel g) g v
  | None => Some false
  end.

(** The test behind [src1IsConstZero] and [src2IsConstZero]. *)
Definition isConstZero (o : option Value) : bool :=
  match o with
  | Some (VConst (ConstantAggregateZero _)) => true
  | Some (VConst (ConstantFP v)) => ConstantFP_isZero v
  | _ => false
  end.

Definition freshId (g : Module) : nat := S (list_max (map id g)).

(** Modelled from the spec: the call-emission service [EmitCall] of the
    builtin-dispatch collaborator, whose code is not among the sources.
    Given the (mangled) name, the result type, the arguments and the
    insertion point, it creates a new call instruction to the runtime
    function of that name right before the insertion point and returns
    it.  No attribute is passed ([NoAttrib]), so nothing says that the
    callee is free of side effects. *)
Definition EmitCall (g : Module) (funcName : string) (pRetTy : Ty)
           (args : list Value) (pInsertPos : Instruction)
  : Module * Instruction :=
  let pCallInst :=
    mkInst (freshId g) (parent pInsertPos) Call pRetTy
           (args ++ [VConst (Function funcName)]) 0 true in
  (insertBefore g (id pInsertPos) pCallInst, pCallInst).

Section Pass.

(** LLVM's constant folder, taken as it is. *)
Variable ConstantFoldInstruction : Instruction -> option Constant.

(** The name mangling of the SPIR-V builtins. *)
Variable mangleBuiltin : string -> list Ty -> string.

(** The bits of [denormFlushToZero] ([SPIRVTypeWidthKind]). *)
Variables SPIRVTW_16Bit SPIRVTW_32Bit SPIRVTW_64Bit : Z.

Variable ctx : Context.

(** ** Constant folding (first half of [runOnModule]) *)

(** Lines 127-136: the folded constant, with a denormal replaced. *)
Definition flushFolded (pDestType : Ty) (pConst : Constant) : Constant :=
  if (isHalfTy pDestType
      && negb (Z.land (denormFlushToZero ctx) SPIRVTW_16Bit =? 0))
     || (isFloatTy pDestType
         && negb (Z.land (denormFlushToZero ctx) SPIRVTW_32Bit =? 0))
     || (isDoubleTy pDestType
         && negb (Z.land (denormFlushToZero ctx) SPIRVTW_64Bit =? 0))
  then
    if isFiniteNonZeroFP pConst && negb (isNormalFP pConst)
    then ConstantFP_get pDestType hostZero
    else pConst
  else pConst.

(** Lines 160-185: the two halves of the constant, flushed, widened
    and packed. *)
Definition flushHalf (fVal : APFloat.t) : APFloat.t :=
  if APFloat.isDenormal fVal then APFloat.ofInteger APFloat.IEEEhalf 0 else fVal.

Definition unpackHalf2x16 (constVal : Z) : Constant :=
  let fVal0 := APFloat.ofBits APFloat.IEEEhalf (Z.land constVal 0xFFFF) in
  let fVal1 := APFloat.ofBits APFloat.IEEEhalf
                              (Z.land (Z.shiftr constVal 16) 0xFFFF) in
  let fVal0 := flushHalf fVal0 in
  let fVal1 := flushHalf fVal1 in
  let fVal0 := APFloat.convert APFloat.IEEEsingle APFloat.rmTowardZero fVal0 in
  let fVal1 := APFloat.convert APFloat.IEEEsingle APFloat.rmTowardZero fVal1 in
  ConstantVector_get [ ConstantFP_get FloatTy (convertToFloat fVal0);
                       ConstantFP_get FloatTy (convertToFloat fVal1) ].

(** [replaceAllUsesWith], then [eraseFromParent] if that left the
    instruction trivially dead; [m_changed] is set. *)
Definition substitute (g : Module) (pInst : Instruction) (c : Constant)
  : PassState :=
  let g1 := replaceAllUsesWith g (id pInst) (VConst c) in
  mkState (if isInstructionTriviallyDead g1 pInst
           then eraseFromParent g1 (id pInst) else g1)
          true.

(** The body of the loop over the instructions (lines 101-199).  Line
    154 dereferences what [getCalledFunction] returns, which is null
    for a call that is not a direct call of a function: the body then
    has no result, [None]. *)
Definition foldInstruction (st : PassState) (pInst : Instruction)
  : option PassState :=
  let g := m_pModule st in
  if isInstructionTriviallyDead g pInst then
    Some (mkState (eraseFromParent g (id pInst)) true)
  else
    let pDestType := ty pInst in
    if use_empty g (id pInst)
       || (Nat.eqb (List.length (operands pInst)) 0)
       || negb (isFPOrFPVectorTy pDestType)
       || negb (match getOperand pInst 0 with
                | Some (VConst _) => true
                | _ => false
                end)
    then Some st
    else
      match ConstantFoldInstruction pInst with
      | Some pConst => Some (substitute g pInst (flushFolded pDestType pConst))
      | None =>
          match opcode pInst with
          | Call =>
              if negb (Z.land (denormFlushToZero ctx) SPIRVTW_16Bit =? 0)
              then
                pCalledFunction <- getCalledFunction pInst ;;
                if String.eqb pCalledFunction "_Z14unpackHalf2x16i"
                then
                  match getOperand pInst 0 with
                  | Some (VConst (ConstantInt _ constVal)) =>
                      Some (substitute g pInst (unpackHalf2x16 constVal))
                  | _ => Some st
                  end
                else Some st
              else Some st
          | _ => Some st
          end
      end.

(** The instructions of the entry point are met in layout order.  The
    iterator is moved on before the body runs, and the body unlinks no
    instruction but the current one, so the instructions met are those
    of the function at entry, each in its current state. *)
Definition entryInstructions (g : Module) : list nat :=
  map id (filter (fun i => String.eqb (parent i) (m_pEntryPoint ctx)) g).

Fixpoint foldInstructions (ids : list nat) (st : PassState)
  : option PassState :=
  match ids with
  | [] => Some st
  | n :: rest =>
      st1 <- match lookup (m_pModule st) n with
             | Some pInst => foldInstruction st pInst
             | None => Some st
             end ;;
      foldInstructions rest st1
  end.

Definition foldConstants (st : PassState) : option PassState :=
  foldInstructions (entryInstructions (m_pModule st)) st.

(** ** [visitBinaryOperator] *)

(** Lines 228-242: the fast-math flags of an [fadd] that allows
    contraction, given what its operands answer. *)
Definition contractFlags (fastMathFlags : Z) (hasNoContract : bool) : Z :=
  let allowContract := negb hasNoContract in
  FastMathFlags.setAllowContract allowContract
    (FastMathFlags.setAllowReassoc allowContract fastMathFlags).

(** Lines 248-298: the operand that replaces the instruction, if any. *)
Definition identityOperand (opCode : Opcode) (pSrc1 pSrc2 : option Value)
  : option Value :=
  let src1IsConstZero := isConstZero pSrc1 in
  let src2IsConstZero := isConstZero pSrc2 in
  if (denormFlushToZero ctx =? 0) && (signedZeroInfNanPreserve ctx =? 0) then
    match opCode with
    | BinaryOp FAdd =>
        if src1IsConstZero then pSrc2
        else if src2IsConstZero then pSrc1
        else None
    | BinaryOp FMul =>
        if src1IsConstZero then pSrc1
        else if src2IsConstZero then pSrc2
        else None
    | BinaryOp FDiv =>
        if src1IsConstZero && negb src2IsConstZero then pSrc1 else None
    | BinaryOp FSub =>
        if src2IsConstZero then pSrc1 else None
    | _ => None
    end
  else None.

(** Lines 228-242 on the module: [None] when a query does not return. *)
Definition normalizeContract (g : Module) (binaryOp : Instruction)
  : option Module :=
  let fastMathFlags := SubclassOptionalData binaryOp in
  if opcode_is FAdd (opcode binaryOp)
     && FastMathFlags.allowContract fastMathFlags
  then
    n1 <- operandNoContract g (getOperand binaryOp 0) ;;
    hasNoContract <- (if n1 : bool then Some true
                      else operandNoContract g (getOperand binaryOp 1)) ;;
    Some (copyFastMathFlags g (id binaryOp)
                            (contractFlags fastMathFlags hasNoContract))
  else Some g.

(** Lines 300-323 on the module: the identity found, if any, replaces
    the instruction; a division that is still there becomes a call. *)
Definition rewriteBinaryOperator (st : PassState) (binaryOp : Instruction)
  : PassState :=
  let g := m_pModule st in
  let pSrc1 := getOperand binaryOp 0 in
  let pSrc2 := getOperand binaryOp 1 in
  let pDest := identityOperand (opcode binaryOp) pSrc1 pSrc2 in
  let st1 :=
    match pDest with
    | Some d =>
        mkState (eraseFromParent
                   (replaceAllUsesWith g (id binaryOp) d) (id binaryOp))
                true
    | None => st
    end in
  match opcode binaryOp, pDest, pSrc1, pSrc2 with
  | BinaryOp FDiv, None, Some a, Some b =>
      let mangledName :=
        mangleBuiltin "fdiv" [Value_getType g a; Value_getType g b] in
      let '(g1, pFDiv) :=
        EmitCall g mangledName (ty binaryOp) [a; b] binaryOp in
      mkState (eraseFromParent
                 (replaceAllUsesWith g1 (id binaryOp) (VInst (id pFDiv)))
                 (id binaryOp))
              true
  | _, _, _, _ => st1
  end.

Definition visitBinaryOperator (st : PassState) (binaryOp : Instruction)
  : option PassState :=
  g1 <- normalizeContract (m_pModule st) binaryOp ;;
  Some (rewriteBinaryOperator (mkState g1 (m_changed st)) binaryOp).

(** [visit(m_pModule)]: the visitor calls [visitBinaryOperator] on the
    binary operators and does nothing on every other instruction.  As
    in the first loop the iterator is moved on before the call, and
    the call unlinks the current instruction only (the emitted call
    goes before it), so the instructions [ids] of the module at entry
    are met, each in its current state. *)
Fixpoint visitInstructions (ids : list nat) (st : PassState)
  : option PassState :=
  match ids with
  | [] => Some st
  | n :: rest =>
      st1 <- match lookup (m_pModule st) n with
             | Some pInst =>
                 if isBinaryOperator pInst
                 then visitBinaryOperator st pInst
                 else Some st
             | None => Some st
             end ;;
      visitInstructions rest st1
  end.

Definition visit (st : PassState) : option PassState :=
  visitInstructions (map id (m_pModule st)) st.

(** ** [runOnModule] *)
Definition runOnModule (module : Module) : option (bool * Module) :=
  let st := mkState module false in
  st <- (if m_enableConstFolding ctx && negb (denormFlushToZero ctx =? 0)
         then foldConstants st else Some st) ;;
  st <- (if m_enableFloatOpt ctx then visit st else Some st) ;;
  Some (m_changed st, m_pModule st).

End Pass.

(* ================================================================== *)
(** * Notions the properties are stated with *)
(* ================================================================== *)

(** The binary operator that produces a value, if one does. *)
Definition definingBinaryOperator (g : Module) (v : Value) : option Instruction :=
  match v with
  | VInst n =>
      match lookup g n with
      | Some i => if isBinaryOperator i then Some i else None
      | None => None
      end
  | _ => None
  end.

(** A floating operator with some fast-math flag but not the contract one. *)
Definition forbidsContract (i : Instruction) : bool :=
  isFPMathOperator i
  && (FastMathFlags.any (SubclassOptionalData i)
      && negb (FastMathFlags.allowContract (SubclassOptionalData i))).

(** [Answers g v b]: the query on [v] returns [b]. *)
Definition Answers (g : Module) (v : Value) (b : bool) : Prop :=
  exists fuel, IsOperandNoContract fuel g v = Some b.

(** [firstOperandOf g o v]: [v] is produced by a binary operator whose
    first operand is [o]; the links of the defining chain. *)
Definition firstOperandOf (g : Module) (o v : Value) : Prop :=
  exists i, definingBinaryOperator g v = Some i /\ hd_error (operands i) = Some o.

(** What the query looks at in an instruction: whether it is a binary
    operator, whether it forbids contraction, and its first operand. *)
Definition chainView (i : Instruction) : bool * bool * option Value :=
  (isBinaryOperator i, forbidsContract i, hd_error (operands i)).

Definition sameChains (g g' : Module) : Prop :=
  forall n, option_map chainView (lookup g n) = option_map chainView (lookup g' n).



Definition preservationOff (ctx : Context) : Prop :=
  denormFlushToZero ctx = 0 /\ signedZeroInfNanPreserve ctx = 0.

(** The zero that keeps the sign of the constant it stands for. *)
Definition signedZeroLike (v : APFloat.t) : Constant :=
  ConstantFP (APFloat.makeZero (APFloat.semantics v) (APFloat.sign v)).

(** The two lanes of the argument of the unpack builtin. *)
Definition lowHalf (constVal : Z) : APFloat.t :=
  APFloat.ofBits APFloat.IEEEhalf (Z.land constVal 0xFFFF).
Definition highHalf (constVal : Z) : APFloat.t :=
  APFloat.ofBits APFloat.IEEEhalf (Z.land (Z.shiftr constVal 16) 0xFFFF).

(** A lane of the unpack builtin after the flush of its input and the
    widening to single precision. *)
Definition widenedLane (h : APFloat.t) : APFloat.t :=
  APFloat.convert APFloat.IEEEsingle APFloat.rmTowardZero (flushHalf h).

(** The IEEE single bit pattern of the half pattern [x] widened as
    IEEE 754 converts formats, a denormal half counting as +0.0: a
    number or an infinity keeps its value, a NaN keeps its sign and its
    payload (moved up by 13 bits) and has the quiet bit set, so that a
    signalling NaN becomes the quiet NaN of the same payload. *)
Definition laneBits (x : Z) : Z :=
  let s := Z.shiftr x 15 in
  let e := Z.land (Z.shiftr x 10) 31 in
  let m := Z.land x 1023 in
  if e =? 0 then (if m =? 0 then Z.shiftl s 31 else 0)
  else if e =? 31 then
    if m =? 0 then Z.lor (Z.shiftl s 31) 0x7F800000
    else Z.lor (Z.shiftl s 31) (Z.lor 0x7FC00000 (Z.shiftl m 13))
  else Z.lor (Z.shiftl s 31) (Z.lor (Z.shiftl (e + 112) 23) (Z.shiftl m 13)).

(** The lane that the 16 bits [x] give. *)
Definition laneOf (x : Z) : APFloat.t :=
  widenedLane (APFloat.ofBits APFloat.IEEEhalf x).

(** What is checked of the lane [f] of the half [h] with the bits [x]:
    the host float and its promotion give the lane back; *)
Definition laneHostOK (f : APFloat.t) : bool :=
  APFloat_eqb (APFloat.convert APFloat.IEEEsingle APFloat.rmNearestTiesToEven
                               (convertToFloat f)) f.

(** the lane is a single with the bits of the exact widening, never a
    denormal, and a canonical zero when it is zero; *)
Definition laneShapeOK (x : Z) (f : APFloat.t) : bool :=
  APFloat.semantics_eqb (APFloat.semantics f) APFloat.IEEEsingle
  && (APFloat.toBits f =? laneBits x)
  && negb (APFloat.isDenormal f)
  && (negb (APFloat.isZero f)
      || APFloat_eqb f (APFloat.makeZero APFloat.IEEEsingle (APFloat.sign f))).

(** a denormal half gives +0.0; *)
Definition laneFlushOK (h f : APFloat.t) : bool :=
  negb (APFloat.isDenormal h)
  || APFloat_eqb f (APFloat.makeZero APFloat.IEEEsingle false).

(** any other half gives its widening, of the same sign and, when it
    is finite, of the same value. *)
Definition laneExactOK (h f : APFloat.t) : bool :=
  APFloat.isDenormal h
  || (APFloat_eqb f (APFloat.convert APFloat.IEEEsingle APFloat.rmTowardZero h)
      && Bool.eqb (APFloat.sign f) (APFloat.sign h)
      && (negb (APFloat.isFiniteNonZero h)
          || (APFloat.isFiniteNonZero f
              && (APFloat.significand f =? APFloat.significand h * 2 ^ 13)
              && (APFloat.exponent f =? APFloat.exponent h)))).

(** a NaN gives a quiet NaN with its payload. *)
Definition laneNaNOK (h f : APFloat.t) : bool :=
  match APFloat.category h with
  | APFloat.fcNaN =>
      match APFloat.category f with APFloat.fcNaN => true | _ => false end
      && negb (APFloat.isSignaling f)
      && (APFloat.significand f
          =? Z.lor (APFloat.significand h * 2 ^ 13) (2 ^ 22))
  | _ => true
  end.

Definition laneOK (x : Z) (h f : APFloat.t) : bool :=
  laneHostOK f && laneShapeOK x f && laneFlushOK h f && laneExactOK h f
  && laneNaNOK h f.

(** What holds of the lane of the 16 bits [x]: a denormal half gives
    +0.0; any other half gives its widening, which has its sign and,
    when it is finite and not zero, its value (the significand moves up
    by the 13 bits that single precision has more, the exponent
    stays); the bits of the lane are those of the IEEE widening, and
    the lane is not a denormal of single precision; a NaN, signalling
    or quiet, gives a quiet NaN with its payload. *)
Definition laneSpec (x : Z) : Prop :=
  let h := APFloat.ofBits APFloat.IEEEhalf x in
  let f := laneOf x in
  (APFloat.isDenormal h = true -> f = APFloat.makeZero APFloat.IEEEsingle false)
  /\ (APFloat.isDenormal h = false ->
      f = APFloat.convert APFloat.IEEEsingle APFloat.rmTowardZero h
      /\ APFloat.sign f = APFloat.sign h
      /\ (APFloat.isFiniteNonZero h = true ->
          APFloat.isFiniteNonZero f = true
          /\ APFloat.significand f = APFloat.significand h * 2 ^ 13
          /\ APFloat.exponent f = APFloat.exponent h))
  /\ APFloat.toBits f = laneBits x
  /\ APFloat.isDenormal f = false
  /\ (APFloat.category h = APFloat.fcNaN ->
      APFloat.category f = APFloat.fcNaN
      /\ APFloat.isSignaling f = false
      /\ APFloat.significand f
         = Z.lor (APFloat.significand h * 2 ^ 13) (2 ^ 22)).

(** The bit of [denormFlushToZero] for a format. *)
Definition widthBit (SPIRVTW_16Bit SPIRVTW_32Bit SPIRVTW_64Bit : Z)
           (sem : APFloat.fltSemantics) : Z :=
  match sem with
  | APFloat.IEEEhalf => SPIRVTW_16Bit
  | APFloat.IEEEsingle => SPIRVTW_32Bit
  | APFloat.IEEEdouble => SPIRVTW_64Bit
  end.

(** Definition before use in the layout: every operand that is an
    instruction is one of [before] or one laid out earlier in [g]. *)
Fixpoint definedBeforeUse (before : list nat) (g : Module) : Prop :=
  match g with
  | [] => True
  | i :: rest =>
      (forall m, In (VInst m) (operands i) -> In m before)
      /\ definedBeforeUse (before ++ [id i]) rest
  end.

(** A binary operator the visit has nothing left to do on: if it is an
    [fadd] that allows contraction, it allows reassociation too and no
    operand disallows contraction; no identity applies to it; and it is
    not a division with its two operands. *)
Definition settled (ctx : Context) (g : Module) (x : Instruction) : Prop :=
  isBinaryOperator x = true ->
  (opcode_is FAdd (opcode x)
   && FastMathFlags.allowContract (SubclassOptionalData x) = true ->
   FastMathFlags.allowReassoc (SubclassOptionalData x) = true
   /\ forall v, getOperand x 0 = Some v \/ getOperand x 1 = Some v ->
                Answers g v false)
  /\ identityOperand ctx (opcode x) (getOperand x 0) (getOperand x 1) = None
  /\ (opcode x = BinaryOp FDiv ->
      getOperand x 0 = None \/ getOperand x 1 = None).

(** The call that stands for the division [binaryOp] of [a] by [b]. *)
Definition fdivCall (mangleBuiltin : string -> list Ty -> string) (g : Module)
           (binaryOp : Instruction) (a b : Value) : Instruction :=
  mkInst (freshId g) (parent binaryOp) Call (ty binaryOp)
         [a; b; VConst (Function
                          (mangleBuiltin "fdiv"%string
                                         [Value_getType g a; Value_getType g b]))]
         0 true.

(** Floating zero constants of either sign. *)
Definition zeroFP (sem : APFloat.fltSemantics) (neg : bool) : Value :=
  VConst (ConstantFP (APFloat.makeZero sem neg)).

(** The smallest negative denormal of single precision. *)
Definition negDenormal : APFloat.t := APFloat.ofBits APFloat.IEEEsingle 0x80000001.

(** What [copyFastMathFlags] leaves alone: every field but the flags of
    the instruction it is called on. *)
Definition sameButFlags (n : nat) (i i' : Instruction) : Prop :=
  setFlags i' 0 = setFlags i 0 /\ (id i <> n -> i' = i).

(** The same instruction but for its operands. *)
Definition sameButOperands (i i' : Instruction) : Prop :=
  setOperands i' [] = setOperands i [].

(** The same instruction, or the same [fadd] but for its fast-math flags. *)
Definition flagsOnly (i i' : Instruction) : Prop :=
  i' = i \/ (opcode_is FAdd (opcode i) = true /\ exists F, i' = setFlags i F).

(** What the folding loop may not remove: terminators, instructions
    with side effects, and the instructions of the other functions. *)
Definition keptByFolding (ctx : Context) (i : Instruction) : bool :=
  isTerminator i || mayHaveSideEffects i
  || negb (String.eqb (parent i) (m_pEntryPoint ctx)).

(** [passesContract g v o]: [v] is produced by a binary operator that
    does not forbid contraction, and [o] is its first operand; the
    links the query follows. *)
Definition passesContract (g : Module) (v o : Value) : Prop :=
  exists i, definingBinaryOperator g v = Some i
            /\ forbidsContract i = false
            /\ hd_error (operands i) = Some o.

(** The state of the folding loop: identities stay pairwise different,
    every instruction is one of the module at entry, and the
    instructions that are to be kept are there. *)
Definition foldingInvariant (ctx : Context) (g0 g : Module) : Prop :=
  NoDup (map id g)
  /\ (forall j', In j' g -> exists j, In j g0 /\ sameButOperands j j')
  /\ (forall j, In j g0 -> keptByFolding ctx j = true ->
                exists j', In j' g /\ sameButOperands j j').

(** Binary operators after their operands: no binary operator has
    among its operands itself or a binary operator that is laid out
    after it.  Nothing is asked of the other instructions, so that a
    phi node may well use a value that is defined further down. *)
Fixpoint operatorsAfterOperands (g : Module) : Prop :=
  match g with
  | [] => True
  | i :: rest =>
      (isBinaryOperator i = true ->
       forall j, In j (i :: rest) -> isBinaryOperator j = true ->
                 ~ In (VInst (id j)) (operands i))
      /\ operatorsAfterOperands rest
  end.







(** What keeps the folding loop from dereferencing a null callee: when
    the loop is switched on and the 16-bit flush flag is set, every
    call of the entry point is a direct call of a function. *)
Definition calleesKnown (SPIRVTW_16Bit : Z) (ctx : Context) (g : Module)
  : Prop :=
  m_enableConstFolding ctx = true ->
  Z.land (denormFlushToZero ctx) SPIRVTW_16Bit <> 0 ->
  forall i, In i g -> parent i = m_pEntryPoint ctx -> opcode i = Call ->
            exists name, getCalledFunction i = Some name.

(** [P] on every [k]-bit extension of the bits [prefix]. *)
Fixpoint checkBits (P : Z -> bool) (k : nat) (prefix : Z) : bool :=
  match k with
  | O => P prefix
  | S k' => checkBits P k' (2 * prefix) && checkBits P k' (2 * prefix + 1)
  end.

(* ================================================================== *)
(** * Concrete collaborators and modules for the examples *)
(* ================================================================== *)

Module Examples.

(** The part of LLVM's folder the examples need: the bitcast of an
    integer constant to the floating type of the same width, and of a
    vector of such constants to the vector of as many floats. *)
Definition castBits (sem : APFloat.fltSemantics) (c : Constant) : option Constant :=
  match c with
  | ConstantInt bits v =>
      if bits =? APFloat.sizeInBits sem
      then Some (ConstantFP (APFloat.ofBits sem v))
      else None
  | _ => None
  end.

Fixpoint castAll (sem : APFloat.fltSemantics) (elts : list Constant)
  : option (list Constant) :=
  match elts with
  | [] => Some []
  | c :: rest =>
      match castBits sem c, castAll sem rest with
      | Some f, Some fs => Some (f :: fs)
      | _, _ => None
      end
  end.

Definition foldBitCast (i : Instruction) : option Constant :=
  match opcode i, operands i with
  | BitCast, [VConst c] =>
      match ty i, c with
      | VectorTy e n, ConstantVector elts =>
          match getFltSemantics e with
          | Some sem =>
              if Nat.eqb (List.length elts) n
              then option_map ConstantVector_get (castAll sem elts)
              else None
          | None => None
          end
      | t, _ =>
          match getFltSemantics t with
          | Some sem => castBits sem c
          | None => None
          end
      end
  | _, _ => None
  end.

(** Itanium-style mangling of a builtin over scalar floats. *)
Definition typeCode (t : Ty) : string :=
  match t with
  | HalfTy => "Dh" | FloatTy => "f" | DoubleTy => "d" | _ => "v"
  end%string.

Definition mangle (name : string) (tys : list Ty) : string :=
  ("_Z4" ++ name ++ String.concat "" (map typeCode tys))%string.

Definition SPIRVTW_16Bit : Z := 2.
Definition SPIRVTW_32Bit : Z := 4.
Definition SPIRVTW_64Bit : Z := 8.

Definition main : string := "main"%string.

(** Both switches on, no control flag set. *)
Definition plain : Context := mkContext true true main 0 0.
(** 32-bit denormals are flushed. *)
Definition flush32 : Context := mkContext true true main SPIRVTW_32Bit 0.
(** 16-bit denormals are flushed. *)
Definition flush16 : Context := mkContext true true main SPIRVTW_16Bit 0.

Definition ret (n : nat) (ops : list Value) : Instruction :=
  mkInst n main Ret VoidTy ops 0 false.

(** [%1 = bitcast i32 0x80000001 to float; ret %1]: the smallest
    negative denormal of single precision. *)
Definition castDenormal : Instruction :=
  mkInst 1 main BitCast FloatTy [VConst (ConstantInt 32 0x80000001)] 0 false.
Definition gCast : Module := [castDenormal; ret 2 [VInst 1%nat]].

(** [%1 = bitcast <2 x i32> <i32 1, i32 0x80000001> to <2 x float>; ret %1]:
    the two smallest denormals of single precision. *)
Definition castDenormals : Instruction :=
  mkInst 1 main BitCast (VectorTy FloatTy 2)
         [VConst (ConstantVector [ConstantInt 32 1; ConstantInt 32 0x80000001])]
         0 false.
Definition gCastVector : Module := [castDenormals; ret 2 [VInst 1%nat]].

(** [%1 = call <2 x float> @_Z14unpackHalf2x16i(i32 0x3C008001); ret %1]:
    the low lane is the smallest negative half denormal, the high
    lane is 1.0. *)
Definition unpackCall : Instruction :=
  mkInst 1 main Call (VectorTy FloatTy 2)
         [VConst (ConstantInt 32 0x3C008001);
          VConst (Function "_Z14unpackHalf2x16i")] 0 false.
Definition gUnpack : Module := [unpackCall; ret 2 [VInst 1%nat]].

(** [%1 = fadd contract float %a, %b; ret %1] *)
Definition faddContract : Instruction :=
  mkInst 1 main (BinaryOp FAdd) FloatTy [VArg 0 FloatTy; VArg 1 FloatTy]
         FastMathFlags.AllowContract false.
Definition gContract : Module := [faddContract; ret 2 [VInst 1%nat]].

(** [%1 = fmul nnan float %a, %b; %2 = fadd contract float %1, %c; ret %2] *)
Definition fmulNoContract : Instruction :=
  mkInst 1 main (BinaryOp FMul) FloatTy [VArg 0 FloatTy; VArg 1 FloatTy]
         FastMathFlags.NoNaNs false.
Definition faddAfterMul : Instruction :=
  mkInst 2 main (BinaryOp FAdd) FloatTy [VInst 1%nat; VArg 2 FloatTy]
         FastMathFlags.AllowContract false.
Definition gChain : Module := [fmulNoContract; faddAfterMul; ret 3 [VInst 2%nat]].

(** [%1 = fadd float %a, -0.0; ret %1] *)
Definition negZero : Value :=
  VConst (ConstantFP (APFloat.makeZero APFloat.IEEEsingle true)).
Definition faddNegZero : Instruction :=
  mkInst 1 main (BinaryOp FAdd) FloatTy [VArg 0 FloatTy; negZero] 0 false.
Definition gNegZero : Module := [faddNegZero; ret 2 [VInst 1%nat]].

(** [%1 = fdiv float %a, %b; ret %1] *)
Definition fdivArgs : Instruction :=
  mkInst 1 main (BinaryOp FDiv) FloatTy [VArg 0 FloatTy; VArg 1 FloatTy] 0 false.
Definition gDiv : Module := [fdivArgs; ret 2 [VInst 1%nat]].

(** [%1 = fadd float %a, %b; %2 = fmul float %1, %1; ret void]: [%2]
    is dead, and [%1] is dead once [%2] is gone. *)
Definition gDead : Module :=
  [ mkInst 1 main (BinaryOp FAdd) FloatTy [VArg 0 FloatTy; VArg 1 FloatTy] 0 false;
    mkInst 2 main (BinaryOp FMul) FloatTy [VInst 1%nat; VInst 1%nat] 0 false;
    ret 3 [] ].

(** A block laid out before the block that dominates it: after the
    entry block, which branches to the last block, comes
    [%1 = fadd float %2, 1.0; ret %1], and only then
    [%2 = fmul float %a, 0.0] and the branch back. *)
Definition one : Value :=
  VConst (ConstantFP (APFloat.ofBits APFloat.IEEEsingle 0x3F800000)).
Definition posZero : Value :=
  VConst (ConstantFP (APFloat.makeZero APFloat.IEEEsingle false)).
Definition br (n : nat) : Instruction :=
  mkInst n main (OtherOp true) VoidTy [] 0 false.
Definition gLayout : Module :=
  [ br 5;
    mkInst 1 main (BinaryOp FAdd) FloatTy [VInst 2%nat; one] 0 false;
    ret 3 [VInst 1%nat];
    mkInst 2 main (BinaryOp FMul) FloatTy [VArg 0 FloatTy; posZero] 0 false;
    br 4 ].

(** [%1 = fadd float %1, %a], alone in an unreachable block. *)
Definition gLoop : Module :=
  [ mkInst 1 main (BinaryOp FAdd) FloatTy [VInst 1%nat; VArg 0 FloatTy] 0 false ].


(** [%1 = call float %fp(i32 0); ret %1]: a call through a pointer, which
    has no called function. *)
Definition gIndirect : Module :=
  [ mkInst 1 main Call FloatTy
           [VConst (ConstantInt 32 0); VArg 0 OtherTy] 0 true;
    ret 2 [VInst 1%nat] ].

End Examples.

(* ================================================================== *)
(** * Properties *)
(* ================================================================== *)

(** ** The contraction query *)

Lemma IsOperandNoContract_step (fuel : nat) (g : Module) (v : Value) :
  IsOperandNoContract (S fuel) g v =
  match definingBinaryOperator g v with
  | None => Some false
  | Some i =>
      if forbidsContract i then Some true
      else match operands i with
           | o :: _ => IsOperandNoContract fuel g o
           | [] => Some false
           end
  end.
Proof.
  unfold definingBinaryOperator, forbidsContract. simpl.
  destruct v as [c | n | a t]; try reflexivity.
  destruct (lookup g n) as [i |]; try reflexivity.
  destruct (isBinaryOperator i); reflexivity.
Qed.

Lemma IsOperandNoContract_mono (g : Module) :
  forall fuel v b,
    IsOperandNoContract fuel g v = Some b ->
    forall fuel', (fuel <= fuel')%nat -> IsOperandNoContract fuel' g v = Some b.
Proof.
  induction fuel as [| fuel IH]; intros v b H fuel' Hle.
  - discriminate.
  - destruct fuel' as [| fuel']; [lia |].
    rewrite IsOperandNoContract_step in *.
    destruct (definingBinaryOperator g v) as [i |]; [| exact H].
    destruct (forbidsContract i); [exact H |].
    destruct (operands i) as [| o rest]; [exact H |].
    apply IH with (fuel' := fuel') in H; [exact H | lia].
Qed.

Lemma Answers_functional (g : Module) (v : Value) (b b' : bool) :
  Answers g v b -> Answers g v b' -> b = b'.
Proof.
  intros [f Hf] [f' Hf'].
  apply IsOperandNoContract_mono with (fuel' := Nat.max f f') in Hf; [| lia].
  apply IsOperandNoContract_mono with (fuel' := Nat.max f f') in Hf'; [| lia].
  congruence.
Qed.

Lemma lookup_In (g : Module) (n : nat) (i : Instruction) :
  lookup g n = Some i -> In i g /\ id i = n.
Proof.
  unfold lookup. intros H. apply find_some in H. destruct H as [Hin Heq].
  split; [exact Hin | now apply Nat.eqb_eq].
Qed.

Lemma definingBinaryOperator_inv (g : Module) (v : Value) (i : Instruction) :
  definingBinaryOperator g v = Some i ->
  v = VInst (id i) /\ lookup g (id i) = Some i /\ isBinaryOperator i = true.
Proof.
  unfold definingBinaryOperator. destruct v as [c | n | a t]; try discriminate.
  destruct (lookup g n) as [j |] eqn:Hl; try discriminate.
  destruct (isBinaryOperator j) eqn:Hb; try discriminate.
  intros H. injection H as <-. destruct (lookup_In _ _ _ Hl) as [_ Hid].
  subst n. auto.
Qed.

Lemma Acc_irreflexive {A : Type} (R : A -> A -> Prop) (x : A) :
  Acc R x -> ~ R x x.
Proof.
  induction 1 as [x _ IH]. intros Hxx. exact (IH x Hxx Hxx).
Qed.

(** On a chain without a cycle the ids met are pairwise different, so
    the fuel left never runs out before the module does. *)
Lemma IsOperandNoContract_total_seen (g : Module) (v : Value) :
  Acc (firstOperandOf g) v ->
  forall seen,
    NoDup seen ->
    incl seen (map id g) ->
    (forall s, In s seen -> clos_trans Value (firstOperandOf g) v (VInst s)) ->
    exists b,
      IsOperandNoContract (S (List.length g - List.length seen)) g v = Some b.
Proof.
  induction 1 as [v Hacc IH]. intros seen Hnd Hincl Hreach.
  rewrite IsOperandNoContract_step.
  destruct (definingBinaryOperator g v) as [i |] eqn:Hd; [| eauto].
  destruct (forbidsContract i); [eauto |].
  destruct (operands i) as [| o rest] eqn:Hops; [eauto |].
  destruct (definingBinaryOperator_inv _ _ _ Hd) as [Hv [Hl _]].
  assert (Hstep : firstOperandOf g o v).
  { exists i. rewrite Hops. auto. }
  assert (Hfresh : ~ In (id i) seen).
  { intros Hin. apply Hreach in Hin. rewrite <- Hv in Hin.
    apply (Acc_irreflexive (clos_trans Value (firstOperandOf g)) v); [| exact Hin].
    apply Acc_clos_trans. constructor. exact Hacc. }
  assert (Hmem : In (id i) (map id g)).
  { apply in_map. apply (lookup_In _ _ _ Hl). }
  assert (Hlen : (List.length (id i :: seen) <= List.length g)%nat).
  { rewrite <- (length_map id g). apply NoDup_incl_length.
    - constructor; assumption.
    - intros x [<- | Hx]; auto. }
  simpl in Hlen.
  replace (List.length g - List.length seen)%nat
    with (S (List.length g - List.length (id i :: seen)))%nat by (simpl; lia).
  apply (IH o Hstep (id i :: seen)).
  - constructor; assumption.
  - intros x [<- | Hx]; auto.
  - intros s [<- | Hs].
    + rewrite <- Hv. apply t_step. exact Hstep.
    + apply t_trans with (y := v); [apply t_step; exact Hstep | auto].
Qed.

Lemma IsOperandNoContract_total (g : Module) (v : Value) :
  Acc (firstOperandOf g) v ->
  exists b, IsOperandNoContract (chainFuel g) g v = Some b.
Proof.
  intros Hacc.
  destruct (IsOperandNoContract_total_seen g v Hacc [] (NoDup_nil _)) as [b Hb].
  - intros x [].
  - intros s [].
  - exists b. simpl in Hb. rewrite Nat.sub_0_r in Hb. exact Hb.
Qed.

Lemma Acc_not_binary (g : Module) (v : Value) :
  definingBinaryOperator g v = None -> Acc (firstOperandOf g) v.
Proof.
  intros H. constructor. intros o [i [Hd _]]. congruence.
Qed.

Lemma Acc_first_operand (g : Module) (v o : Value) (i : Instruction) :
  definingBinaryOperator g v = Some i ->
  hd_error (operands i) = Some o ->
  Acc (firstOperandOf g) o -> Acc (firstOperandOf g) v.
Proof.
  intros Hd Hh Ho. constructor. intros o' [i' [Hd' Hh']].
  rewrite Hd in Hd'. injection Hd' as <-. rewrite Hh in Hh'.
  injection Hh' as <-. exact Ho.
Qed.

Lemma IsOperandNoContract_sameChains (g g' : Module) :
  sameChains g g' ->
  forall fuel v, IsOperandNoContract fuel g v = IsOperandNoContract fuel g' v.
Proof.
  intros Hsame. induction fuel as [| fuel IH]; intros v; [reflexivity |].
  simpl. destruct v as [c | n | a t]; try reflexivity.
  specialize (Hsame n). unfold chainView, forbidsContract in Hsame.
  destruct (lookup g n) as [i |], (lookup g' n) as [i' |];
    simpl in Hsame; try discriminate; try reflexivity.
  injection Hsame as Hb Hf Hh. rewrite <- Hb.
  destruct (isBinaryOperator i); [| reflexivity].
  rewrite <- Hf.
  destruct (isFPMathOperator i && _); [reflexivity |].
  destruct (operands i) as [| o r], (operands i') as [| o' r'];
    simpl in Hh; try discriminate; try reflexivity.
  injection Hh as <-. apply IH.
Qed.

(** A first-operand chain that runs into itself: the query returns for
    no depth of recursion. *)
Lemma IsOperandNoContract_cycle :
  forall fuel, IsOperandNoContract fuel Examples.gLoop (VInst 1) = None.
Proof.
  induction fuel as [| fuel IH]; [reflexivity |].
  rewrite IsOperandNoContract_step. exact IH.
Qed.

(** C6: the contraction query is a function of the defining chain of the
    value.  It answers false for a value that no binary operator
    produces; it answers true at once for a floating binary operator
    that has some fast-math flag but not the contract one; in every
    other case its answer is the answer for the first operand of the
    operator.  The answer is unique, and it is the same in any two
    modules whose instructions differ only in what lies beyond the first
    operand, so no other operand is ever looked at. *)
Theorem IsOperandNoContract_characterisation (g : Module) (v : Value) :
  (definingBinaryOperator g v = None -> Answers g v false)
  /\ (forall i, definingBinaryOperator g v = Some i ->
                forbidsContract i = true -> Answers g v true)
  /\ (forall i, definingBinaryOperator g v = Some i ->
                forbidsContract i = false ->
                forall b, Answers g v b <->
                          match operands i with
                          | o :: _ => Answers g o b
                          | [] => b = false
                          end)
  /\ (forall b b', Answers g v b -> Answers g v b' -> b = b')
  /\ (forall g', sameChains g g' -> forall b, Answers g v b <-> Answers g' v b).
Proof.
  repeat split.
  - intros Hd. exists 1%nat. rewrite IsOperandNoContract_step, Hd. reflexivity.
  - intros i Hd Hf. exists 1%nat.
    rewrite IsOperandNoContract_step, Hd, Hf. reflexivity.
  - intros [fuel Hfuel]. destruct fuel as [| fuel]; [discriminate |].
    rewrite IsOperandNoContract_step, H, H0 in Hfuel.
    destruct (operands i) as [| o rest]; [congruence |].
    exists fuel. exact Hfuel.
  - intros Hb. destruct (operands i) as [| o rest] eqn:Hops.
    + subst b. exists 1%nat.
      rewrite IsOperandNoContract_step, H, H0, Hops. reflexivity.
    + destruct Hb as [fuel Hfuel]. exists (S fuel).
      rewrite IsOperandNoContract_step, H, H0, Hops. exact Hfuel.
  - apply Answers_functional.
  - intros [fuel Hfuel]. exists fuel.
    rewrite <- (IsOperandNoContract_sameChains g g' H). exact Hfuel.
  - intros [fuel Hfuel]. exists fuel.
    rewrite (IsOperandNoContract_sameChains g g' H). exact Hfuel.
Qed.

(** C10: the query terminates on every defining chain without a cycle.
    If the first-operand chain of a value is well founded, a recursion
    depth of one more than the number of instructions is enough for
    the query to return, and any greater depth returns the same
    answer. *)
Theorem IsOperandNoContract_terminates (g : Module) (v : Value) :
  Acc (firstOperandOf g) v ->
  exists b,
    IsOperandNoContract (chainFuel g) g v = Some b
    /\ forall fuel, (chainFuel g <= fuel)%nat ->
                    IsOperandNoContract fuel g v = Some b.
Proof.
  intros Hacc. destruct (IsOperandNoContract_total g v Hacc) as [b Hb].
  exists b. split; [exact Hb |].
  intros fuel Hle. exact (IsOperandNoContract_mono g _ _ _ Hb fuel Hle).
Qed.

(** ** Fast-math flags *)

Lemma land_pow2 (F n : Z) :
  0 <= n -> Z.land F (2 ^ n) = if Z.testbit F n then 2 ^ n else 0.
Proof.
  intros Hn. apply Z.bits_inj'. intros k Hk.
  rewrite Z.land_spec, Z.pow2_bits_eqb by exact Hn.
  destruct (Z.eqb_spec n k) as [-> | Hne].
  - destruct (Z.testbit F k); simpl.
    + now rewrite Z.pow2_bits_eqb, Z.eqb_refl.
    + now rewrite Z.bits_0.
  - rewrite andb_false_r. destruct (Z.testbit F n).
    + rewrite Z.pow2_bits_eqb by exact Hn.
      symmetry. now apply Z.eqb_neq.
    + now rewrite Z.bits_0.
Qed.

Lemma allowContract_testbit (F : Z) :
  FastMathFlags.allowContract F = Z.testbit F 5.
Proof.
  unfold FastMathFlags.allowContract, FastMathFlags.AllowContract.
  change 32 with (2 ^ 5). rewrite land_pow2 by lia.
  destruct (Z.testbit F 5); reflexivity.
Qed.

Lemma allowReassoc_testbit (F : Z) :
  FastMathFlags.allowReassoc F = Z.testbit F 0.
Proof.
  unfold FastMathFlags.allowReassoc, FastMathFlags.AllowReassoc.
  change 1 with (2 ^ 0). rewrite land_pow2 by lia.
  destruct (Z.testbit F 0); reflexivity.
Qed.

Lemma contractFlags_testbit (F : Z) (h : bool) (k : Z) :
  0 <= k ->
  Z.testbit (contractFlags F h) k =
  if (k =? 0) || (k =? 5) then negb h else Z.testbit F k.
Proof.
  intros Hk.
  unfold contractFlags, FastMathFlags.setAllowContract,
    FastMathFlags.setAllowReassoc, FastMathFlags.AllowContract,
    FastMathFlags.AllowReassoc.
  rewrite !Z.lor_spec, !Z.ldiff_spec, Z.lor_spec, Z.ldiff_spec.
  change 32 with (2 ^ 5). change 1 with (2 ^ 0) at 1.
  rewrite !Z.pow2_bits_eqb by lia.
  assert (H5 : Z.testbit (Z.b2z (negb h) * 2 ^ 5) k = negb h && (5 =? k)).
  { destruct h; simpl Z.b2z.
    - now rewrite Z.mul_0_l, Z.bits_0.
    - now rewrite Z.mul_1_l, Z.pow2_bits_eqb by lia. }
  assert (H0 : Z.testbit (Z.b2z (negb h) * 1) k = negb h && (0 =? k)).
  { destruct h; simpl Z.b2z.
    - now rewrite Z.mul_0_l, Z.bits_0.
    - rewrite Z.mul_1_l. change 1 with (2 ^ 0).
      now rewrite Z.pow2_bits_eqb by lia. }
  rewrite H5, H0.
  destruct (Z.eqb_spec k 0) as [-> | N0]; [destruct h, (Z.testbit F 0); reflexivity |].
  destruct (Z.eqb_spec k 5) as [-> | N5]; [destruct h, (Z.testbit F 5); reflexivity |].
  replace (0 =? k) with false by (symmetry; apply Z.eqb_neq; lia).
  replace (5 =? k) with false by (symmetry; apply Z.eqb_neq; lia).
  simpl. rewrite !andb_false_r, !andb_true_r, !orb_false_r. reflexivity.
Qed.

Lemma copyFastMathFlags_frame (g : Module) (n : nat) (F : Z) :
  Forall2 (sameButFlags n) g (copyFastMathFlags g n F).
Proof.
  induction g as [| i g IH]; simpl; constructor; [| exact IH].
  unfold sameButFlags. destruct (Nat.eqb_spec (id i) n) as [E | N].
  - split; [reflexivity | contradiction].
  - split; [reflexivity | reflexivity].
Qed.

Lemma operandNoContract_total (g : Module) (o : option Value) :
  (forall v, o = Some v -> Acc (firstOperandOf g) v) ->
  exists b, operandNoContract g o = Some b
            /\ (b = true <-> exists v, o = Some v /\ Answers g v true).
Proof.
  intros Hacc. destruct o as [v |]; simpl.
  - destruct (IsOperandNoContract_total g v (Hacc v eq_refl)) as [b Hb].
    exists b. split; [exact Hb |]. split.
    + intros ->. exists v. split; [reflexivity | now exists (chainFuel g)].
    + intros [v' [Hv' Ha]]. injection Hv' as <-.
      apply (Answers_functional g v); [now exists (chainFuel g) | exact Ha].
  - exists false. split; [reflexivity |]. split; [discriminate |].
    intros [v [Hv _]]. discriminate.
Qed.


(** ** Replace, then erase *)

Lemma use_empty_replaceAllUsesWith (g : Module) (n : nat) (v : Value) :
  isUseOf n v = false -> use_empty (replaceAllUsesWith g n v) n = true.
Proof.
  intros Hv. unfold use_empty, replaceAllUsesWith.
  rewrite forallb_forall. intros i' Hin. apply in_map_iff in Hin.
  destruct Hin as [i [<- _]]. simpl. apply negb_true_iff.
  induction (operands i) as [| o ops IH]; [reflexivity |].
  simpl. rewrite IH, orb_false_r.
  destruct (isUseOf n o) eqn:Ho; [exact Hv | exact Ho].
Qed.

Lemma use_empty_eraseFromParent (g : Module) (n m : nat) :
  use_empty g n = true -> use_empty (eraseFromParent g m) n = true.
Proof.
  unfold use_empty, eraseFromParent. rewrite !forallb_forall.
  intros H i Hin. apply filter_In in Hin. apply H. tauto.
Qed.

Lemma lookup_eraseFromParent (g : Module) (n : nat) :
  lookup (eraseFromParent g n) n = None.
Proof.
  unfold lookup, eraseFromParent.
  induction g as [| i g IH]; [reflexivity |]. simpl.
  destruct (Nat.eqb (id i) n) eqn:E; simpl; [exact IH |].
  rewrite E. exact IH.
Qed.

Lemma id_le_list_max (g : Module) (i : Instruction) :
  In i g -> (id i <= list_max (map id g))%nat.
Proof.
  induction g as [| j g IH]; [contradiction |].
  intros [-> | Hin]; simpl; [lia |]. specialize (IH Hin). lia.
Qed.

Lemma freshId_fresh (g : Module) (i : Instruction) :
  In i g -> id i <> freshId g.
Proof.
  intros Hin. apply id_le_list_max in Hin. unfold freshId. lia.
Qed.

(** The emitted call is found under its fresh id, whatever is replaced
    and erased around it. *)
Lemma lookup_emitted (g : Module) (binaryOp new : Instruction) (v : Value) :
  In binaryOp g ->
  (forall i, In i g -> id i <> id new) ->
  exists c,
    lookup (eraseFromParent
              (replaceAllUsesWith (insertBefore g (id binaryOp) new)
                                  (id binaryOp) v)
              (id binaryOp)) (id new) = Some c
    /\ setOperands c [] = setOperands new []
    /\ operands c = map (fun o => if isUseOf (id binaryOp) o then v else o)
                        (operands new).
Proof.
  intros Hin Hfresh.
  assert (Hne : Nat.eqb (id new) (id binaryOp) = false).
  { apply Nat.eqb_neq. intros E. exact (Hfresh _ Hin (eq_sym E)). }
  induction g as [| i g IH]; [contradiction |].
  simpl. destruct (Nat.eqb (id i) (id binaryOp)) eqn:E.
  - simpl. rewrite Hne. simpl. unfold lookup. simpl. rewrite Nat.eqb_refl.
    eexists. split; [reflexivity |]. split; reflexivity.
  - simpl. rewrite E. simpl.
    assert (Hi : Nat.eqb (id i) (id new) = false).
    { apply Nat.eqb_neq. apply Hfresh. now left. }
    unfold lookup. simpl. rewrite Hi. apply IH.
    + destruct Hin as [-> | Hin]; [| exact Hin].
      rewrite Nat.eqb_refl in E. discriminate.
    + intros j Hj. apply Hfresh. now right.
Qed.

(** ** [visitBinaryOperator] *)

Lemma normalizeContract_other (g : Module) (binaryOp : Instruction) :
  opcode_is FAdd (opcode binaryOp) = false ->
  normalizeContract g binaryOp = Some g.
Proof.
  intros H. unfold normalizeContract. rewrite H. reflexivity.
Qed.

Lemma normalizeContract_total (g : Module) (binaryOp : Instruction) :
  (forall v, In v (operands binaryOp) -> Acc (firstOperandOf g) v) ->
  exists g1, normalizeContract g binaryOp = Some g1
             /\ Forall2 (sameButFlags (id binaryOp)) g g1.
Proof.
  intros Hacc.
  assert (Hrefl : Forall2 (sameButFlags (id binaryOp)) g g).
  { clear. induction g; constructor; [split; reflexivity | assumption]. }
  unfold normalizeContract.
  destruct (opcode_is FAdd (opcode binaryOp)
            && FastMathFlags.allowContract (SubclassOptionalData binaryOp));
    [| eauto].
  destruct (operandNoContract_total g (getOperand binaryOp 0)) as [n1 [H1 _]].
  { intros v Hv. apply Hacc. eapply nth_error_In. exact Hv. }
  destruct (operandNoContract_total g (getOperand binaryOp 1)) as [n2 [H2 _]].
  { intros v Hv. apply Hacc. eapply nth_error_In. exact Hv. }
  rewrite H1. simpl. destruct n1; simpl.
  - eexists. split; [reflexivity | apply copyFastMathFlags_frame].
  - rewrite H2. simpl.
    eexists. split; [reflexivity | apply copyFastMathFlags_frame].
Qed.

Lemma gate_on (ctx : Context) :
  preservationOff ctx ->
  (denormFlushToZero ctx =? 0) && (signedZeroInfNanPreserve ctx =? 0) = true.
Proof. intros [-> ->]. reflexivity. Qed.






Lemma rewriteBinaryOperator_identity
      (mangleBuiltin : string -> list Ty -> string) (ctx : Context)
      (st : PassState) (binaryOp : Instruction) (a b d : Value) :
  operands binaryOp = [a; b] ->
  identityOperand ctx (opcode binaryOp) (Some a) (Some b) = Some d ->
  rewriteBinaryOperator mangleBuiltin ctx st binaryOp =
  mkState (eraseFromParent
             (replaceAllUsesWith (m_pModule st) (id binaryOp) d) (id binaryOp))
          true.
Proof.
  intros Hops Hid. unfold rewriteBinaryOperator, getOperand.
  rewrite Hops. simpl. rewrite Hid.
  destruct (opcode binaryOp) as [[] | | | |]; reflexivity.
Qed.


(** C4: a division that no identity resolved becomes a call.  Whatever
    the control flags are, the visit of an [fdiv] with the operands [a]
    and [b] for which no identity was found emits, right before it, a
    call of the result type of the division to the function that
    "fdiv" mangles to for the types of [a] and [b], with [a] and [b] as
    arguments, replaces all uses of the division by the call, erases
    the division and sets the changed flag.  When a control flag is
    set, no identity is ever found, so that every division ends so.
    Afterwards the division is gone and has no use left, and the call
    is in the module. *)
Theorem division_fallback
        (mangleBuiltin : string -> list Ty -> string) (ctx : Context)
        (st : PassState) (binaryOp : Instruction) (a b : Value) :
  opcode binaryOp = BinaryOp FDiv ->
  operands binaryOp = [a; b] ->
  identityOperand ctx (BinaryOp FDiv) (Some a) (Some b) = None ->
  let g := m_pModule st in
  let pFDiv := fdivCall mangleBuiltin g binaryOp a b in
  let g' := eraseFromParent
              (replaceAllUsesWith (insertBefore g (id binaryOp) pFDiv)
                                  (id binaryOp) (VInst (id pFDiv)))
              (id binaryOp) in
  visitBinaryOperator mangleBuiltin ctx st binaryOp = Some (mkState g' true)
  /\ (In binaryOp g ->
      lookup g' (id binaryOp) = None
      /\ use_empty g' (id binaryOp) = true
      /\ exists c, lookup g' (id pFDiv) = Some c
                   /\ opcode c = Call /\ ty c = ty binaryOp
                   /\ operands c =
                      map (fun o => if isUseOf (id binaryOp) o
                                    then VInst (id pFDiv) else o)
                          (operands pFDiv)).
Proof.
  intros Hop Hops Hid. cbv zeta. split.
  - unfold visitBinaryOperator.
    rewrite normalizeContract_other by (rewrite Hop; reflexivity).
    simpl. unfold rewriteBinaryOperator, getOperand.
    rewrite Hops, Hop. simpl. rewrite Hid. reflexivity.
  - intros Hin. split; [apply lookup_eraseFromParent | split].
    + apply use_empty_eraseFromParent, use_empty_replaceAllUsesWith.
      change (Nat.eqb (freshId (m_pModule st)) (id binaryOp) = false).
      apply Nat.eqb_neq. intros E.
      exact (freshId_fresh _ _ Hin (eq_sym E)).
    + destruct (lookup_emitted (m_pModule st) binaryOp
                  (fdivCall mangleBuiltin (m_pModule st) binaryOp a b)
                  (VInst (freshId (m_pModule st))) Hin) as [c [Hc [Hs Ho]]].
      { intros i Hi. simpl. now apply freshId_fresh. }
      exists c. split; [exact Hc |].
      split; [exact (f_equal opcode Hs) |].
      split; [exact (f_equal ty Hs) | exact Ho].
Qed.

Lemma identityOperand_flags_set (ctx : Context) (opCode : Opcode)
      (pSrc1 pSrc2 : option Value) :
  denormFlushToZero ctx <> 0 \/ signedZeroInfNanPreserve ctx <> 0 ->
  identityOperand ctx opCode pSrc1 pSrc2 = None.
Proof.
  intros H. unfold identityOperand.
  destruct (Z.eqb_spec (denormFlushToZero ctx) 0) as [E1 | N1];
    destruct (Z.eqb_spec (signedZeroInfNanPreserve ctx) 0) as [E2 | N2];
    simpl; try reflexivity.
  destruct H; contradiction.
Qed.

(** C9: the constant-zero test accepts -0.0 as it accepts +0.0 and the
    aggregate zero of a vector type.  With the control flags off, an
    operand -0.0 makes an identity fire exactly when +0.0 in its place
    does, whatever the other operand is; and with [x] not itself a
    constant zero, [x + (-0.0)], [(-0.0) + x] and [x - (-0.0)] are
    replaced by [x], and [x * (-0.0)], [(-0.0) * x] and [(-0.0) / x] by
    the zero operand, as with +0.0.  The visit of [fadd x, -0.0]
    replaces all uses of the instruction by [x], erases it and sets the
    changed flag. *)
Theorem negative_zero_identity
        (mangleBuiltin : string -> list Ty -> string) (ctx : Context)
        (sem : APFloat.fltSemantics) :
  preservationOff ctx ->
  (forall neg, isConstZero (Some (zeroFP sem neg)) = true)
  /\ (forall t, isConstZero (Some (VConst (ConstantAggregateZero t))) = true)
  /\ (forall opCode p,
        (identityOperand ctx opCode p (Some (zeroFP sem true)) = None <->
         identityOperand ctx opCode p (Some (zeroFP sem false)) = None)
        /\ (identityOperand ctx opCode (Some (zeroFP sem true)) p = None <->
            identityOperand ctx opCode (Some (zeroFP sem false)) p = None))
  /\ (forall x neg,
        isConstZero (Some x) = false ->
        let z := zeroFP sem neg in
        identityOperand ctx (BinaryOp FAdd) (Some x) (Some z) = Some x
        /\ identityOperand ctx (BinaryOp FAdd) (Some z) (Some x) = Some x
        /\ identityOperand ctx (BinaryOp FSub) (Some x) (Some z) = Some x
        /\ identityOperand ctx (BinaryOp FMul) (Some x) (Some z) = Some z
        /\ identityOperand ctx (BinaryOp FMul) (Some z) (Some x) = Some z
        /\ identityOperand ctx (BinaryOp FDiv) (Some z) (Some x) = Some z)
  /\ (forall x st binaryOp,
        isConstZero (Some x) = false ->
        opcode binaryOp = BinaryOp FAdd ->
        operands binaryOp = [x; zeroFP sem true] ->
        (forall v, In v (operands binaryOp) ->
                   Acc (firstOperandOf (m_pModule st)) v) ->
        exists g1,
          normalizeContract (m_pModule st) binaryOp = Some g1
          /\ visitBinaryOperator mangleBuiltin ctx st binaryOp =
             Some (mkState
                     (eraseFromParent
                        (replaceAllUsesWith g1 (id binaryOp) x) (id binaryOp))
                     true)).
Proof.
  intros Hoff.
  assert (Hz : forall neg, isConstZero (Some (zeroFP sem neg)) = true)
    by (intros neg; reflexivity).
  assert (Hids : forall x neg,
             isConstZero (Some x) = false ->
             let z := zeroFP sem neg in
             identityOperand ctx (BinaryOp FAdd) (Some x) (Some z) = Some x
             /\ identityOperand ctx (BinaryOp FAdd) (Some z) (Some x) = Some x
             /\ identityOperand ctx (BinaryOp FSub) (Some x) (Some z) = Some x
             /\ identityOperand ctx (BinaryOp FMul) (Some x) (Some z) = Some z
             /\ identityOperand ctx (BinaryOp FMul) (Some z) (Some x) = Some z
             /\ identityOperand ctx (BinaryOp FDiv) (Some z) (Some x) = Some z).
  { intros x neg Hx z. unfold identityOperand.
    rewrite (gate_on _ Hoff), Hx. subst z. rewrite Hz. simpl. tauto. }
  split; [exact Hz |]. split; [reflexivity |].
  split; [| split; [exact Hids |]].
  - intros opCode p. unfold identityOperand. rewrite (gate_on _ Hoff), !Hz.
    destruct opCode as [[] | | | |]; try tauto;
      destruct (isConstZero p), p; simpl; split; split; congruence.
  - intros x st binaryOp Hx Hop Hops Hacc.
    destruct (normalizeContract_total _ _ Hacc) as [g1 [Hn _]].
    exists g1. split; [exact Hn |].
    unfold visitBinaryOperator. rewrite Hn. simpl.
    rewrite (rewriteBinaryOperator_identity _ _ _ _ x (zeroFP sem true) x);
      [reflexivity | exact Hops |].
    rewrite Hop. apply (Hids x true Hx).
Qed.

(** ** Constant folding *)

Lemma APFloat_eqb_eq (a b : APFloat.t) : APFloat_eqb a b = true -> a = b.
Proof.
  destruct a as [sa ca ga ea ma], b as [sb cb gb eb mb].
  unfold APFloat_eqb. simpl. intros H.
  repeat (apply andb_true_iff in H; destruct H as [H ?]).
  assert (sa = sb) by (destruct sa, sb; simpl in H; congruence).
  assert (ca = cb) by (destruct ca, cb; congruence).
  assert (ga = gb) by (now apply Bool.eqb_prop).
  assert (ea = eb) by (now apply Z.eqb_eq).
  assert (ma = mb) by (now apply Z.eqb_eq).
  congruence.
Qed.

Lemma checkBits_all (P : Z -> bool) :
  forall k prefix,
    checkBits P k prefix = true ->
    forall x, prefix * 2 ^ Z.of_nat k <= x < (prefix + 1) * 2 ^ Z.of_nat k ->
              P x = true.
Proof.
  induction k as [| k IH]; intros prefix H x Hx.
  - simpl in Hx. replace x with prefix by lia. exact H.
  - cbn [checkBits] in H. apply andb_true_iff in H. destruct H as [H0 H1].
    rewrite Nat2Z.inj_succ, Z.pow_succ_r in Hx by lia.
    assert (Hp : 0 < 2 ^ Z.of_nat k) by (apply Z.pow_pos_nonneg; lia).
    set (p := 2 ^ Z.of_nat k) in *.
    destruct (Z_lt_ge_dec x ((2 * prefix + 1) * p)).
    + apply (IH _ H0). nia.
    + apply (IH _ H1). nia.
Qed.

Lemma laneChecks_all (x : Z) :
  0 <= x < 65536 -> laneOK x (APFloat.ofBits APFloat.IEEEhalf x) (laneOf x) = true.
Proof.
  intros Hx.
  apply (checkBits_all
           (fun x => laneOK x (APFloat.ofBits APFloat.IEEEhalf x) (laneOf x)) 16 0).
  - vm_compute. reflexivity.
  - simpl. lia.
Qed.

Lemma low16_range (c : Z) : 0 <= Z.land c 0xFFFF < 65536.
Proof.
  change 0xFFFF with (Z.ones 16). rewrite Z.land_ones by lia.
  change 65536 with (2 ^ 16). apply Z.mod_pos_bound. lia.
Qed.

Lemma ConstantFP_get_float (V : APFloat.t) :
  ConstantFP_get FloatTy V =
  ConstantFP (APFloat.convert APFloat.IEEEsingle APFloat.rmNearestTiesToEven V).
Proof. reflexivity. Qed.

Lemma laneOK_facts (x : Z) (h f : APFloat.t) :
  laneOK x h f = true ->
  ConstantFP_get FloatTy (convertToFloat f) = ConstantFP f
  /\ APFloat.semantics f = APFloat.IEEEsingle
  /\ APFloat.toBits f = laneBits x
  /\ APFloat.isDenormal f = false
  /\ (APFloat.isZero f = true ->
      f = APFloat.makeZero APFloat.IEEEsingle (APFloat.sign f))
  /\ (APFloat.isDenormal h = true ->
      f = APFloat.makeZero APFloat.IEEEsingle false)
  /\ (APFloat.isDenormal h = false ->
      f = APFloat.convert APFloat.IEEEsingle APFloat.rmTowardZero h
      /\ APFloat.sign f = APFloat.sign h
      /\ (APFloat.isFiniteNonZero h = true ->
          APFloat.isFiniteNonZero f = true
          /\ APFloat.significand f = APFloat.significand h * 2 ^ 13
          /\ APFloat.exponent f = APFloat.exponent h))
  /\ (APFloat.category h = APFloat.fcNaN ->
      APFloat.category f = APFloat.fcNaN
      /\ APFloat.isSignaling f = false
      /\ APFloat.significand f
         = Z.lor (APFloat.significand h * 2 ^ 13) (2 ^ 22)).
Proof.
  unfold laneOK, laneHostOK, laneShapeOK, laneFlushOK, laneExactOK, laneNaNOK.
  intros H.
  apply andb_true_iff in H. destruct H as [H CNaN].
  apply andb_true_iff in H. destruct H as [H Cexact].
  apply andb_true_iff in H. destruct H as [H Cflush].
  apply andb_true_iff in H. destruct H as [Chost H].
  apply andb_true_iff in H. destruct H as [H Czero].
  apply andb_true_iff in H. destruct H as [H Cden].
  apply andb_true_iff in H. destruct H as [Csem Cbits].
  split; [| split; [| split; [| split; [| split; [| split; [| split]]]]]].
  - rewrite ConstantFP_get_float. f_equal. apply APFloat_eqb_eq. exact Chost.
  - destruct (APFloat.semantics f); try discriminate Csem. reflexivity.
  - apply Z.eqb_eq. exact Cbits.
  - apply negb_true_iff. exact Cden.
  - intros Hz. rewrite Hz in Czero. apply APFloat_eqb_eq. exact Czero.
  - intros Hd. rewrite Hd in Cflush. apply APFloat_eqb_eq. exact Cflush.
  - intros Hd. rewrite Hd in Cexact.
    apply andb_true_iff in Cexact. destruct Cexact as [Cexact Cn].
    apply andb_true_iff in Cexact. destruct Cexact as [Ceq Cs].
    split; [| split].
    + apply APFloat_eqb_eq. exact Ceq.
    + apply Bool.eqb_prop. exact Cs.
    + intros Hn. rewrite Hn in Cn.
      apply andb_true_iff in Cn. destruct Cn as [Cn Ce].
      apply andb_true_iff in Cn. destruct Cn as [Cf Cm].
      split; [exact Cf |]. split; apply Z.eqb_eq; assumption.
  - intros Hnan. rewrite Hnan in CNaN.
    apply andb_true_iff in CNaN. destruct CNaN as [CNaN Cpay].
    apply andb_true_iff in CNaN. destruct CNaN as [Ccat Cq].
    split; [| split].
    + destruct (APFloat.category f); try discriminate Ccat. reflexivity.
    + apply negb_true_iff. exact Cq.
    + apply Z.eqb_eq. exact Cpay.
Qed.

Lemma laneSpec_holds (x : Z) : 0 <= x < 65536 -> laneSpec x.
Proof.
  intros Hx. pose proof (laneOK_facts _ _ _ (laneChecks_all x Hx)) as H.
  unfold laneSpec. cbv zeta. tauto.
Qed.

Lemma substitute_facts (g : Module) (pInst : Instruction) (c : Constant) :
  m_changed (substitute g pInst c) = true
  /\ use_empty (m_pModule (substitute g pInst c)) (id pInst) = true.
Proof.
  split; [reflexivity |]. unfold substitute. cbv zeta.
  cbn [m_pModule].
  assert (H : use_empty (replaceAllUsesWith g (id pInst) (VConst c)) (id pInst)
              = true)
    by (apply use_empty_replaceAllUsesWith; reflexivity).
  destruct (isInstructionTriviallyDead _ pInst); [| exact H].
  apply use_empty_eraseFromParent. exact H.
Qed.

Lemma packed_lanes (f0 f1 : APFloat.t) :
  APFloat.semantics f0 = APFloat.IEEEsingle ->
  (APFloat.isZero f0 = true ->
   f0 = APFloat.makeZero APFloat.IEEEsingle (APFloat.sign f0)) ->
  let packed := ConstantVector_get [ConstantFP f0; ConstantFP f1] in
  Constant_getType packed = VectorTy FloatTy 2
  /\ getAggregateElement packed 0 = Some (ConstantFP f0)
  /\ getAggregateElement packed 1 = Some (ConstantFP f1).
Proof.
  intros Hsem Hzero. cbv zeta. unfold ConstantVector_get.
  destruct (isNullValue (ConstantFP f0) && _) eqn:E.
  - apply andb_true_iff in E. destruct E as [Hnull Hall].
    unfold isNullValue in Hnull. apply andb_true_iff in Hnull.
    destruct Hnull as [Hz Hpos]. apply negb_true_iff in Hpos.
    unfold APFloat.isNegative in Hpos.
    cbn [forallb] in Hall. rewrite andb_true_r in Hall.
    apply APFloat_eqb_eq in Hall.
    specialize (Hzero Hz). rewrite Hpos in Hzero.
    subst f1. rewrite Hzero. repeat split.
  - cbn [Constant_getType List.length]. rewrite Hsem. repeat split.
Qed.

(** C2 (as the code has it): the call of the two-lane half-to-float
    unpack builtin on an integer constant, met by the folding loop
    while the 16-bit flush flag is set, is replaced in all its uses by
    a two-lane float vector constant and the changed flag is set.  Its
    lanes come from the low and the high 16 bits of the constant, each
    decoded as a half; a lane whose half is denormal is +0.0, whatever
    the sign of the denormal was; every other lane is the half
    converted to single precision with round-toward-zero, which is
    exact on every number and infinity and gives, for a NaN, the quiet
    NaN of the same sign and payload.  Nothing is flushed after the
    widening. *)
Theorem unpackHalf2x16_folded
        (ConstantFoldInstruction : Instruction -> option Constant)
        (SPIRVTW_16Bit SPIRVTW_32Bit SPIRVTW_64Bit : Z) (ctx : Context)
        (st : PassState) (pInst : Instruction) (bits constVal : Z) :
  use_empty (m_pModule st) (id pInst) = false ->
  opcode pInst = Call ->
  operands pInst = [VConst (ConstantInt bits constVal);
                    VConst (Function "_Z14unpackHalf2x16i")] ->
  isFPOrFPVectorTy (ty pInst) = true ->
  ConstantFoldInstruction pInst = None ->
  Z.land (denormFlushToZero ctx) SPIRVTW_16Bit <> 0 ->
  let lo := Z.land constVal 0xFFFF in
  let hi := Z.land (Z.shiftr constVal 16) 0xFFFF in
  let packed := ConstantVector_get [ConstantFP (laneOf lo); ConstantFP (laneOf hi)] in
  let st' := substitute (m_pModule st) pInst packed in
  foldInstruction ConstantFoldInstruction
                  SPIRVTW_16Bit SPIRVTW_32Bit SPIRVTW_64Bit ctx st pInst
  = Some st'
  /\ m_changed st' = true
  /\ use_empty (m_pModule st') (id pInst) = true
  /\ Constant_getType packed = VectorTy FloatTy 2
  /\ getAggregateElement packed 0 = Some (ConstantFP (laneOf lo))
  /\ getAggregateElement packed 1 = Some (ConstantFP (laneOf hi))
  /\ laneSpec lo /\ laneSpec hi.
Proof.
  intros Huse Hop Hops Hty Hfold Hflag. cbv zeta.
  pose proof (low16_range constVal) as Rlo.
  pose proof (low16_range (Z.shiftr constVal 16)) as Rhi.
  pose proof (laneOK_facts _ _ _ (laneChecks_all _ Rlo)) as Flo.
  pose proof (laneOK_facts _ _ _ (laneChecks_all _ Rhi)) as Fhi.
  assert (Hstep :
            foldInstruction ConstantFoldInstruction
                            SPIRVTW_16Bit SPIRVTW_32Bit SPIRVTW_64Bit ctx st pInst
            = Some (substitute (m_pModule st) pInst
                (ConstantVector_get
                   [ConstantFP (laneOf (Z.land constVal 0xFFFF));
                    ConstantFP (laneOf (Z.land (Z.shiftr constVal 16) 0xFFFF))]))).
  { unfold foldInstruction, isInstructionTriviallyDead, getOperand,
      getCalledFunction.
    rewrite Huse, Hty, Hops, Hfold, Hop. cbn [andb orb negb List.length Nat.eqb
      nth_error last].
    destruct (Z.eqb_spec (Z.land (denormFlushToZero ctx) SPIRVTW_16Bit) 0)
      as [E | _]; [contradiction |].
    cbn [negb bind]. rewrite String.eqb_refl.
    f_equal. f_equal.
    transitivity
      (ConstantVector_get
         [ ConstantFP_get FloatTy
             (convertToFloat (laneOf (Z.land constVal 0xFFFF)));
           ConstantFP_get FloatTy
             (convertToFloat (laneOf (Z.land (Z.shiftr constVal 16) 0xFFFF))) ]);
      [reflexivity |].
    destruct Flo as [-> _]. destruct Fhi as [-> _]. reflexivity. }
  destruct (substitute_facts (m_pModule st) pInst
              (ConstantVector_get
                 [ConstantFP (laneOf (Z.land constVal 0xFFFF));
                  ConstantFP (laneOf (Z.land (Z.shiftr constVal 16) 0xFFFF))]))
    as [Hch Hue].
  destruct (packed_lanes (laneOf (Z.land constVal 0xFFFF))
                         (laneOf (Z.land (Z.shiftr constVal 16) 0xFFFF)))
    as [Pt [P0 P1]]; [apply Flo | apply Flo |].
  split; [exact Hstep |]. split; [exact Hch |]. split; [exact Hue |].
  split; [exact Pt |]. split; [exact P0 |]. split; [exact P1 |].
  split; [exact (laneSpec_holds _ Rlo) | exact (laneSpec_holds _ Rhi)].
Qed.

Lemma denormal_not_normal (v : APFloat.t) :
  APFloat.isDenormal v = true ->
  isFiniteNonZeroFP (ConstantFP v) = true /\ isNormalFP (ConstantFP v) = false.
Proof.
  intros Hd. unfold isFiniteNonZeroFP, isNormalFP, allElementsFP, APFloat.isNormal.
  rewrite Hd. unfold APFloat.isDenormal in Hd.
  apply andb_true_iff in Hd. destruct Hd as [Hd _].
  apply andb_true_iff in Hd. destruct Hd as [Hf _].
  rewrite Hf. split; reflexivity.
Qed.

Lemma flushFolded_scalar
      (SPIRVTW_16Bit SPIRVTW_32Bit SPIRVTW_64Bit : Z) (ctx : Context)
      (sem : APFloat.fltSemantics) (v : APFloat.t) :
  APFloat.isDenormal v = true ->
  Z.land (denormFlushToZero ctx)
         (widthBit SPIRVTW_16Bit SPIRVTW_32Bit SPIRVTW_64Bit sem) <> 0 ->
  flushFolded SPIRVTW_16Bit SPIRVTW_32Bit SPIRVTW_64Bit ctx
              (typeOfSemantics sem) (ConstantFP v)
  = ConstantFP (APFloat.makeZero sem false).
Proof.
  intros Hd Hflag. destruct (denormal_not_normal v Hd) as [Hf Hn].
  unfold flushFolded. rewrite Hf, Hn.
  apply Z.eqb_neq in Hflag.
  destruct sem; cbn [widthBit] in Hflag;
    cbn [typeOfSemantics isHalfTy isFloatTy isDoubleTy andb orb];
    rewrite Hflag; cbn [andb orb negb]; try rewrite orb_true_r; reflexivity.
Qed.

(** C1 (as the code has it): an instruction of a scalar floating type
    that has a use, whose first operand is a constant and which folds
    to a denormal of its format while the flush flag of that format is
    set, is replaced in all its uses by +0.0 of its type, whatever the
    sign of the denormal was, and the changed flag is set. *)
Theorem folded_denormal_flushed
        (ConstantFoldInstruction : Instruction -> option Constant)
        (SPIRVTW_16Bit SPIRVTW_32Bit SPIRVTW_64Bit : Z) (ctx : Context)
        (st : PassState) (pInst : Instruction)
        (sem : APFloat.fltSemantics) (v : APFloat.t)
        (c : Constant) (rest : list Value) :
  use_empty (m_pModule st) (id pInst) = false ->
  operands pInst = VConst c :: rest ->
  ty pInst = typeOfSemantics sem ->
  ConstantFoldInstruction pInst = Some (ConstantFP v) ->
  APFloat.isDenormal v = true ->
  Z.land (denormFlushToZero ctx)
         (widthBit SPIRVTW_16Bit SPIRVTW_32Bit SPIRVTW_64Bit sem) <> 0 ->
  let zero := ConstantFP (APFloat.makeZero sem false) in
  let st' := substitute (m_pModule st) pInst zero in
  flushFolded SPIRVTW_16Bit SPIRVTW_32Bit SPIRVTW_64Bit ctx
              (ty pInst) (ConstantFP v) = zero
  /\ foldInstruction ConstantFoldInstruction
                     SPIRVTW_16Bit SPIRVTW_32Bit SPIRVTW_64Bit ctx st pInst
     = Some st'
  /\ m_changed st' = true
  /\ use_empty (m_pModule st') (id pInst) = true.
Proof.
  intros Huse Hops Hty Hfold Hd Hflag. cbv zeta.
  pose proof (flushFolded_scalar _ _ _ ctx sem v Hd Hflag) as Hz.
  assert (Hstep :
            foldInstruction ConstantFoldInstruction
                            SPIRVTW_16Bit SPIRVTW_32Bit SPIRVTW_64Bit ctx st pInst
            = Some (substitute (m_pModule st) pInst
                               (ConstantFP (APFloat.makeZero sem false)))).
  { unfold foldInstruction, isInstructionTriviallyDead, getOperand.
    rewrite Huse, Hops, Hfold, Hty, Hz.
    cbn [andb orb negb List.length Nat.eqb nth_error].
    destruct sem; reflexivity. }
  rewrite Hty, Hz.
  destruct (substitute_facts (m_pModule st) pInst
              (ConstantFP (APFloat.makeZero sem false))) as [Hch Hue].
  split; [reflexivity |]. split; [exact Hstep |]. split; assumption.
Qed.

(** ** The changed flag *)

(** The three outcomes of the body of the folding loop, when it has
    one: nothing, the instruction erased as dead, or its uses replaced
    by a constant. *)
Lemma foldInstruction_cases
      (ConstantFoldInstruction : Instruction -> option Constant)
      (SPIRVTW_16Bit SPIRVTW_32Bit SPIRVTW_64Bit : Z) (ctx : Context)
      (st st' : PassState) (pInst : Instruction) :
  foldInstruction ConstantFoldInstruction
                  SPIRVTW_16Bit SPIRVTW_32Bit SPIRVTW_64Bit ctx st pInst
  = Some st' ->
  st' = st
  \/ (isInstructionTriviallyDead (m_pModule st) pInst = true
      /\ st' = mkState (eraseFromParent (m_pModule st) (id pInst)) true)
  \/ (exists c, st' = substitute (m_pModule st) pInst c).
Proof.
  unfold foldInstruction.
  destruct (isInstructionTriviallyDead (m_pModule st) pInst) eqn:Hdead.
  - intros H. injection H as <-. right. left. auto.
  - destruct (_ || _); [intros H; injection H as <-; now left |].
    destruct (ConstantFoldInstruction pInst) as [pConst |];
      [intros H; injection H as <-; right; right; eauto |].
    destruct (opcode pInst); try (intros H; injection H as <-; now left).
    destruct (negb _); [| intros H; injection H as <-; now left].
    destruct (getCalledFunction pInst) as [name |]; [| discriminate].
    cbn [bind].
    destruct (String.eqb name _); [| intros H; injection H as <-; now left].
    destruct (getOperand pInst 0) as [[[] | |] |];
      intros H; injection H as <-; (now left) || (right; right; eauto).
Qed.

Lemma foldInstruction_changed
      (ConstantFoldInstruction : Instruction -> option Constant)
      (SPIRVTW_16Bit SPIRVTW_32Bit SPIRVTW_64Bit : Z) (ctx : Context)
      (st st' : PassState) (pInst : Instruction) :
  foldInstruction ConstantFoldInstruction
                  SPIRVTW_16Bit SPIRVTW_32Bit SPIRVTW_64Bit ctx st pInst
  = Some st' ->
  st' = st \/ m_changed st' = true.
Proof.
  intros H.
  destruct (foldInstruction_cases _ _ _ _ _ _ _ _ H)
    as [-> | [[_ ->] | [c ->]]]; auto.
Qed.

Lemma rewriteBinaryOperator_changed
      (mangleBuiltin : string -> list Ty -> string) (ctx : Context)
      (st : PassState) (binaryOp : Instruction) :
  let st' := rewriteBinaryOperator mangleBuiltin ctx st binaryOp in
  st' = st \/ m_changed st' = true.
Proof.
  cbv zeta. unfold rewriteBinaryOperator.
  destruct (identityOperand ctx (opcode binaryOp) _ _) as [d |].
  - right. destruct (opcode binaryOp) as [[] | | | |]; reflexivity.
  - destruct (opcode binaryOp) as [[] | | | |]; try (now left).
    destruct (getOperand binaryOp 0); [| now left].
    destruct (getOperand binaryOp 1); [now right | now left].
Qed.

(** Once set, the flag stays set across an instruction of either loop. *)
Lemma foldInstruction_monotone
      (ConstantFoldInstruction : Instruction -> option Constant)
      (SPIRVTW_16Bit SPIRVTW_32Bit SPIRVTW_64Bit : Z) (ctx : Context)
      (st st' : PassState) (pInst : Instruction) :
  foldInstruction ConstantFoldInstruction
                  SPIRVTW_16Bit SPIRVTW_32Bit SPIRVTW_64Bit ctx st pInst
  = Some st' ->
  m_changed st = true -> m_changed st' = true.
Proof.
  intros H Hc.
  destruct (foldInstruction_changed _ _ _ _ _ _ _ _ H) as [-> | E];
    assumption.
Qed.

Lemma visitBinaryOperator_monotone
      (mangleBuiltin : string -> list Ty -> string) (ctx : Context)
      (st st' : PassState) (binaryOp : Instruction) :
  visitBinaryOperator mangleBuiltin ctx st binaryOp = Some st' ->
  m_changed st = true -> m_changed st' = true.
Proof.
  unfold visitBinaryOperator.
  destruct (normalizeContract (m_pModule st) binaryOp) as [g1 |];
    [| discriminate].
  simpl. intros H Hc. injection H as <-.
  destruct (rewriteBinaryOperator_changed mangleBuiltin ctx
              (mkState g1 (m_changed st)) binaryOp) as [-> | E];
    assumption.
Qed.

(** ** The visit of a module laid out with its definitions before their uses *)

Lemma lookup_app_in (D X : Module) (n : nat) :
  In n (map id D) -> lookup (D ++ X) n = lookup D n.
Proof.
  unfold lookup. induction D as [| i D IH]; [contradiction |].
  simpl. destruct (Nat.eqb_spec (id i) n) as [E | N]; [reflexivity |].
  intros [E | Hin]; [contradiction | exact (IH Hin)].
Qed.

Lemma lookup_app_notin (D X : Module) (n : nat) :
  ~ In n (map id D) -> lookup (D ++ X) n = lookup X n.
Proof.
  unfold lookup. induction D as [| i D IH]; [reflexivity |].
  simpl. intros Hn. destruct (Nat.eqb_spec (id i) n) as [E | N].
  - exfalso. apply Hn. now left.
  - apply IH. intros H. apply Hn. now right.
Qed.

Lemma lookup_here (D T : Module) (i : Instruction) :
  ~ In (id i) (map id D) -> lookup (D ++ i :: T) (id i) = Some i.
Proof.
  intros Hn. rewrite lookup_app_notin by exact Hn.
  unfold lookup. simpl. now rewrite Nat.eqb_refl.
Qed.

Lemma lookup_member (g : Module) (x : Instruction) :
  NoDup (map id g) -> In x g -> lookup g (id x) = Some x.
Proof.
  induction g as [| i g IH]; [contradiction |].
  simpl. intros Hnd [-> | Hin].
  - unfold lookup. simpl. now rewrite Nat.eqb_refl.
  - inversion Hnd as [| ? ? Hni Hnd']. subst.
    unfold lookup. simpl. destruct (Nat.eqb_spec (id i) (id x)) as [E | N].
    + exfalso. apply Hni. rewrite E. now apply in_map.
    + exact (IH Hnd' Hin).
Qed.

Lemma setOperands_same (x : Instruction) : setOperands x (operands x) = x.
Proof. destruct x. reflexivity. Qed.

Lemma setFlags_same (x : Instruction) : setFlags x (SubclassOptionalData x) = x.
Proof. destruct x. reflexivity. Qed.

Lemma replace_noUse (n : nat) (v : Value) (ops : list Value) :
  ~ In (VInst n) ops ->
  map (fun o => if isUseOf n o then v else o) ops = ops.
Proof.
  induction ops as [| o ops IH]; [reflexivity |].
  simpl. intros Hn. rewrite IH by tauto.
  destruct o as [c | m | a t]; try reflexivity.
  simpl. destruct (Nat.eqb_spec m n) as [-> | N]; [| reflexivity].
  exfalso. apply Hn. now left.
Qed.

Lemma replaceAllUsesWith_noUse (D : Module) (n : nat) (v : Value) :
  (forall x, In x D -> ~ In (VInst n) (operands x)) ->
  replaceAllUsesWith D n v = D.
Proof.
  induction D as [| i D IH]; [reflexivity |].
  intros H. simpl. rewrite replace_noUse by (apply H; now left).
  rewrite setOperands_same. f_equal. apply IH.
  intros x Hx. apply H. now right.
Qed.

Lemma replaceAllUsesWith_ids (g : Module) (n : nat) (v : Value) :
  map id (replaceAllUsesWith g n v) = map id g.
Proof.
  unfold replaceAllUsesWith. rewrite map_map. reflexivity.
Qed.

Lemma eraseFromParent_notin (D : Module) (n : nat) :
  ~ In n (map id D) -> eraseFromParent D n = D.
Proof.
  induction D as [| i D IH]; [reflexivity |].
  simpl. intros Hn. destruct (Nat.eqb_spec (id i) n) as [E | N].
  - exfalso. apply Hn. now left.
  - simpl. f_equal. apply IH. tauto.
Qed.

Lemma eraseFromParent_here (D T : Module) (i : Instruction) :
  NoDup (map id (D ++ i :: T)) ->
  eraseFromParent (D ++ i :: T) (id i) = D ++ T.
Proof.
  intros Hnd. rewrite map_app in Hnd. simpl in Hnd.
  pose proof (NoDup_remove_2 _ _ _ Hnd) as Hni.
  unfold eraseFromParent. rewrite filter_app. simpl.
  rewrite Nat.eqb_refl. simpl.
  fold (eraseFromParent D (id i)). fold (eraseFromParent T (id i)).
  rewrite !eraseFromParent_notin; [reflexivity | |];
    intros H; apply Hni; apply in_or_app; auto.
Qed.

Lemma copyFastMathFlags_notin (D : Module) (n : nat) (F : Z) :
  ~ In n (map id D) -> copyFastMathFlags D n F = D.
Proof.
  induction D as [| i D IH]; [reflexivity |].
  simpl. intros Hn. destruct (Nat.eqb_spec (id i) n) as [E | N].
  - exfalso. apply Hn. now left.
  - f_equal. apply IH. tauto.
Qed.

Lemma copyFastMathFlags_here (D T : Module) (i : Instruction) (F : Z) :
  NoDup (map id (D ++ i :: T)) ->
  copyFastMathFlags (D ++ i :: T) (id i) F = D ++ setFlags i F :: T.
Proof.
  intros Hnd. rewrite map_app in Hnd. simpl in Hnd.
  pose proof (NoDup_remove_2 _ _ _ Hnd) as Hni.
  unfold copyFastMathFlags. rewrite map_app. simpl. rewrite Nat.eqb_refl.
  fold (copyFastMathFlags D (id i) F). fold (copyFastMathFlags T (id i) F).
  rewrite !copyFastMathFlags_notin; [reflexivity | |];
    intros H; apply Hni; apply in_or_app; auto.
Qed.

Lemma insertBefore_here (D T : Module) (i new : Instruction) :
  ~ In (id i) (map id D) ->
  insertBefore (D ++ i :: T) (id i) new = D ++ new :: i :: T.
Proof.
  induction D as [| j D IH]; simpl; intros Hn.
  - now rewrite Nat.eqb_refl.
  - destruct (Nat.eqb_spec (id j) (id i)) as [E | N].
    + exfalso. apply Hn. now left.
    + f_equal. apply IH. tauto.
Qed.

Lemma definedBeforeUse_incl (T : Module) :
  forall B B', definedBeforeUse B T -> incl B B' -> definedBeforeUse B' T.
Proof.
  induction T as [| i T IH]; intros B B' H Hincl; [exact I |].
  destruct H as [Hrefs Hrest]. split.
  - intros m Hm. apply Hincl, Hrefs, Hm.
  - apply (IH (B ++ [id i])); [exact Hrest |].
    apply incl_app_app; [exact Hincl | apply incl_refl].
Qed.

Lemma definedBeforeUse_app (D T : Module) :
  forall B,
    definedBeforeUse B (D ++ T) <->
    definedBeforeUse B D /\ definedBeforeUse (B ++ map id D) T.
Proof.
  induction D as [| i D IH]; intros B; simpl.
  - rewrite app_nil_r. tauto.
  - rewrite IH. rewrite <- app_assoc. simpl. tauto.
Qed.

Lemma definedBeforeUse_refs (D : Module) :
  forall B x m,
    definedBeforeUse B D -> In x D -> In (VInst m) (operands x) ->
    In m (B ++ map id D).
Proof.
  induction D as [| i D IH]; intros B x m H Hx Hm; [contradiction |].
  destruct H as [Hrefs Hrest]. destruct Hx as [-> | Hx].
  - apply in_or_app. left. apply Hrefs, Hm.
  - specialize (IH _ _ _ Hrest Hx Hm). rewrite <- app_assoc in IH. exact IH.
Qed.

Lemma definedBeforeUse_replace (T : Module) (n : nat) (v : Value) :
  forall B B',
    definedBeforeUse B T ->
    (forall m, In m B -> m <> n -> In m B') ->
    (forall m, v = VInst m -> In m B') ->
    definedBeforeUse B' (replaceAllUsesWith T n v).
Proof.
  induction T as [| i T IH]; intros B B' H Hkeep Hv; [exact I |].
  destruct H as [Hrefs Hrest]. simpl. split.
  - intros m Hm. apply in_map_iff in Hm. destruct Hm as [o [Ho Hin]].
    destruct (isUseOf n o) eqn:E.
    + apply Hv. exact Ho.
    + subst o. apply Hkeep; [apply Hrefs, Hin |].
      intros ->. simpl in E. rewrite Nat.eqb_refl in E. discriminate.
  - apply (IH (B ++ [id i])); [exact Hrest | |].
    + intros m Hm Hne. apply in_app_or in Hm. apply in_or_app.
      destruct Hm as [Hm | Hm]; [left; now apply Hkeep | now right].
    + intros m Hm. apply in_or_app. left. now apply Hv.
Qed.

(** Two modules that agree on the instructions [B], which refer to each
    other only, give the query the same answers there. *)
Lemma IsOperandNoContract_agree (g g' : Module) (B : list nat) :
  (forall n, In n B -> lookup g n = lookup g' n) ->
  (forall n i m, In n B -> lookup g n = Some i ->
                 In (VInst m) (operands i) -> In m B) ->
  forall fuel v,
    (forall m, v = VInst m -> In m B) ->
    IsOperandNoContract fuel g v = IsOperandNoContract fuel g' v.
Proof.
  intros Hsame Hclosed. induction fuel as [| fuel IH]; intros v Hv;
    [reflexivity |].
  simpl. destruct v as [c | n | a t]; try reflexivity.
  specialize (Hv n eq_refl). rewrite <- (Hsame n Hv).
  destruct (lookup g n) as [i |] eqn:Hl; [| reflexivity].
  destruct (isBinaryOperator i); [| reflexivity].
  destruct (isFPMathOperator i && _); [reflexivity |].
  destruct (operands i) as [| o r] eqn:Hops; [reflexivity |].
  apply IH. intros m ->. apply (Hclosed n i m Hv Hl).
  rewrite Hops. now left.
Qed.

Lemma lookup_none (g : Module) (n : nat) :
  ~ In n (map id g) -> lookup g n = None.
Proof.
  intros Hn. destruct (lookup g n) as [i |] eqn:Hl; [| reflexivity].
  exfalso. apply Hn. destruct (lookup_In _ _ _ Hl) as [Hin <-].
  now apply in_map.
Qed.

Lemma definedBeforeUse_Acc_prefix (g : Module) :
  forall T D,
    g = D ++ T ->
    NoDup (map id g) ->
    definedBeforeUse (map id D) T ->
    (forall m, In m (map id D) -> Acc (firstOperandOf g) (VInst m)) ->
    forall m, In m (map id g) -> Acc (firstOperandOf g) (VInst m).
Proof.
  induction T as [| i T IH]; intros D Hg Hnd Hdbu Hacc m Hm.
  - rewrite app_nil_r in Hg. subst g. now apply Hacc.
  - destruct Hdbu as [Hrefs Hrest].
    apply (IH (D ++ [i])); try assumption.
    + rewrite <- app_assoc. exact Hg.
    + rewrite map_app. exact Hrest.
    + intros k Hk. rewrite map_app in Hk. apply in_app_or in Hk.
      destruct Hk as [Hk | [<- | []]]; [now apply Hacc |].
      constructor. intros o [x [Hd Hh]].
      apply definingBinaryOperator_inv in Hd. destruct Hd as [Hv [Hl _]].
      injection Hv as Hid. rewrite <- Hid in Hl.
      assert (Hni : ~ In (id i) (map id D)).
      { rewrite Hg, map_app in Hnd. simpl in Hnd.
        pose proof (NoDup_remove_2 _ _ _ Hnd) as H.
        intros Hin. apply H. apply in_or_app. now left. }
      rewrite Hg, (lookup_here D T i Hni) in Hl. injection Hl as <-.
      destruct o as [c | k | a t]; try (apply Acc_not_binary; reflexivity).
      apply Hacc, Hrefs.
      destruct (operands i) as [| o r]; [discriminate |].
      injection Hh as ->. now left.
Qed.

Lemma definedBeforeUse_Acc (g : Module) (v : Value) :
  NoDup (map id g) -> definedBeforeUse [] g -> Acc (firstOperandOf g) v.
Proof.
  intros Hnd Hdbu.
  destruct v as [c | m | a t]; try (apply Acc_not_binary; reflexivity).
  destruct (in_dec Nat.eq_dec m (map id g)) as [Hin | Hnotin].
  - apply (definedBeforeUse_Acc_prefix g g []); auto. intros k [].
  - apply Acc_not_binary. simpl. now rewrite lookup_none.
Qed.



Lemma operand_In (x : Instruction) (v : Value) :
  getOperand x 0 = Some v \/ getOperand x 1 = Some v -> In v (operands x).
Proof.
  unfold getOperand. intros [H | H]; eapply nth_error_In; exact H.
Qed.

Lemma operandNoContract_answers (g : Module) (o : option Value) (b : bool) :
  operandNoContract g o = Some b ->
  forall v, o = Some v -> Answers g v b.
Proof.
  intros H v ->. now exists (chainFuel g).
Qed.

(** The two outcomes of the flag step on an instruction whose operand
    chains have no cycle. *)
Lemma normalizeContract_cases (g : Module) (x : Instruction) :
  (forall v, In v (operands x) -> Acc (firstOperandOf g) v) ->
  (opcode_is FAdd (opcode x)
   && FastMathFlags.allowContract (SubclassOptionalData x) = false
   /\ normalizeContract g x = Some g)
  \/ (opcode_is FAdd (opcode x)
      && FastMathFlags.allowContract (SubclassOptionalData x) = true
      /\ exists h,
          normalizeContract g x
          = Some (copyFastMathFlags g (id x)
                    (contractFlags (SubclassOptionalData x) h))
          /\ (h = true ->
              exists v, (getOperand x 0 = Some v \/ getOperand x 1 = Some v)
                        /\ Answers g v true)
          /\ (h = false ->
              forall v, getOperand x 0 = Some v \/ getOperand x 1 = Some v ->
                        Answers g v false)).
Proof.
  intros Hacc. unfold normalizeContract.
  destruct (opcode_is FAdd (opcode x)
            && FastMathFlags.allowContract (SubclassOptionalData x));
    [right | left; auto].
  split; [reflexivity |].
  destruct (operandNoContract_total g (getOperand x 0)) as [n1 [H1 _]].
  { intros v Hv. apply Hacc, operand_In. now left. }
  destruct (operandNoContract_total g (getOperand x 1)) as [n2 [H2 _]].
  { intros v Hv. apply Hacc, operand_In. now right. }
  rewrite H1. simpl. destruct n1; simpl.
  - exists true. split; [reflexivity |]. split; [| discriminate].
    intros _. destruct (getOperand x 0) as [v |] eqn:E; [| discriminate].
    exists v. split; [now left |].
    exact (operandNoContract_answers g (Some v) true H1 v eq_refl).
  - rewrite H2. simpl. exists n2. split; [reflexivity |]. split.
    + intros ->. destruct (getOperand x 1) as [v |] eqn:E; [| discriminate].
      exists v. split; [now right |].
      exact (operandNoContract_answers g (Some v) true H2 v eq_refl).
    + intros -> v [Hv | Hv].
      * exact (operandNoContract_answers g _ false H1 v Hv).
      * exact (operandNoContract_answers g _ false H2 v Hv).
Qed.

Lemma identityOperand_operand (ctx : Context) (opCode : Opcode)
      (pSrc1 pSrc2 : option Value) (d : Value) :
  identityOperand ctx opCode pSrc1 pSrc2 = Some d ->
  pSrc1 = Some d \/ pSrc2 = Some d.
Proof.
  unfold identityOperand. destruct (_ && _); [| discriminate].
  destruct opCode as [[] | | | |]; try discriminate;
    destruct (isConstZero pSrc1), (isConstZero pSrc2); simpl;
    try discriminate; auto.
Qed.

(** The three outcomes of the rewriting step. *)
Lemma rewriteBinaryOperator_cases
      (mangleBuiltin : string -> list Ty -> string) (ctx : Context)
      (st : PassState) (x : Instruction) :
  let g := m_pModule st in
  let pDest := identityOperand ctx (opcode x) (getOperand x 0) (getOperand x 1) in
  (exists d,
      pDest = Some d
      /\ rewriteBinaryOperator mangleBuiltin ctx st x
         = mkState (eraseFromParent (replaceAllUsesWith g (id x) d) (id x)) true)
  \/ (pDest = None
      /\ exists a b,
          opcode x = BinaryOp FDiv
          /\ getOperand x 0 = Some a /\ getOperand x 1 = Some b
          /\ rewriteBinaryOperator mangleBuiltin ctx st x
             = mkState
                 (eraseFromParent
                    (replaceAllUsesWith
                       (insertBefore g (id x) (fdivCall mangleBuiltin g x a b))
                       (id x) (VInst (freshId g)))
                    (id x))
                 true)
  \/ (pDest = None
      /\ (opcode x = BinaryOp FDiv ->
          getOperand x 0 = None \/ getOperand x 1 = None)
      /\ rewriteBinaryOperator mangleBuiltin ctx st x = st).
Proof.
  cbv zeta. unfold rewriteBinaryOperator.
  destruct (identityOperand ctx (opcode x) (getOperand x 0) (getOperand x 1))
    as [d |] eqn:Hid.
  - left. exists d. split; [reflexivity |].
    destruct (opcode x) as [[] | | | |]; reflexivity.
  - right.
    destruct (opcode x) as [[] | | | |] eqn:Hop;
      try (right; split; [reflexivity |]; split; [discriminate | reflexivity]).
    destruct (getOperand x 0) as [a |] eqn:H0;
      [| right; split; [reflexivity |]; split; [now left | reflexivity]].
    destruct (getOperand x 1) as [b |] eqn:H1;
      [| right; split; [reflexivity |]; split; [now right | reflexivity]].
    left. split; [reflexivity |]. exists a, b. repeat split.
Qed.



Lemma Answers_prefix (D X Y : Module) (v : Value) (b : bool) :
  definedBeforeUse [] D ->
  (forall m, v = VInst m -> In m (map id D)) ->
  Answers (D ++ X) v b -> Answers (D ++ Y) v b.
Proof.
  intros Hdbu Hv [fuel H]. exists fuel. rewrite <- H. symmetry.
  apply (IsOperandNoContract_agree (D ++ X) (D ++ Y) (map id D)).
  - intros n Hn. now rewrite !lookup_app_in.
  - intros n i m Hn Hl Hm. rewrite lookup_app_in in Hl by exact Hn.
    destruct (lookup_In _ _ _ Hl) as [Hin _].
    exact (definedBeforeUse_refs D [] i m Hdbu Hin Hm).
  - exact Hv.
Qed.

Lemma settled_extend (ctx : Context) (D E : Module) (x : Instruction) :
  definedBeforeUse [] D -> In x D ->
  settled ctx D x -> settled ctx (D ++ E) x.
Proof.
  intros Hdbu Hin Hs Hbin. destruct (Hs Hbin) as [Hflags Hrest].
  split; [| exact Hrest].
  intros Hc. destruct (Hflags Hc) as [Hre Hans]. split; [exact Hre |].
  intros v Hv. specialize (Hans v Hv).
  rewrite <- (app_nil_r D) in Hans.
  apply (Answers_prefix D [] E v false Hdbu); [| exact Hans].
  intros m ->.
  exact (definedBeforeUse_refs D [] x m Hdbu Hin (operand_In x _ Hv)).
Qed.

Lemma NoDup_insert (A B : list nat) (f : nat) :
  NoDup (A ++ B) -> ~ In f (A ++ B) -> NoDup (A ++ f :: B).
Proof.
  intros Hnd Hf. apply (NoDup_Add (Add_app f A B)). auto.
Qed.

(** The flag step on the instruction that is met: the module past it
    and before it stays, the instruction gets flags that are settled. *)
Lemma normalizeContract_here (D T : Module) (i : Instruction) :
  NoDup (map id (D ++ i :: T)) ->
  definedBeforeUse [] (D ++ i :: T) ->
  exists F1,
    normalizeContract (D ++ i :: T) i = Some (D ++ setFlags i F1 :: T)
    /\ (opcode_is FAdd (opcode i) && FastMathFlags.allowContract F1 = true ->
        FastMathFlags.allowReassoc F1 = true
        /\ forall v, getOperand i 0 = Some v \/ getOperand i 1 = Some v ->
                     Answers (D ++ i :: T) v false).
Proof.
  intros Hnd Hdbu.
  destruct (normalizeContract_cases (D ++ i :: T) i)
    as [[E H] | [E [h [H [_ Hf]]]]].
  - intros v _. now apply definedBeforeUse_Acc.
  - exists (SubclassOptionalData i). rewrite setFlags_same.
    split; [exact H |]. intros E'. congruence.
  - exists (contractFlags (SubclassOptionalData i) h).
    rewrite copyFastMathFlags_here in H by exact Hnd.
    split; [exact H |]. intros E'.
    apply andb_true_iff in E'. destruct E' as [_ E'].
    rewrite allowContract_testbit, contractFlags_testbit in E' by lia.
    simpl in E'. apply negb_true_iff in E'. subst h.
    split; [| now apply Hf].
    rewrite allowReassoc_testbit, contractFlags_testbit by lia. reflexivity.
Qed.

(** One instruction of the visit: what was settled stays settled, and
    the instruction is gone, replaced by a call, or settled itself. *)
Lemma visit_step
      (mangleBuiltin : string -> list Ty -> string) (ctx : Context)
      (D T : Module) (i : Instruction) (c : bool) :
  NoDup (map id (D ++ i :: T)) ->
  definedBeforeUse [] (D ++ i :: T) ->
  (forall x, In x D -> settled ctx D x) ->
  exists D1 T1 c1,
    visitBinaryOperator mangleBuiltin ctx (mkState (D ++ i :: T) c) i
    = Some (mkState (D1 ++ T1) c1)
    /\ map id T1 = map id T
    /\ NoDup (map id (D1 ++ T1))
    /\ definedBeforeUse [] (D1 ++ T1)
    /\ (forall x, In x D1 -> settled ctx D1 x).
Proof.
  intros Hnd Hdbu Hset.
  pose proof Hdbu as Hdbu0.
  apply definedBeforeUse_app in Hdbu. destruct Hdbu as [HdD [Hrefs HdT]].
  simpl in Hrefs, HdT.
  pose proof Hnd as Hnd0. rewrite map_app in Hnd. simpl in Hnd.
  pose proof (NoDup_remove_1 _ _ _ Hnd) as HndDT.
  pose proof (NoDup_remove_2 _ _ _ Hnd) as Hni.
  assert (HniD : ~ In (id i) (map id D))
    by (intros H; apply Hni, in_or_app; now left).
  assert (HnoUse : forall x, In x D -> ~ In (VInst (id i)) (operands x)).
  { intros x Hx Hu. apply HniD.
    exact (definedBeforeUse_refs D [] x (id i) HdD Hx Hu). }
  assert (Hoperand : forall v m,
             getOperand i 0 = Some v \/ getOperand i 1 = Some v ->
             v = VInst m -> In m (map id D)).
  { intros v m Hv ->. apply Hrefs. exact (operand_In i _ Hv). }
  destruct (normalizeContract_here D T i Hnd0 Hdbu0) as [F1 [Hn HF1]].
  set (i1 := setFlags i F1) in *.
  unfold visitBinaryOperator. cbn [m_pModule m_changed]. rewrite Hn.
  cbn [bind].
  destruct (rewriteBinaryOperator_cases mangleBuiltin ctx
              (mkState (D ++ i1 :: T) c) i)
    as [[d [Hd Hr]] | [[Hd [a [b [Hop [Ha [Hb Hr]]]]]] | [Hd [Hdiv Hr]]]];
    cbn [m_pModule] in Hr; rewrite Hr; clear Hr.
  - (* an identity: the instruction goes *)
    assert (Hdref : forall m, d = VInst m -> In m (map id D)).
    { intros m Hm. apply (Hoperand d m); [| exact Hm].
      exact (identityOperand_operand _ _ _ _ _ Hd). }
    exists D, (replaceAllUsesWith T (id i) d), true.
    assert (Hmod :
              eraseFromParent
                (replaceAllUsesWith (D ++ i1 :: T) (id i) d) (id i)
              = D ++ replaceAllUsesWith T (id i) d).
    { unfold replaceAllUsesWith at 1. rewrite map_app. cbn [map].
      fold (replaceAllUsesWith D (id i) d).
      fold (replaceAllUsesWith T (id i) d).
      rewrite (replaceAllUsesWith_noUse D _ _ HnoUse).
      match goal with
      | |- eraseFromParent (D ++ ?j :: _) _ = _ =>
          apply (eraseFromParent_here D (replaceAllUsesWith T (id i) d) j)
      end.
      rewrite map_app. cbn [map]. rewrite replaceAllUsesWith_ids. exact Hnd. }
    rewrite Hmod. split; [reflexivity |].
    split; [apply replaceAllUsesWith_ids |].
    split; [rewrite map_app, replaceAllUsesWith_ids; exact HndDT |].
    split; [| exact Hset].
    apply definedBeforeUse_app. split; [exact HdD |]. simpl.
    apply (definedBeforeUse_replace T (id i) d (map id D ++ [id i]));
      [exact HdT | | exact Hdref].
    intros m Hm Hne. apply in_app_or in Hm.
    destruct Hm as [Hm | [Hm | []]]; [exact Hm | congruence].
  - (* a division: the call takes its place *)
    set (g1 := D ++ i1 :: T) in *.
    set (pFDiv := fdivCall mangleBuiltin g1 i a b).
    assert (Hfresh : ~ In (freshId g1) (map id D ++ id i :: map id T)).
    { intros Hin.
      assert (Hin' : In (freshId g1) (map id g1)).
      { unfold g1. rewrite map_app. exact Hin. }
      apply in_map_iff in Hin'. destruct Hin' as [x [Hx Hxin]].
      exact (freshId_fresh g1 x Hxin Hx). }
    assert (Hcallrefs : forall m, In (VInst m) (operands pFDiv) ->
                                  In m (map id D)).
    { intros m Hm. simpl in Hm.
      destruct Hm as [Hm | [Hm | [Hm | []]]]; try discriminate.
      - apply (Hoperand a m); [now left | now symmetry].
      - apply (Hoperand b m); [now right | now symmetry]. }
    exists (D ++ [pFDiv]), (replaceAllUsesWith T (id i) (VInst (freshId g1))), true.
    assert (Hmod :
              eraseFromParent
                (replaceAllUsesWith (insertBefore g1 (id i) pFDiv)
                                    (id i) (VInst (freshId g1))) (id i)
              = (D ++ [pFDiv])
                  ++ replaceAllUsesWith T (id i) (VInst (freshId g1))).
    { pose proof (insertBefore_here D T i1 pFDiv HniD) as Hib.
      change (id i1) with (id i) in Hib. unfold g1 at 1. rewrite Hib.
      unfold replaceAllUsesWith at 1. rewrite map_app. cbn [map].
      fold (replaceAllUsesWith D (id i) (VInst (freshId g1))).
      fold (replaceAllUsesWith T (id i) (VInst (freshId g1))).
      rewrite (replaceAllUsesWith_noUse D _ _ HnoUse).
      rewrite (replace_noUse (id i) _ (operands pFDiv)), setOperands_same
        by (intros Hu; apply HniD; now apply Hcallrefs).
      change (D ++ pFDiv :: ?r) with (D ++ [pFDiv] ++ r).
      rewrite app_assoc.
      match goal with
      | |- eraseFromParent (_ ++ ?j :: _) _ = _ =>
          apply (eraseFromParent_here (D ++ [pFDiv])
                   (replaceAllUsesWith T (id i) (VInst (freshId g1))) j)
      end.
      rewrite !map_app. cbn [map]. rewrite replaceAllUsesWith_ids.
      rewrite <- app_assoc. simpl. apply NoDup_insert; assumption. }
    rewrite Hmod. split; [reflexivity |].
    split; [apply replaceAllUsesWith_ids |].
    split; [| split].
    + rewrite !map_app, replaceAllUsesWith_ids. cbn [map].
      rewrite <- app_assoc. simpl. apply NoDup_insert; [exact HndDT |].
      intros Hin. apply Hfresh. apply in_app_or in Hin. apply in_or_app.
      destruct Hin; [now left | right; now right].
    + apply definedBeforeUse_app. split.
      * apply definedBeforeUse_app. split; [exact HdD |]. simpl.
        split; [exact Hcallrefs | exact I].
      * simpl. rewrite map_app. cbn [map].
        apply (definedBeforeUse_replace T (id i) (VInst (freshId g1))
                 (map id D ++ [id i])); [exact HdT | |].
        -- intros m Hm Hne. apply in_app_or in Hm. apply in_or_app.
           destruct Hm as [Hm | [Hm | []]]; [now left | congruence].
        -- intros m Hm. injection Hm as <-. apply in_or_app. right. now left.
    + intros x Hx. apply in_app_or in Hx. destruct Hx as [Hx | [<- | []]].
      * apply settled_extend; auto.
      * intros Hbin. discriminate.
  - (* neither: the instruction is settled *)
    exists (D ++ [i1]), T, c. rewrite <- app_assoc. simpl.
    split; [reflexivity |]. split; [reflexivity |].
    split; [rewrite map_app; exact Hnd |].
    split.
    + apply definedBeforeUse_app. split; [exact HdD |]. simpl. auto.
    + intros x Hx. apply in_app_or in Hx. destruct Hx as [Hx | [<- | []]].
      * apply settled_extend; auto.
      * intros _. split; [| split; [exact Hd | exact Hdiv]].
        intros E. destruct (HF1 E) as [Hre Hans]. split; [exact Hre |].
        intros v Hv.
        apply (Answers_prefix D (i :: T) [i1] v false HdD);
          [| exact (Hans v Hv)].
        intros m Hm. exact (Hoperand v m Hv Hm).
Qed.

(** The whole visit: from a module laid out with its definitions before
    their uses it leads to a module, laid out so too, in which every
    instruction is settled. *)
Lemma visit_settles
      (mangleBuiltin : string -> list Ty -> string) (ctx : Context) :
  forall ids D T c,
    map id T = ids ->
    NoDup (map id (D ++ T)) ->
    definedBeforeUse [] (D ++ T) ->
    (forall x, In x D -> settled ctx D x) ->
    exists D' c',
      visitInstructions mangleBuiltin ctx ids (mkState (D ++ T) c)
      = Some (mkState D' c')
      /\ NoDup (map id D')
      /\ definedBeforeUse [] D'
      /\ (forall x, In x D' -> settled ctx D' x).
Proof.
  induction ids as [| n ids IH]; intros D T c Hids Hnd Hdbu Hset.
  - apply map_eq_nil in Hids. subst T. rewrite app_nil_r in *.
    exists D, c. auto.
  - destruct T as [| i T]; [discriminate |].
    simpl in Hids. injection Hids as Hid Hids. subst n.
    assert (HniD : ~ In (id i) (map id D)).
    { rewrite map_app in Hnd. simpl in Hnd.
      pose proof (NoDup_remove_2 _ _ _ Hnd) as H.
      intros Hin. apply H, in_or_app. now left. }
    cbn [visitInstructions m_pModule].
    rewrite (lookup_here D T i HniD).
    destruct (isBinaryOperator i) eqn:Hbin.
    + destruct (visit_step mangleBuiltin ctx D T i c Hnd Hdbu Hset)
        as [D1 [T1 [c1 [Hv [Hids1 [Hnd1 [Hdbu1 Hset1]]]]]]].
      rewrite Hv. cbn [bind].
      apply (IH D1 T1 c1); try assumption. congruence.
    + cbn [bind].
      replace (D ++ i :: T) with ((D ++ [i]) ++ T) in *
        by (rewrite <- app_assoc; reflexivity).
      apply (IH (D ++ [i]) T c); try assumption.
      intros x Hx. apply in_app_or in Hx. destruct Hx as [Hx | [<- | []]].
      * apply settled_extend; auto.
        apply definedBeforeUse_app in Hdbu. destruct Hdbu as [Hdbu _].
        apply definedBeforeUse_app in Hdbu. tauto.
      * intros Hb. congruence.
Qed.

(* ================================================================== *)
(** * Further properties of the pass *)
(* ================================================================== *)

(** ** The layout is kept *)

Lemma use_empty_noUse (g : Module) (n : nat) :
  use_empty g n = true ->
  forall x, In x g -> ~ In (VInst n) (operands x).
Proof.
  unfold use_empty. rewrite forallb_forall. intros H x Hx Hu.
  specialize (H x Hx). apply negb_true_iff in H.
  assert (E : existsb (isUseOf n) (operands x) = true).
  { apply existsb_exists. exists (VInst n). split; [exact Hu |].
    simpl. apply Nat.eqb_refl. }
  congruence.
Qed.

Lemma definedBeforeUse_erase (T : Module) (n : nat) :
  forall B B',
    definedBeforeUse B T ->
    (forall x, In x T -> ~ In (VInst n) (operands x)) ->
    (forall m, In m B -> m <> n -> In m B') ->
    definedBeforeUse B' (eraseFromParent T n).
Proof.
  induction T as [| i T IH]; intros B B' H Hno Hkeep; [exact I |].
  destruct H as [Hrefs Hrest]. simpl.
  destruct (Nat.eqb_spec (id i) n) as [E | N]; simpl.
  - apply (IH (B ++ [id i])); [exact Hrest | |].
    + intros x Hx. apply Hno. now right.
    + intros m Hm Hne. apply in_app_or in Hm.
      destruct Hm as [Hm | [Hm | []]]; [now apply Hkeep | congruence].
  - split.
    + intros m Hm. apply Hkeep; [now apply Hrefs |].
      intros ->. exact (Hno i (or_introl eq_refl) Hm).
    + apply (IH (B ++ [id i])); [exact Hrest | |].
      * intros x Hx. apply Hno. now right.
      * intros m Hm Hne. apply in_app_or in Hm. apply in_or_app.
        destruct Hm as [Hm | Hm]; [left; now apply Hkeep | now right].
Qed.

Lemma eraseFromParent_ids (g : Module) (n : nat) :
  map id (eraseFromParent g n) = filter (fun m => negb (Nat.eqb m n)) (map id g).
Proof.
  induction g as [| i g IH]; [reflexivity |]. simpl.
  destruct (Nat.eqb (id i) n); simpl; now rewrite IH.
Qed.

Lemma NoDup_eraseFromParent (g : Module) (n : nat) :
  NoDup (map id g) -> NoDup (map id (eraseFromParent g n)).
Proof.
  intros H. rewrite eraseFromParent_ids. now apply NoDup_filter.
Qed.

Lemma substitute_layout (g : Module) (pInst : Instruction) (c : Constant) :
  NoDup (map id g) -> definedBeforeUse [] g ->
  NoDup (map id (m_pModule (substitute g pInst c)))
  /\ definedBeforeUse [] (m_pModule (substitute g pInst c)).
Proof.
  intros Hnd Hdbu. unfold substitute. cbn [m_pModule].
  assert (Hnd1 : NoDup (map id (replaceAllUsesWith g (id pInst) (VConst c))))
    by (now rewrite replaceAllUsesWith_ids).
  assert (Hdbu1 : definedBeforeUse []
                    (replaceAllUsesWith g (id pInst) (VConst c))).
  { apply (definedBeforeUse_replace g (id pInst) (VConst c) []);
      [exact Hdbu | intros m [] | intros m H; discriminate]. }
  destruct (isInstructionTriviallyDead _ pInst) eqn:E; [| auto].
  split; [now apply NoDup_eraseFromParent |].
  apply (definedBeforeUse_erase _ (id pInst) []); [exact Hdbu1 | | intros m []].
  apply use_empty_noUse.
  apply (use_empty_replaceAllUsesWith g (id pInst) (VConst c)). reflexivity.
Qed.

Lemma foldInstruction_layout
      (ConstantFoldInstruction : Instruction -> option Constant)
      (SPIRVTW_16Bit SPIRVTW_32Bit SPIRVTW_64Bit : Z) (ctx : Context)
      (st st' : PassState) (pInst : Instruction) :
  NoDup (map id (m_pModule st)) -> definedBeforeUse [] (m_pModule st) ->
  foldInstruction ConstantFoldInstruction
                  SPIRVTW_16Bit SPIRVTW_32Bit SPIRVTW_64Bit ctx st pInst
  = Some st' ->
  NoDup (map id (m_pModule st')) /\ definedBeforeUse [] (m_pModule st').
Proof.
  intros Hnd Hdbu H.
  destruct (foldInstruction_cases _ _ _ _ _ _ _ _ H)
    as [-> | [[Hdead ->] | [c ->]]]; [auto | | now apply substitute_layout].
  cbn [m_pModule]. split; [now apply NoDup_eraseFromParent |].
  apply (definedBeforeUse_erase _ (id pInst) []);
    [exact Hdbu | | intros m []].
  apply use_empty_noUse. unfold isInstructionTriviallyDead in Hdead.
  apply andb_true_iff in Hdead. destruct Hdead as [Hdead _].
  apply andb_true_iff in Hdead. tauto.
Qed.

Lemma foldInstructions_layout
      (ConstantFoldInstruction : Instruction -> option Constant)
      (SPIRVTW_16Bit SPIRVTW_32Bit SPIRVTW_64Bit : Z) (ctx : Context) :
  forall ids st st',
    NoDup (map id (m_pModule st)) -> definedBeforeUse [] (m_pModule st) ->
    foldInstructions ConstantFoldInstruction
                     SPIRVTW_16Bit SPIRVTW_32Bit SPIRVTW_64Bit ctx ids st
    = Some st' ->
    NoDup (map id (m_pModule st')) /\ definedBeforeUse [] (m_pModule st').
Proof.
  induction ids as [| n ids IH]; intros st st' Hnd Hdbu H.
  - injection H as <-. auto.
  - cbn [foldInstructions] in H.
    destruct (lookup (m_pModule st) n) as [pInst |];
      [| exact (IH _ _ Hnd Hdbu H)].
    destruct (foldInstruction ConstantFoldInstruction SPIRVTW_16Bit
                SPIRVTW_32Bit SPIRVTW_64Bit ctx st pInst) as [st1 |] eqn:H1;
      [| discriminate].
    cbn [bind] in H.
    destruct (foldInstruction_layout _ _ _ _ _ _ _ _ Hnd Hdbu H1)
      as [Hnd1 Hdbu1].
    exact (IH _ _ Hnd1 Hdbu1 H).
Qed.

(** ** The folding loop returns *)

Lemma getCalledFunction_replaced (i : Instruction) (n : nat) (c : Constant)
      (name : string) :
  getCalledFunction i = Some name ->
  getCalledFunction
    (setOperands i (map (fun o => if isUseOf n o then VConst c else o)
                        (operands i))) = Some name.
Proof.
  unfold getCalledFunction. cbn [operands setOperands].
  induction (operands i) as [| o ops IH]; [discriminate |].
  destruct ops as [| o' ops'].
  - cbn [map last]. destruct o as [k | m | a t]; try discriminate.
    cbn [isUseOf]. auto.
  - intros H. apply IH in H. exact H.
Qed.

Lemma calleesKnown_replaced (SPIRVTW_16Bit : Z) (ctx : Context) (g : Module)
      (n : nat) (c : Constant) :
  calleesKnown SPIRVTW_16Bit ctx g ->
  calleesKnown SPIRVTW_16Bit ctx (replaceAllUsesWith g n (VConst c)).
Proof.
  intros H Hsw Hflag i' Hi' Hpar Hop. apply in_map_iff in Hi'.
  destruct Hi' as [i [<- Hi]].
  destruct (H Hsw Hflag i Hi Hpar Hop) as [name Hname].
  exists name. now apply getCalledFunction_replaced.
Qed.

Lemma calleesKnown_erased (SPIRVTW_16Bit : Z) (ctx : Context) (g : Module)
      (n : nat) :
  calleesKnown SPIRVTW_16Bit ctx g ->
  calleesKnown SPIRVTW_16Bit ctx (eraseFromParent g n).
Proof.
  intros H Hsw Hflag i Hi. apply (H Hsw Hflag).
  unfold eraseFromParent in Hi. apply filter_In in Hi. tauto.
Qed.

Lemma foldInstruction_returns
      (ConstantFoldInstruction : Instruction -> option Constant)
      (SPIRVTW_16Bit SPIRVTW_32Bit SPIRVTW_64Bit : Z) (ctx : Context)
      (st : PassState) (pInst : Instruction) :
  m_enableConstFolding ctx = true ->
  calleesKnown SPIRVTW_16Bit ctx (m_pModule st) ->
  In pInst (m_pModule st) -> parent pInst = m_pEntryPoint ctx ->
  exists st',
    foldInstruction ConstantFoldInstruction
                    SPIRVTW_16Bit SPIRVTW_32Bit SPIRVTW_64Bit ctx st pInst
    = Some st'
    /\ calleesKnown SPIRVTW_16Bit ctx (m_pModule st').
Proof.
  intros Hsw Hknown Hin Hpar.
  assert (Hres : forall st',
             foldInstruction ConstantFoldInstruction SPIRVTW_16Bit
               SPIRVTW_32Bit SPIRVTW_64Bit ctx st pInst = Some st' ->
             calleesKnown SPIRVTW_16Bit ctx (m_pModule st')).
  { intros st' H.
    destruct (foldInstruction_cases _ _ _ _ _ _ _ _ H)
      as [-> | [[_ ->] | [c ->]]]; [exact Hknown | |].
    - now apply calleesKnown_erased.
    - unfold substitute. cbn [m_pModule].
      destruct (isInstructionTriviallyDead _ pInst);
        [apply calleesKnown_erased |]; now apply calleesKnown_replaced. }
  destruct (foldInstruction ConstantFoldInstruction SPIRVTW_16Bit
              SPIRVTW_32Bit SPIRVTW_64Bit ctx st pInst) as [st' |] eqn:H;
    [exists st'; auto |].
  exfalso. unfold foldInstruction in H.
  destruct (isInstructionTriviallyDead (m_pModule st) pInst);
    [discriminate |].
  destruct (_ || _); [discriminate |].
  destruct (ConstantFoldInstruction pInst); [discriminate |].
  destruct (opcode pInst) eqn:Hop; try discriminate.
  destruct (Z.eqb_spec (Z.land (denormFlushToZero ctx) SPIRVTW_16Bit) 0)
    as [E | N]; [discriminate |].
  destruct (Hknown Hsw N pInst Hin Hpar Hop) as [name Hname].
  rewrite Hname in H. cbn [negb bind] in H.
  destruct (String.eqb name _); [| discriminate].
  destruct (getOperand pInst 0) as [[[] | |] |]; discriminate.
Qed.

Lemma lookup_replaceAllUsesWith (g : Module) (n m : nat) (v : Value) :
  lookup (replaceAllUsesWith g n v) m
  = option_map (fun i => setOperands i
                           (map (fun o => if isUseOf n o then v else o)
                                (operands i)))
               (lookup g m).
Proof.
  unfold lookup, replaceAllUsesWith.
  induction g as [| i g IH]; [reflexivity |].
  cbn [map find]. cbn [id setOperands].
  destruct (Nat.eqb (id i) m); [reflexivity | exact IH].
Qed.

Lemma lookup_eraseFromParent_other (g : Module) (n m : nat) :
  lookup (eraseFromParent g n) m
  = if Nat.eqb m n then None else lookup g m.
Proof.
  destruct (Nat.eqb_spec m n) as [-> | Hne];
    [apply lookup_eraseFromParent |].
  unfold lookup, eraseFromParent.
  induction g as [| i g IH]; [reflexivity |].
  cbn [filter find]. destruct (Nat.eqb_spec (id i) n) as [E | N]; cbn [negb].
  - destruct (Nat.eqb_spec (id i) m) as [E' | _]; [congruence | exact IH].
  - cbn [find]. destruct (Nat.eqb (id i) m); [reflexivity | exact IH].
Qed.

(** An instruction found after a step of the folding loop was there
    before the step, in the same function. *)
Lemma foldInstruction_lookup
      (ConstantFoldInstruction : Instruction -> option Constant)
      (SPIRVTW_16Bit SPIRVTW_32Bit SPIRVTW_64Bit : Z) (ctx : Context)
      (st st' : PassState) (pInst : Instruction) (m : nat) (j' : Instruction) :
  foldInstruction ConstantFoldInstruction
                  SPIRVTW_16Bit SPIRVTW_32Bit SPIRVTW_64Bit ctx st pInst
  = Some st' ->
  lookup (m_pModule st') m = Some j' ->
  exists j, lookup (m_pModule st) m = Some j /\ parent j' = parent j.
Proof.
  intros H Hl.
  assert (Herase : forall g,
             lookup (eraseFromParent g (id pInst)) m = Some j' ->
             lookup g m = Some j').
  { intros g Hg. rewrite lookup_eraseFromParent_other in Hg.
    destruct (Nat.eqb m (id pInst)); [discriminate | exact Hg]. }
  assert (Hreplace : forall c,
             lookup (replaceAllUsesWith (m_pModule st) (id pInst) (VConst c)) m
             = Some j' ->
             exists j, lookup (m_pModule st) m = Some j
                       /\ parent j' = parent j).
  { intros c Hg. rewrite lookup_replaceAllUsesWith in Hg.
    destruct (lookup (m_pModule st) m) as [j |]; [| discriminate].
    injection Hg as <-. exists j. auto. }
  destruct (foldInstruction_cases _ _ _ _ _ _ _ _ H)
    as [-> | [[_ ->] | [c ->]]].
  - exists j'. auto.
  - exists j'. split; [now apply Herase | reflexivity].
  - unfold substitute in Hl. cbn [m_pModule] in Hl.
    destruct (isInstructionTriviallyDead _ pInst);
      [apply Herase in Hl |]; exact (Hreplace c Hl).
Qed.

Lemma foldInstructions_returns
      (ConstantFoldInstruction : Instruction -> option Constant)
      (SPIRVTW_16Bit SPIRVTW_32Bit SPIRVTW_64Bit : Z) (ctx : Context) :
  m_enableConstFolding ctx = true ->
  forall ids st,
    calleesKnown SPIRVTW_16Bit ctx (m_pModule st) ->
    (forall n pInst, In n ids -> lookup (m_pModule st) n = Some pInst ->
                     parent pInst = m_pEntryPoint ctx) ->
    exists st',
      foldInstructions ConstantFoldInstruction
                       SPIRVTW_16Bit SPIRVTW_32Bit SPIRVTW_64Bit ctx ids st
      = Some st'.
Proof.
  intros Hsw. induction ids as [| n ids IH]; intros st Hknown Hentry;
    [eexists; reflexivity |].
  cbn [foldInstructions].
  destruct (lookup (m_pModule st) n) as [pInst |] eqn:Hl.
  - destruct (lookup_In _ _ _ Hl) as [Hin _].
    destruct (foldInstruction_returns ConstantFoldInstruction SPIRVTW_16Bit
                SPIRVTW_32Bit SPIRVTW_64Bit ctx st pInst Hsw Hknown Hin)
      as [st1 [H1 Hknown1]]; [apply (Hentry n); [now left | exact Hl] |].
    rewrite H1. cbn [bind]. apply IH; [exact Hknown1 |].
    intros m j' Hm Hj'.
    destruct (foldInstruction_lookup _ _ _ _ _ _ _ _ _ _ H1 Hj')
      as [j [Hj ->]].
    apply (Hentry m); [now right | exact Hj].
  - cbn [bind]. apply IH; [exact Hknown |].
    intros m j Hm Hj. apply (Hentry m); [now right | exact Hj].
Qed.

Lemma foldConstants_returns
      (ConstantFoldInstruction : Instruction -> option Constant)
      (SPIRVTW_16Bit SPIRVTW_32Bit SPIRVTW_64Bit : Z) (ctx : Context)
      (module : Module) (changed : bool) :
  m_enableConstFolding ctx = true ->
  NoDup (map id module) ->
  calleesKnown SPIRVTW_16Bit ctx module ->
  exists st',
    foldConstants ConstantFoldInstruction
                  SPIRVTW_16Bit SPIRVTW_32Bit SPIRVTW_64Bit ctx
                  (mkState module changed)
    = Some st'.
Proof.
  intros Hsw Hnd Hknown. unfold foldConstants. cbn [m_pModule].
  apply foldInstructions_returns; [exact Hsw | exact Hknown |].
  intros n pInst Hn Hl. cbn [m_pModule] in Hl.
  unfold entryInstructions in Hn. apply in_map_iff in Hn.
  destruct Hn as [k [Hk Hkin]]. apply filter_In in Hkin.
  destruct Hkin as [Hkin Hpar]. apply String.eqb_eq in Hpar.
  rewrite <- Hk, (lookup_member module k Hnd Hkin) in Hl.
  injection Hl as <-. exact Hpar.
Qed.

(** ** The module after a run *)

(** On a module laid out with its definitions before their uses, whose
    calls the folding loop can look at, the pass returns, the layout is
    kept, and after the visit every instruction is settled. *)
Lemma runOnModule_settles
      (ConstantFoldInstruction : Instruction -> option Constant)
      (mangleBuiltin : string -> list Ty -> string)
      (SPIRVTW_16Bit SPIRVTW_32Bit SPIRVTW_64Bit : Z) (ctx : Context)
      (module : Module) :
  NoDup (map id module) -> definedBeforeUse [] module ->
  calleesKnown SPIRVTW_16Bit ctx module ->
  exists changed module',
    runOnModule ConstantFoldInstruction mangleBuiltin
                SPIRVTW_16Bit SPIRVTW_32Bit SPIRVTW_64Bit ctx module
    = Some (changed, module')
    /\ NoDup (map id module')
    /\ definedBeforeUse [] module'
    /\ (m_enableFloatOpt ctx = true ->
        forall x, In x module' -> settled ctx module' x).
Proof.
  intros Hnd Hdbu Hknown. unfold runOnModule.
  assert (H1 : exists st1,
             (if m_enableConstFolding ctx && negb (denormFlushToZero ctx =? 0)
              then foldConstants ConstantFoldInstruction SPIRVTW_16Bit
                     SPIRVTW_32Bit SPIRVTW_64Bit ctx (mkState module false)
              else Some (mkState module false)) = Some st1
             /\ NoDup (map id (m_pModule st1))
             /\ definedBeforeUse [] (m_pModule st1)).
  { destruct (m_enableConstFolding ctx && negb (denormFlushToZero ctx =? 0))
      eqn:Hrun; [| eexists; split; [reflexivity | auto]].
    apply andb_true_iff in Hrun. destruct Hrun as [Hsw _].
    destruct (foldConstants_returns ConstantFoldInstruction SPIRVTW_16Bit
                SPIRVTW_32Bit SPIRVTW_64Bit ctx module false Hsw Hnd Hknown)
      as [st1 Hst1].
    exists st1. split; [exact Hst1 |]. unfold foldConstants in Hst1.
    exact (foldInstructions_layout ConstantFoldInstruction SPIRVTW_16Bit
             SPIRVTW_32Bit SPIRVTW_64Bit ctx _ (mkState module false) st1
             Hnd Hdbu Hst1). }
  destruct H1 as [[g1 c1] [-> [Hnd1 Hdbu1]]]. cbn [bind m_pModule] in *.
  destruct (m_enableFloatOpt ctx).
  - unfold visit. cbn [m_pModule].
    destruct (visit_settles mangleBuiltin ctx (map id g1) [] g1 c1
                eq_refl Hnd1 Hdbu1) as [D' [c' [Hv [Hnd' [Hdbu' Hset']]]]];
      [intros x [] |].
    simpl in Hv. rewrite Hv. cbn [bind m_changed m_pModule].
    exists c', D'. auto.
  - cbn [bind m_changed m_pModule]. exists c1, g1.
    split; [reflexivity |]. split; [exact Hnd1 |]. split; [exact Hdbu1 |].
    discriminate.
Qed.

(** X1: on a module whose instructions have pairwise different
    identities and are laid out with every definition before its uses,
    and in which every call of the entry point is a direct call if the
    folding loop runs with the 16-bit flush flag set, the pass returns,
    whatever the constant folder is, and its result is laid out so too:
    no operand refers to an instruction that was removed. *)
Theorem runOnModule_keeps_layout
        (ConstantFoldInstruction : Instruction -> option Constant)
        (mangleBuiltin : string -> list Ty -> string)
        (SPIRVTW_16Bit SPIRVTW_32Bit SPIRVTW_64Bit : Z) (ctx : Context)
        (module : Module) :
  NoDup (map id module) -> definedBeforeUse [] module ->
  calleesKnown SPIRVTW_16Bit ctx module ->
  exists changed module',
    runOnModule ConstantFoldInstruction mangleBuiltin
                SPIRVTW_16Bit SPIRVTW_32Bit SPIRVTW_64Bit ctx module
    = Some (changed, module')
    /\ NoDup (map id module')
    /\ definedBeforeUse [] module'
    /\ (forall x m, In x module' -> In (VInst m) (operands x) ->
                    exists y, In y module' /\ id y = m).
Proof.
  intros Hnd Hdbu Hknown.
  destruct (runOnModule_settles ConstantFoldInstruction mangleBuiltin
              SPIRVTW_16Bit SPIRVTW_32Bit SPIRVTW_64Bit ctx module Hnd Hdbu
              Hknown)
    as [c [g' [Hrun [Hnd' [Hdbu' _]]]]].
  exists c, g'. split; [exact Hrun |]. split; [exact Hnd' |].
  split; [exact Hdbu' |].
  intros x m Hx Hm.
  pose proof (definedBeforeUse_refs g' [] x m Hdbu' Hx Hm) as Hin.
  simpl in Hin. apply in_map_iff in Hin. destruct Hin as [y [Hy Hyin]].
  exists y. auto.
Qed.

(** X2: after a run with the floating-point optimization on, no
    division is left: every [fdiv] with its two operands has become a
    call.  The module is laid out with its definitions before their
    uses, and every call of the entry point is a direct call if the
    folding loop runs with the 16-bit flush flag set. *)
Theorem no_division_left
        (ConstantFoldInstruction : Instruction -> option Constant)
        (mangleBuiltin : string -> list Ty -> string)
        (SPIRVTW_16Bit SPIRVTW_32Bit SPIRVTW_64Bit : Z) (ctx : Context)
        (module : Module) :
  m_enableFloatOpt ctx = true ->
  NoDup (map id module) -> definedBeforeUse [] module ->
  calleesKnown SPIRVTW_16Bit ctx module ->
  exists changed module',
    runOnModule ConstantFoldInstruction mangleBuiltin
                SPIRVTW_16Bit SPIRVTW_32Bit SPIRVTW_64Bit ctx module
    = Some (changed, module')
    /\ forall x a b, In x module' -> operands x = [a; b] ->
                     opcode x <> BinaryOp FDiv.
Proof.
  intros Hopt Hnd Hdbu Hknown.
  destruct (runOnModule_settles ConstantFoldInstruction mangleBuiltin
              SPIRVTW_16Bit SPIRVTW_32Bit SPIRVTW_64Bit ctx module Hnd Hdbu
              Hknown)
    as [c [g' [Hrun [_ [_ Hset]]]]].
  exists c, g'. split; [exact Hrun |].
  intros x a b Hx Hops Hop.
  destruct (Hset Hopt x Hx) as [_ [_ Hdiv]].
  { unfold isBinaryOperator. now rewrite Hop. }
  unfold getOperand in Hdiv. rewrite Hops in Hdiv.
  destruct (Hdiv Hop); discriminate.
Qed.

(** X3: after a run with the floating-point optimization on, the
    contract and the reassociation flag agree on every [fadd] that
    allows contraction: it allows reassociation too, and none of its
    two operands has a defining chain that disallows contraction.  The
    module is laid out with its definitions before their uses, and
    every call of the entry point is a direct call if the folding loop
    runs with the 16-bit flush flag set. *)
Theorem contract_flags_settled
        (ConstantFoldInstruction : Instruction -> option Constant)
        (mangleBuiltin : string -> list Ty -> string)
        (SPIRVTW_16Bit SPIRVTW_32Bit SPIRVTW_64Bit : Z) (ctx : Context)
        (module : Module) :
  m_enableFloatOpt ctx = true ->
  NoDup (map id module) -> definedBeforeUse [] module ->
  calleesKnown SPIRVTW_16Bit ctx module ->
  exists changed module',
    runOnModule ConstantFoldInstruction mangleBuiltin
                SPIRVTW_16Bit SPIRVTW_32Bit SPIRVTW_64Bit ctx module
    = Some (changed, module')
    /\ forall x, In x module' -> opcode x = BinaryOp FAdd ->
                 FastMathFlags.allowContract (SubclassOptionalData x) = true ->
                 FastMathFlags.allowReassoc (SubclassOptionalData x) = true
                 /\ forall v, getOperand x 0 = Some v \/ getOperand x 1 = Some v ->
                              Answers module' v false.
Proof.
  intros Hopt Hnd Hdbu Hknown.
  destruct (runOnModule_settles ConstantFoldInstruction mangleBuiltin
              SPIRVTW_16Bit SPIRVTW_32Bit SPIRVTW_64Bit ctx module Hnd Hdbu
              Hknown)
    as [c [g' [Hrun [_ [_ Hset]]]]].
  exists c, g'. split; [exact Hrun |].
  intros x Hx Hop Hco.
  destruct (Hset Hopt x Hx) as [Hflags _].
  { unfold isBinaryOperator. now rewrite Hop. }
  apply Hflags. rewrite Hop, Hco. reflexivity.
Qed.

(** X4: after a run with the floating-point optimization on and the
    control flags off, no identity is left to apply: no [fadd] and no
    [fmul] has a constant-zero operand, and no [fsub] has a
    constant-zero right operand. *)
Theorem no_identity_left
        (ConstantFoldInstruction : Instruction -> option Constant)
        (mangleBuiltin : string -> list Ty -> string)
        (SPIRVTW_16Bit SPIRVTW_32Bit SPIRVTW_64Bit : Z) (ctx : Context)
        (module : Module) :
  m_enableFloatOpt ctx = true ->
  preservationOff ctx ->
  NoDup (map id module) -> definedBeforeUse [] module ->
  exists changed module',
    runOnModule ConstantFoldInstruction mangleBuiltin
                SPIRVTW_16Bit SPIRVTW_32Bit SPIRVTW_64Bit ctx module
    = Some (changed, module')
    /\ forall x a b, In x module' -> operands x = [a; b] ->
         (opcode x = BinaryOp FAdd \/ opcode x = BinaryOp FMul ->
          isConstZero (Some a) = false /\ isConstZero (Some b) = false)
         /\ (opcode x = BinaryOp FSub -> isConstZero (Some b) = false).
Proof.
  intros Hopt Hoff Hnd Hdbu.
  assert (Hknown : calleesKnown SPIRVTW_16Bit ctx module).
  { intros _ Hflag. exfalso. apply Hflag.
    destruct Hoff as [-> _]. apply Z.land_0_l. }
  destruct (runOnModule_settles ConstantFoldInstruction mangleBuiltin
              SPIRVTW_16Bit SPIRVTW_32Bit SPIRVTW_64Bit ctx module Hnd Hdbu
              Hknown)
    as [c [g' [Hrun [_ [_ Hset]]]]].
  exists c, g'. split; [exact Hrun |].
  intros x a b Hx Hops.
  assert (Hid : isBinaryOperator x = true ->
                identityOperand ctx (opcode x) (Some a) (Some b) = None).
  { intros Hb. destruct (Hset Hopt x Hx Hb) as [_ [Hid _]].
    unfold getOperand in Hid. now rewrite Hops in Hid. }
  unfold identityOperand, isBinaryOperator in Hid.
  rewrite (gate_on ctx Hoff) in Hid.
  split.
  - intros [Hop | Hop]; rewrite Hop in Hid;
      specialize (Hid eq_refl);
      destruct (isConstZero (Some a)), (isConstZero (Some b));
      try discriminate; auto.
  - intros Hop. rewrite Hop in Hid. specialize (Hid eq_refl).
    destruct (isConstZero (Some b)); [discriminate | reflexivity].
Qed.

(** ** What a run that returns false has done *)

Lemma flagsOnly_refl (g : Module) : Forall2 flagsOnly g g.
Proof. induction g; constructor; [now left | assumption]. Qed.

Lemma flagsOnly_trans (g1 : Module) :
  forall g2 g3,
    Forall2 flagsOnly g1 g2 -> Forall2 flagsOnly g2 g3 -> Forall2 flagsOnly g1 g3.
Proof.
  induction g1 as [| i g1 IH]; intros g2 g3 H12 H23.
  - inversion H12. subst. inversion H23. constructor.
  - inversion H12 as [| ? i2 ? g2' Hi Hg]. subst.
    inversion H23 as [| ? i3 ? g3' Hi' Hg']. subst.
    constructor; [| eapply IH; eassumption].
    destruct Hi as [-> | [Hop [F ->]]]; [exact Hi' |].
    destruct Hi' as [-> | [_ [F' ->]]]; right; split; auto;
      [now exists F | exists F'; reflexivity].
Qed.

Lemma flagsOnly_ids (g g' : Module) :
  Forall2 flagsOnly g g' -> map id g' = map id g.
Proof.
  induction 1 as [| i i' g g' Hi _ IH]; [reflexivity |].
  simpl. rewrite IH. f_equal.
  destruct Hi as [-> | [_ [F ->]]]; reflexivity.
Qed.

Lemma copyFastMathFlags_flagsOnly (g : Module) (x : Instruction) (F : Z) :
  NoDup (map id g) -> In x g -> opcode_is FAdd (opcode x) = true ->
  Forall2 flagsOnly g (copyFastMathFlags g (id x) F).
Proof.
  intros Hnd Hin Hop. apply in_split in Hin. destruct Hin as [D [T ->]].
  rewrite copyFastMathFlags_here by exact Hnd.
  apply Forall2_app; [apply flagsOnly_refl |].
  constructor; [| apply flagsOnly_refl].
  right. split; [exact Hop | now exists F].
Qed.

Lemma normalizeContract_shape (g g1 : Module) (x : Instruction) :
  normalizeContract g x = Some g1 ->
  g1 = g
  \/ (opcode_is FAdd (opcode x) = true
      /\ exists F, g1 = copyFastMathFlags g (id x) F).
Proof.
  unfold normalizeContract.
  destruct (opcode_is FAdd (opcode x)) eqn:Hop; simpl;
    [| intros H; injection H as <-; now left].
  destruct (FastMathFlags.allowContract (SubclassOptionalData x));
    [| intros H; injection H as <-; now left].
  destruct (operandNoContract g (getOperand x 0)) as [n1 |]; [| discriminate].
  simpl. destruct n1; simpl.
  - intros H. injection H as <-. right. split; [reflexivity | eauto].
  - destruct (operandNoContract g (getOperand x 1)) as [n2 |]; [| discriminate].
    simpl. intros H. injection H as <-. right. split; [reflexivity | eauto].
Qed.

Lemma visitBinaryOperator_unchanged
      (mangleBuiltin : string -> list Ty -> string) (ctx : Context)
      (st st' : PassState) (x : Instruction) :
  NoDup (map id (m_pModule st)) -> In x (m_pModule st) ->
  visitBinaryOperator mangleBuiltin ctx st x = Some st' ->
  m_changed st' = false ->
  Forall2 flagsOnly (m_pModule st) (m_pModule st').
Proof.
  intros Hnd Hin Hv Hc. unfold visitBinaryOperator in Hv.
  destruct (normalizeContract (m_pModule st) x) as [g1 |] eqn:Hn;
    [| discriminate].
  simpl in Hv. injection Hv as <-.
  destruct (rewriteBinaryOperator_changed mangleBuiltin ctx
              (mkState g1 (m_changed st)) x) as [E | E]; [| congruence].
  rewrite E. cbn [m_pModule].
  destruct (normalizeContract_shape _ _ _ Hn) as [-> | [Hop [F ->]]];
    [apply flagsOnly_refl | now apply copyFastMathFlags_flagsOnly].
Qed.

Lemma visitInstructions_monotone
      (mangleBuiltin : string -> list Ty -> string) (ctx : Context) :
  forall ids st st',
    visitInstructions mangleBuiltin ctx ids st = Some st' ->
    m_changed st = true -> m_changed st' = true.
Proof.
  induction ids as [| n ids IH]; intros st st' H Hc.
  - injection H as <-. exact Hc.
  - cbn [visitInstructions] in H.
    destruct (lookup (m_pModule st) n) as [x |]; [| exact (IH _ _ H Hc)].
    destruct (isBinaryOperator x); [| exact (IH _ _ H Hc)].
    destruct (visitBinaryOperator mangleBuiltin ctx st x) as [st1 |] eqn:Hv;
      [| discriminate].
    apply (IH _ _ H).
    exact (visitBinaryOperator_monotone _ _ _ _ _ Hv Hc).
Qed.

Lemma visitInstructions_unchanged
      (mangleBuiltin : string -> list Ty -> string) (ctx : Context) :
  forall ids st st',
    NoDup (map id (m_pModule st)) ->
    visitInstructions mangleBuiltin ctx ids st = Some st' ->
    m_changed st' = false ->
    Forall2 flagsOnly (m_pModule st) (m_pModule st').
Proof.
  induction ids as [| n ids IH]; intros st st' Hnd H Hc.
  - injection H as <-. apply flagsOnly_refl.
  - cbn [visitInstructions] in H.
    destruct (lookup (m_pModule st) n) as [x |] eqn:Hl;
      [| exact (IH _ _ Hnd H Hc)].
    destruct (isBinaryOperator x); [| exact (IH _ _ Hnd H Hc)].
    destruct (visitBinaryOperator mangleBuiltin ctx st x) as [st1 |] eqn:Hv;
      [| discriminate].
    cbn [bind] in H.
    assert (Hc1 : m_changed st1 = false).
    { destruct (m_changed st1) eqn:E; [| reflexivity].
      pose proof (visitInstructions_monotone _ _ _ _ _ H E). congruence. }
    destruct (lookup_In _ _ _ Hl) as [Hin _].
    pose proof (visitBinaryOperator_unchanged _ _ _ _ _ Hnd Hin Hv Hc1) as H1.
    apply (flagsOnly_trans _ _ _ H1). apply (IH st1 st'); try assumption.
    rewrite (flagsOnly_ids _ _ H1). exact Hnd.
Qed.

Lemma foldInstructions_monotone
      (ConstantFoldInstruction : Instruction -> option Constant)
      (SPIRVTW_16Bit SPIRVTW_32Bit SPIRVTW_64Bit : Z) (ctx : Context) :
  forall ids st st',
    foldInstructions ConstantFoldInstruction SPIRVTW_16Bit
      SPIRVTW_32Bit SPIRVTW_64Bit ctx ids st = Some st' ->
    m_changed st = true -> m_changed st' = true.
Proof.
  induction ids as [| n ids IH]; intros st st' H Hc.
  - injection H as <-. exact Hc.
  - cbn [foldInstructions] in H.
    destruct (lookup (m_pModule st) n) as [pInst |]; [| exact (IH _ _ H Hc)].
    destruct (foldInstruction ConstantFoldInstruction SPIRVTW_16Bit
                SPIRVTW_32Bit SPIRVTW_64Bit ctx st pInst) as [st1 |] eqn:H1;
      [| discriminate].
    apply (IH _ _ H).
    exact (foldInstruction_monotone _ _ _ _ _ _ _ _ H1 Hc).
Qed.

Lemma foldInstructions_unchanged
      (ConstantFoldInstruction : Instruction -> option Constant)
      (SPIRVTW_16Bit SPIRVTW_32Bit SPIRVTW_64Bit : Z) (ctx : Context) :
  forall ids st st',
    foldInstructions ConstantFoldInstruction SPIRVTW_16Bit
      SPIRVTW_32Bit SPIRVTW_64Bit ctx ids st = Some st' ->
    m_changed st' = false ->
    st' = st.
Proof.
  induction ids as [| n ids IH]; intros st st' H Hc.
  - now injection H as <-.
  - cbn [foldInstructions] in H.
    destruct (lookup (m_pModule st) n) as [pInst |]; [| exact (IH _ _ H Hc)].
    destruct (foldInstruction ConstantFoldInstruction SPIRVTW_16Bit
                SPIRVTW_32Bit SPIRVTW_64Bit ctx st pInst) as [st1 |] eqn:H1;
      [| discriminate].
    cbn [bind] in H.
    destruct (foldInstruction_changed _ _ _ _ _ _ _ _ H1) as [-> | E].
    + exact (IH _ _ H Hc).
    + pose proof (foldInstructions_monotone _ _ _ _ _ _ _ _ H E). congruence.
Qed.

(** X5: a run that returns false has changed nothing but fast-math
    flags of [fadd] instructions: the module it leaves has the
    instructions of the module it was given, in their order, each the
    same or an [fadd] with other flags. *)
Theorem unreported_changes_are_flags
        (ConstantFoldInstruction : Instruction -> option Constant)
        (mangleBuiltin : string -> list Ty -> string)
        (SPIRVTW_16Bit SPIRVTW_32Bit SPIRVTW_64Bit : Z) (ctx : Context)
        (module module' : Module) :
  NoDup (map id module) ->
  runOnModule ConstantFoldInstruction mangleBuiltin
              SPIRVTW_16Bit SPIRVTW_32Bit SPIRVTW_64Bit ctx module
  = Some (false, module') ->
  Forall2 flagsOnly module module'.
Proof.
  intros Hnd Hrun. unfold runOnModule in Hrun.
  destruct (if m_enableConstFolding ctx && negb (denormFlushToZero ctx =? 0)
            then foldConstants ConstantFoldInstruction SPIRVTW_16Bit
                   SPIRVTW_32Bit SPIRVTW_64Bit ctx (mkState module false)
            else Some (mkState module false)) as [st1 |] eqn:Hfold;
    [| discriminate].
  cbn [bind] in Hrun.
  destruct (if m_enableFloatOpt ctx then visit mangleBuiltin ctx st1
            else Some st1) as [st2 |] eqn:H2; [| discriminate].
  cbn [bind] in Hrun. injection Hrun as Hc Hg. subst module'.
  assert (Hc1 : m_changed st1 = false).
  { destruct (m_enableFloatOpt ctx); [| now injection H2 as <-].
    destruct (m_changed st1) eqn:E; [| reflexivity].
    pose proof (visitInstructions_monotone _ _ _ _ _ H2 E). congruence. }
  assert (H1 : st1 = mkState module false).
  { destruct (_ && _); [| now injection Hfold as <-].
    unfold foldConstants in Hfold.
    exact (foldInstructions_unchanged _ _ _ _ _ _ _ _ Hfold Hc1). }
  rewrite H1 in H2. destruct (m_enableFloatOpt ctx).
  - exact (visitInstructions_unchanged mangleBuiltin ctx (map id module)
             (mkState module false) st2 Hnd H2 Hc).
  - injection H2 as <-. apply flagsOnly_refl.
Qed.

(** ** What the query answers *)

(** X6: the query answers true exactly when, going from the value to
    first operands through binary operators that do not forbid
    contraction, a binary operator that forbids it is reached. *)
Theorem IsOperandNoContract_true_iff (g : Module) (v : Value) :
  Answers g v true <->
  exists w i,
    clos_refl_trans_1n Value (passesContract g) v w
    /\ definingBinaryOperator g w = Some i
    /\ forbidsContract i = true.
Proof.
  split.
  - intros [fuel H]. revert v H.
    induction fuel as [| fuel IH]; intros v H; [discriminate |].
    rewrite IsOperandNoContract_step in H.
    destruct (definingBinaryOperator g v) as [i |] eqn:Hd; [| discriminate].
    destruct (forbidsContract i) eqn:Hf.
    + exists v, i. split; [constructor | auto].
    + destruct (operands i) as [| o rest] eqn:Hops; [discriminate |].
      destruct (IH o H) as [w [j [Hpath Hw]]].
      exists w, j. split; [| exact Hw].
      apply (Relation_Operators.rt1n_trans _ _ v o w); [| exact Hpath].
      exists i. rewrite Hops. auto.
  - intros [w [j [Hpath [Hd Hf]]]].
    induction Hpath as [v | v o w [i [Hdi [Hfi Hh]]] _ IH].
    + exists 1%nat. rewrite IsOperandNoContract_step, Hd, Hf. reflexivity.
    + destruct (IH Hd) as [fuel Hfuel]. exists (S fuel).
      rewrite IsOperandNoContract_step, Hdi, Hfi.
      destruct (operands i) as [| o' rest]; [discriminate |].
      injection Hh as ->. exact Hfuel.
Qed.

(** ** The flush of a folded constant *)

(** X7: the flush of a folded constant changes it only when the result
    type is a scalar floating type whose flush flag is set and the
    constant is finite, not zero and not normal, and then into +0.0 of
    that type; a constant of a vector type is never changed; and the
    flush of a flushed constant changes nothing more. *)
Theorem flushFolded_once
        (SPIRVTW_16Bit SPIRVTW_32Bit SPIRVTW_64Bit : Z) (ctx : Context)
        (pDestType : Ty) (pConst : Constant) :
  let flush := flushFolded SPIRVTW_16Bit SPIRVTW_32Bit SPIRVTW_64Bit ctx
                           pDestType in
  (flush pConst <> pConst ->
   exists sem,
     pDestType = typeOfSemantics sem
     /\ Z.land (denormFlushToZero ctx)
               (widthBit SPIRVTW_16Bit SPIRVTW_32Bit SPIRVTW_64Bit sem) <> 0
     /\ isFiniteNonZeroFP pConst = true /\ isNormalFP pConst = false
     /\ flush pConst = ConstantFP (APFloat.makeZero sem false))
  /\ (forall e n, pDestType = VectorTy e n -> flush pConst = pConst)
  /\ flush (flush pConst) = flush pConst.
Proof.
  cbv zeta.
  assert (Hz : forall sem,
             flushFolded SPIRVTW_16Bit SPIRVTW_32Bit SPIRVTW_64Bit ctx
               (typeOfSemantics sem) (ConstantFP (APFloat.makeZero sem false))
             = ConstantFP (APFloat.makeZero sem false)).
  { intros sem. unfold flushFolded.
    destruct (_ || _); [| reflexivity]. destruct sem; reflexivity. }
  assert (Hcases :
            flushFolded SPIRVTW_16Bit SPIRVTW_32Bit SPIRVTW_64Bit ctx
                        pDestType pConst = pConst
            \/ exists sem,
                pDestType = typeOfSemantics sem
                /\ Z.land (denormFlushToZero ctx)
                          (widthBit SPIRVTW_16Bit SPIRVTW_32Bit SPIRVTW_64Bit
                                    sem) <> 0
                /\ isFiniteNonZeroFP pConst = true
                /\ isNormalFP pConst = false
                /\ flushFolded SPIRVTW_16Bit SPIRVTW_32Bit SPIRVTW_64Bit ctx
                               pDestType pConst
                   = ConstantFP (APFloat.makeZero sem false)).
  { unfold flushFolded.
    destruct (isFiniteNonZeroFP pConst) eqn:Hf;
      [| left; destruct (_ || _); reflexivity].
    destruct (isNormalFP pConst) eqn:Hn;
      [left; destruct (_ || _); reflexivity |].
    cbn [andb negb].
    destruct pDestType; cbn [isHalfTy isFloatTy isDoubleTy andb orb];
      try (left; reflexivity).
    - destruct (Z.eqb_spec (Z.land (denormFlushToZero ctx) SPIRVTW_16Bit) 0)
        as [E | N]; [left; reflexivity |].
      right. exists APFloat.IEEEhalf. repeat split; assumption.
    - destruct (Z.eqb_spec (Z.land (denormFlushToZero ctx) SPIRVTW_32Bit) 0)
        as [E | N]; [left; reflexivity |].
      right. exists APFloat.IEEEsingle. repeat split; assumption.
    - destruct (Z.eqb_spec (Z.land (denormFlushToZero ctx) SPIRVTW_64Bit) 0)
        as [E | N]; [left; reflexivity |].
      right. exists APFloat.IEEEdouble. repeat split; assumption. }
  split; [| split].
  - intros Hne. destruct Hcases as [E | H]; [contradiction | exact H].
  - intros e n ->. reflexivity.
  - destruct Hcases as [E | [sem [-> [_ [_ [_ ->]]]]]];
      [rewrite !E; reflexivity | apply Hz].
Qed.

(** ** What is never removed *)

Lemma sameButOperands_refl (i : Instruction) : sameButOperands i i.
Proof. reflexivity. Qed.

Lemma sameButOperands_trans (i j k : Instruction) :
  sameButOperands i j -> sameButOperands j k -> sameButOperands i k.
Proof. unfold sameButOperands. congruence. Qed.

Lemma sameButOperands_fields (i i' : Instruction) :
  sameButOperands i i' ->
  id i' = id i /\ parent i' = parent i /\ opcode i' = opcode i
  /\ mayHaveSideEffects i' = mayHaveSideEffects i.
Proof.
  unfold sameButOperands. intros H.
  split; [exact (f_equal id H) |]. split; [exact (f_equal parent H) |].
  split; [exact (f_equal opcode H) | exact (f_equal mayHaveSideEffects H)].
Qed.

Lemma sameButOperands_setOperands (i : Instruction) (ops : list Value) :
  sameButOperands i (setOperands i ops).
Proof. reflexivity. Qed.

Lemma NoDup_id_inj (g : Module) (a b : Instruction) :
  NoDup (map id g) -> In a g -> In b g -> id a = id b -> a = b.
Proof.
  intros Hnd Ha Hb E. pose proof (lookup_member g a Hnd Ha) as La.
  pose proof (lookup_member g b Hnd Hb) as Lb. rewrite E in La. congruence.
Qed.

Lemma In_replaceAllUsesWith (g : Module) (n : nat) (v : Value) (j : Instruction) :
  In j g -> exists j', In j' (replaceAllUsesWith g n v) /\ sameButOperands j j'.
Proof.
  intros Hj. eexists. split; [apply in_map; exact Hj |].
  apply sameButOperands_setOperands.
Qed.

Lemma replaceAllUsesWith_In (g : Module) (n : nat) (v : Value) (j' : Instruction) :
  In j' (replaceAllUsesWith g n v) -> exists j, In j g /\ sameButOperands j j'.
Proof.
  intros Hj. apply in_map_iff in Hj. destruct Hj as [j [<- Hj]].
  exists j. split; [exact Hj | apply sameButOperands_setOperands].
Qed.

Lemma In_eraseFromParent (g : Module) (n : nat) (j : Instruction) :
  In j (eraseFromParent g n) <-> In j g /\ id j <> n.
Proof.
  unfold eraseFromParent. rewrite filter_In, negb_true_iff, Nat.eqb_neq.
  tauto.
Qed.

(** What the body of the folding loop does to the module: it may
    replace the uses of the instruction by a constant, and it may
    erase the instruction, which then is no terminator and has no side
    effect. *)
Lemma foldInstruction_shape
      (ConstantFoldInstruction : Instruction -> option Constant)
      (SPIRVTW_16Bit SPIRVTW_32Bit SPIRVTW_64Bit : Z) (ctx : Context)
      (st st' : PassState) (pInst : Instruction) :
  foldInstruction ConstantFoldInstruction SPIRVTW_16Bit
                  SPIRVTW_32Bit SPIRVTW_64Bit ctx st pInst = Some st' ->
  let g := m_pModule st in
  let g' := m_pModule st' in
  exists g1,
    (g1 = g \/ exists c, g1 = replaceAllUsesWith g (id pInst) (VConst c))
    /\ (g' = g1
        \/ (g' = eraseFromParent g1 (id pInst)
            /\ isTerminator pInst = false
            /\ mayHaveSideEffects pInst = false)).
Proof.
  intros H. cbv zeta.
  assert (Hdead : forall g0, isInstructionTriviallyDead g0 pInst = true ->
                             isTerminator pInst = false
                             /\ mayHaveSideEffects pInst = false).
  { intros g0 H0. unfold isInstructionTriviallyDead in H0.
    apply andb_true_iff in H0. destruct H0 as [H0 Hs].
    apply andb_true_iff in H0. destruct H0 as [_ Ht].
    split; now apply negb_true_iff. }
  destruct (foldInstruction_cases _ _ _ _ _ _ _ _ H)
    as [-> | [[E ->] | [c ->]]].
  - exists (m_pModule st). auto.
  - exists (m_pModule st). split; [now left |]. right.
    split; [reflexivity | exact (Hdead _ E)].
  - exists (replaceAllUsesWith (m_pModule st) (id pInst) (VConst c)).
    split; [right; now exists c |].
    unfold substitute. cbn [m_pModule].
    destruct (isInstructionTriviallyDead _ pInst) eqn:E; [| now left].
    right. split; [reflexivity | exact (Hdead _ E)].
Qed.

Lemma keptByFolding_same (ctx : Context) (i i' : Instruction) :
  sameButOperands i i' -> keptByFolding ctx i' = keptByFolding ctx i.
Proof.
  intros H. destruct (sameButOperands_fields _ _ H) as [_ [Hp [Ho Hs]]].
  unfold keptByFolding, isTerminator. now rewrite Hp, Ho, Hs.
Qed.

Lemma foldInstruction_invariant
      (ConstantFoldInstruction : Instruction -> option Constant)
      (SPIRVTW_16Bit SPIRVTW_32Bit SPIRVTW_64Bit : Z) (ctx : Context)
      (g0 : Module) (st st' : PassState) (pInst : Instruction) :
  foldingInvariant ctx g0 (m_pModule st) ->
  In pInst (m_pModule st) ->
  parent pInst = m_pEntryPoint ctx ->
  foldInstruction ConstantFoldInstruction SPIRVTW_16Bit
                  SPIRVTW_32Bit SPIRVTW_64Bit ctx st pInst = Some st' ->
  foldingInvariant ctx g0 (m_pModule st').
Proof.
  intros [Hnd [Hfrom Hkept]] Hin Hpar Hstep.
  destruct (foldInstruction_shape _ _ _ _ _ _ _ _ Hstep)
    as [g1 [Hg1 Hg']].
  (* the module after the replacement *)
  assert (H1 : NoDup (map id g1)
               /\ (forall j', In j' g1 ->
                              exists j, In j g0 /\ sameButOperands j j')
               /\ (forall j, In j g0 -> keptByFolding ctx j = true ->
                             exists j', In j' g1 /\ sameButOperands j j')
               /\ (forall j', In j' g1 -> id j' = id pInst ->
                              sameButOperands pInst j')).
  { destruct Hg1 as [-> | [c ->]].
    - split; [exact Hnd |]. split; [exact Hfrom |]. split; [exact Hkept |].
      intros j' Hj' E. rewrite (NoDup_id_inj _ _ _ Hnd Hj' Hin E).
      apply sameButOperands_refl.
    - split; [now rewrite replaceAllUsesWith_ids |]. split; [| split].
      + intros j' Hj'. apply replaceAllUsesWith_In in Hj'.
        destruct Hj' as [j1 [Hj1 S1]]. destruct (Hfrom j1 Hj1) as [j [Hj S]].
        exists j. split; [exact Hj | eapply sameButOperands_trans; eassumption].
      + intros j Hj Hk. destruct (Hkept j Hj Hk) as [j1 [Hj1 S]].
        destruct (In_replaceAllUsesWith _ (id pInst) (VConst c) _ Hj1)
          as [j' [Hj' S']].
        exists j'. split; [exact Hj' | eapply sameButOperands_trans; eassumption].
      + intros j' Hj' E. apply replaceAllUsesWith_In in Hj'.
        destruct Hj' as [j1 [Hj1 S1]].
        destruct (sameButOperands_fields _ _ S1) as [Hid _].
        assert (j1 = pInst)
          by (apply (NoDup_id_inj _ _ _ Hnd Hj1 Hin); congruence).
        subst j1. exact S1. }
  destruct H1 as [Hnd1 [Hfrom1 [Hkept1 Hsame1]]].
  destruct Hg' as [-> | [-> [Hterm Hside]]]; [repeat split; assumption |].
  split; [now apply NoDup_eraseFromParent |]. split.
  - intros j' Hj'. apply In_eraseFromParent in Hj'. apply Hfrom1. tauto.
  - intros j Hj Hk. destruct (Hkept1 j Hj Hk) as [j' [Hj' S]].
    exists j'. split; [| exact S]. apply In_eraseFromParent.
    split; [exact Hj' |]. intros E.
    pose proof (Hsame1 j' Hj' E) as Sp.
    rewrite <- (keptByFolding_same ctx _ _ S) in Hk.
    rewrite (keptByFolding_same ctx _ _ Sp) in Hk.
    unfold keptByFolding in Hk.
    rewrite Hterm, Hside, Hpar, String.eqb_refl in Hk. discriminate.
Qed.

Lemma foldInstructions_invariant
      (ConstantFoldInstruction : Instruction -> option Constant)
      (SPIRVTW_16Bit SPIRVTW_32Bit SPIRVTW_64Bit : Z) (ctx : Context)
      (g0 : Module) :
  NoDup (map id g0) ->
  forall ids st st',
    incl ids (entryInstructions ctx g0) ->
    foldingInvariant ctx g0 (m_pModule st) ->
    foldInstructions ConstantFoldInstruction SPIRVTW_16Bit
                     SPIRVTW_32Bit SPIRVTW_64Bit ctx ids st = Some st' ->
    foldingInvariant ctx g0 (m_pModule st').
Proof.
  intros Hnd0.
  induction ids as [| n ids IH]; intros st st' Hincl Hinv H.
  - now injection H as <-.
  - cbn [foldInstructions] in H.
    assert (Hincl' : incl ids (entryInstructions ctx g0))
      by (intros m Hm; apply Hincl; now right).
    destruct (lookup (m_pModule st) n) as [pInst |] eqn:Hl;
      [| exact (IH _ _ Hincl' Hinv H)].
    destruct (foldInstruction ConstantFoldInstruction SPIRVTW_16Bit
                SPIRVTW_32Bit SPIRVTW_64Bit ctx st pInst) as [st1 |] eqn:H1;
      [| discriminate].
    cbn [bind] in H. apply (IH st1 st' Hincl'); [| exact H].
    destruct (lookup_In _ _ _ Hl) as [Hin Hid].
    apply (foldInstruction_invariant ConstantFoldInstruction SPIRVTW_16Bit
             SPIRVTW_32Bit SPIRVTW_64Bit ctx g0 st st1 pInst);
      try assumption.
    destruct Hinv as [_ [Hfrom _]].
    destruct (Hfrom pInst Hin) as [j [Hj S]].
    destruct (sameButOperands_fields _ _ S) as [Hidj [Hpar _]].
    assert (Hn : In n (entryInstructions ctx g0)) by (apply Hincl; now left).
    unfold entryInstructions in Hn. apply in_map_iff in Hn.
    destruct Hn as [k [Hk Hkin]]. apply filter_In in Hkin.
    destruct Hkin as [Hkin Hkpar]. apply String.eqb_eq in Hkpar.
    assert (k = j) by (apply (NoDup_id_inj g0); congruence).
    subst k. congruence.
Qed.

Lemma foldConstants_invariant
      (ConstantFoldInstruction : Instruction -> option Constant)
      (SPIRVTW_16Bit SPIRVTW_32Bit SPIRVTW_64Bit : Z) (ctx : Context)
      (module : Module) (changed : bool) (st' : PassState) :
  NoDup (map id module) ->
  foldConstants ConstantFoldInstruction SPIRVTW_16Bit
                SPIRVTW_32Bit SPIRVTW_64Bit ctx (mkState module changed)
  = Some st' ->
  foldingInvariant ctx module (m_pModule st').
Proof.
  intros Hnd H. unfold foldConstants in H. cbn [m_pModule] in H.
  apply (foldInstructions_invariant ConstantFoldInstruction SPIRVTW_16Bit
           SPIRVTW_32Bit SPIRVTW_64Bit ctx module Hnd _
           (mkState module changed) st' (incl_refl _)); [| exact H].
  split; [exact Hnd |].
  split; intros j Hj; exists j; split; auto; apply sameButOperands_refl.
Qed.

(** X8: the folding loop creates no instruction and removes no
    terminator, no instruction with side effects and no instruction of
    another function than the entry point: when it ends, every
    instruction is one of the module it was given, but for its
    operands, and every such instruction of that module is still
    there, but for its operands.  And the loop does end if every call
    of the entry point is a direct call or the 16-bit flush flag is
    clear. *)
Theorem foldConstants_keeps
        (ConstantFoldInstruction : Instruction -> option Constant)
        (SPIRVTW_16Bit SPIRVTW_32Bit SPIRVTW_64Bit : Z) (ctx : Context)
        (module : Module) (changed : bool) :
  NoDup (map id module) ->
  let loop := foldConstants ConstantFoldInstruction SPIRVTW_16Bit
                SPIRVTW_32Bit SPIRVTW_64Bit ctx (mkState module changed) in
  (m_enableConstFolding ctx = true ->
   calleesKnown SPIRVTW_16Bit ctx module ->
   exists st', loop = Some st')
  /\ forall st',
      loop = Some st' ->
      let g' := m_pModule st' in
      (forall j', In j' g' -> exists j, In j module /\ sameButOperands j j')
      /\ (forall j, In j module ->
                    isTerminator j = true \/ mayHaveSideEffects j = true
                    \/ parent j <> m_pEntryPoint ctx ->
                    exists j', In j' g' /\ sameButOperands j j').
Proof.
  intros Hnd. cbv zeta. split.
  - intros Hsw Hknown. now apply foldConstants_returns.
  - intros st' H.
    destruct (foldConstants_invariant ConstantFoldInstruction SPIRVTW_16Bit
                SPIRVTW_32Bit SPIRVTW_64Bit ctx module changed st' Hnd H)
      as [_ [Hfrom Hkept]].
    split; [exact Hfrom |]. intros j Hj Hk. apply (Hkept j Hj).
    unfold keptByFolding.
    destruct Hk as [-> | [-> | Hp]];
      [reflexivity | now rewrite orb_true_r |].
    apply String.eqb_neq in Hp. rewrite Hp. apply orb_true_r.
Qed.

Lemma copyFastMathFlags_ids (g : Module) (n : nat) (F : Z) :
  map id (copyFastMathFlags g n F) = map id g.
Proof.
  induction g as [| i g IH]; [reflexivity |]. simpl. rewrite IH.
  destruct (Nat.eqb (id i) n); reflexivity.
Qed.

Lemma In_copyFastMathFlags (g : Module) (n : nat) (F : Z) (j : Instruction) :
  In j g -> id j <> n -> In j (copyFastMathFlags g n F).
Proof.
  intros Hj Hne. unfold copyFastMathFlags. apply in_map_iff. exists j.
  split; [| exact Hj]. apply Nat.eqb_neq in Hne. now rewrite Hne.
Qed.

Lemma In_insertBefore (g : Module) (n : nat) (new j : Instruction) :
  In j g -> In j (insertBefore g n new).
Proof.
  induction g as [| i g IH]; [contradiction |]. simpl.
  destruct (Nat.eqb (id i) n); intros [-> | Hj]; simpl; auto.
Qed.

Lemma NoDup_insertBefore (g : Module) (n : nat) (new : Instruction) :
  NoDup (map id g) -> ~ In (id new) (map id g) ->
  NoDup (map id (insertBefore g n new)).
Proof.
  induction g as [| i g IH]; [constructor |]. simpl. intros Hnd Hnew.
  destruct (Nat.eqb (id i) n).
  - simpl. constructor; assumption.
  - simpl. inversion Hnd as [| ? ? Hi Hg]. subst. constructor.
    + intros Hin. apply in_map_iff in Hin. destruct Hin as [k [Hk Hkin]].
      assert (Hcases : k = new \/ In k g).
      { clear - Hkin. induction g as [| a g IHg]; [contradiction |].
        simpl in Hkin. destruct (Nat.eqb (id a) n); simpl in Hkin.
        - destruct Hkin as [<- | [<- | H]]; auto; right; [now left | now right].
        - destruct Hkin as [<- | H]; [right; now left |].
          destruct (IHg H); auto. right. now right. }
      destruct Hcases as [-> | Hkg].
      * apply Hnew. left. now symmetry.
      * apply Hi. rewrite <- Hk. now apply in_map.
    + apply IH; [exact Hg | tauto].
Qed.

(** What the visit of a binary operator does to the module: it may
    give the operator other flags, and then it may erase the operator,
    with its uses replaced, after it has or has not put an instruction
    of a fresh identity before it. *)
Lemma visitBinaryOperator_shape
      (mangleBuiltin : string -> list Ty -> string) (ctx : Context)
      (st st' : PassState) (x : Instruction) :
  visitBinaryOperator mangleBuiltin ctx st x = Some st' ->
  exists g1,
    (g1 = m_pModule st
     \/ exists F, g1 = copyFastMathFlags (m_pModule st) (id x) F)
    /\ (m_pModule st' = g1
        \/ (exists d,
               m_pModule st'
               = eraseFromParent (replaceAllUsesWith g1 (id x) d) (id x))
        \/ (exists new d,
               id new = freshId g1
               /\ m_pModule st'
                  = eraseFromParent
                      (replaceAllUsesWith (insertBefore g1 (id x) new) (id x) d)
                      (id x))).
Proof.
  unfold visitBinaryOperator.
  destruct (normalizeContract (m_pModule st) x) as [g1 |] eqn:Hn;
    [| discriminate].
  cbn [bind]. intros H. injection H as <-. exists g1. split.
  - destruct (normalizeContract_shape _ _ _ Hn) as [-> | [_ [F ->]]]; eauto.
  - destruct (rewriteBinaryOperator_cases mangleBuiltin ctx
                (mkState g1 (m_changed st)) x)
      as [[d [_ Hr]] | [[_ [a [b [_ [_ [_ Hr]]]]]] | [_ [_ Hr]]]];
      cbn [m_pModule] in Hr; rewrite Hr; cbn [m_pModule].
    + right. left. now exists d.
    + right. right. eexists. eexists. split; [| reflexivity]. reflexivity.
    + now left.
Qed.

Lemma visitBinaryOperator_keeps
      (mangleBuiltin : string -> list Ty -> string) (ctx : Context)
      (st st' : PassState) (x : Instruction) :
  NoDup (map id (m_pModule st)) ->
  visitBinaryOperator mangleBuiltin ctx st x = Some st' ->
  NoDup (map id (m_pModule st'))
  /\ forall j, In j (m_pModule st) -> id j <> id x ->
               exists j', In j' (m_pModule st') /\ sameButOperands j j'.
Proof.
  intros Hnd Hv.
  destruct (visitBinaryOperator_shape _ _ _ _ _ Hv) as [g1 [Hg1 Hg']].
  assert (H1 : NoDup (map id g1)
               /\ forall j, In j (m_pModule st) -> id j <> id x -> In j g1).
  { destruct Hg1 as [-> | [F ->]]; [auto |].
    split; [now rewrite copyFastMathFlags_ids |].
    intros j Hj Hne. now apply In_copyFastMathFlags. }
  destruct H1 as [Hnd1 Hin1].
  destruct Hg' as [-> | [[d ->] | [new [d [Hnew ->]]]]].
  - split; [exact Hnd1 |]. intros j Hj Hne. exists j.
    split; [now apply Hin1 | apply sameButOperands_refl].
  - split; [apply NoDup_eraseFromParent; now rewrite replaceAllUsesWith_ids |].
    intros j Hj Hne.
    destruct (In_replaceAllUsesWith g1 (id x) d j (Hin1 j Hj Hne))
      as [j' [Hj' S]].
    exists j'. split; [| exact S]. apply In_eraseFromParent.
    split; [exact Hj' |].
    destruct (sameButOperands_fields _ _ S) as [E _]. congruence.
  - split.
    + apply NoDup_eraseFromParent. rewrite replaceAllUsesWith_ids.
      apply NoDup_insertBefore; [exact Hnd1 |]. rewrite Hnew.
      intros Hin. apply in_map_iff in Hin. destruct Hin as [k [Hk Hkin]].
      exact (freshId_fresh g1 k Hkin Hk).
    + intros j Hj Hne.
      destruct (In_replaceAllUsesWith (insertBefore g1 (id x) new) (id x) d j)
        as [j' [Hj' S]]; [apply In_insertBefore; now apply Hin1 |].
      exists j'. split; [| exact S]. apply In_eraseFromParent.
      split; [exact Hj' |].
      destruct (sameButOperands_fields _ _ S) as [E _]. congruence.
Qed.

Lemma isBinaryOperator_same (i i' : Instruction) :
  sameButOperands i i' -> isBinaryOperator i' = isBinaryOperator i.
Proof.
  intros H. destruct (sameButOperands_fields _ _ H) as [_ [_ [Ho _]]].
  unfold isBinaryOperator. now rewrite Ho.
Qed.

Lemma visitInstructions_keeps
      (mangleBuiltin : string -> list Ty -> string) (ctx : Context) :
  forall ids st st',
    NoDup (map id (m_pModule st)) ->
    visitInstructions mangleBuiltin ctx ids st = Some st' ->
    forall j, In j (m_pModule st) -> isBinaryOperator j = false ->
              exists j', In j' (m_pModule st') /\ sameButOperands j j'.
Proof.
  induction ids as [| n ids IH]; intros st st' Hnd H j Hj Hb.
  - injection H as <-. exists j. split; [exact Hj | apply sameButOperands_refl].
  - cbn [visitInstructions] in H.
    destruct (lookup (m_pModule st) n) as [x |] eqn:Hl;
      [| exact (IH _ _ Hnd H j Hj Hb)].
    destruct (isBinaryOperator x) eqn:Hx; [| exact (IH _ _ Hnd H j Hj Hb)].
    destruct (visitBinaryOperator mangleBuiltin ctx st x) as [st1 |] eqn:Hv;
      [| discriminate].
    cbn [bind] in H.
    destruct (visitBinaryOperator_keeps _ _ _ _ _ Hnd Hv) as [Hnd1 Hk].
    destruct (Hk j Hj) as [j1 [Hj1 S1]].
    { intros E. destruct (lookup_In _ _ _ Hl) as [Hxin _].
      rewrite (NoDup_id_inj _ _ _ Hnd Hj Hxin E) in Hb. congruence. }
    destruct (IH st1 st' Hnd1 H j1 Hj1) as [j' [Hj' S']].
    { rewrite (isBinaryOperator_same _ _ S1). exact Hb. }
    exists j'. split; [exact Hj' | eapply sameButOperands_trans; eassumption].
Qed.

(** X9: the pass removes no terminator, and no other instruction than a
    binary operator that has side effects or lies outside the entry
    point: on a module laid out with its definitions before their
    uses, in which every call of the entry point is a direct call if
    the folding loop runs with the 16-bit flush flag set, the pass
    returns, and every such instruction is still in the module it
    returns, with everything it had but for its operands. *)
Theorem runOnModule_keeps
        (ConstantFoldInstruction : Instruction -> option Constant)
        (mangleBuiltin : string -> list Ty -> string)
        (SPIRVTW_16Bit SPIRVTW_32Bit SPIRVTW_64Bit : Z) (ctx : Context)
        (module : Module) :
  NoDup (map id module) -> definedBeforeUse [] module ->
  calleesKnown SPIRVTW_16Bit ctx module ->
  exists changed module',
    runOnModule ConstantFoldInstruction mangleBuiltin
                SPIRVTW_16Bit SPIRVTW_32Bit SPIRVTW_64Bit ctx module
    = Some (changed, module')
    /\ forall j, In j module ->
                 isBinaryOperator j = false ->
                 isTerminator j = true \/ mayHaveSideEffects j = true
                 \/ parent j <> m_pEntryPoint ctx ->
                 exists j', In j' module' /\ sameButOperands j j'.
Proof.
  intros Hnd Hdbu Hknown.
  destruct (runOnModule_settles ConstantFoldInstruction mangleBuiltin
              SPIRVTW_16Bit SPIRVTW_32Bit SPIRVTW_64Bit ctx module Hnd Hdbu
              Hknown)
    as [c [g' [Hrun _]]].
  exists c, g'. split; [exact Hrun |].
  intros j Hj Hb Hk. unfold runOnModule in Hrun.
  destruct (if m_enableConstFolding ctx && negb (denormFlushToZero ctx =? 0)
            then foldConstants ConstantFoldInstruction SPIRVTW_16Bit
                   SPIRVTW_32Bit SPIRVTW_64Bit ctx (mkState module false)
            else Some (mkState module false)) as [st1 |] eqn:Hfold;
    [| discriminate].
  cbn [bind] in Hrun.
  assert (H1 : NoDup (map id (m_pModule st1))
               /\ exists j1, In j1 (m_pModule st1) /\ sameButOperands j j1).
  { destruct (_ && _).
    - destruct (foldConstants_invariant ConstantFoldInstruction SPIRVTW_16Bit
                  SPIRVTW_32Bit SPIRVTW_64Bit ctx module false st1 Hnd Hfold)
        as [Hnd1 [_ Hkept]].
      split; [exact Hnd1 |]. apply (Hkept j Hj). unfold keptByFolding.
      destruct Hk as [-> | [-> | Hp]];
        [reflexivity | now rewrite orb_true_r |].
      apply String.eqb_neq in Hp. rewrite Hp. apply orb_true_r.
    - injection Hfold as <-. split; [exact Hnd |]. exists j.
      split; [exact Hj | apply sameButOperands_refl]. }
  destruct H1 as [Hnd1 [j1 [Hj1 S1]]].
  destruct (m_enableFloatOpt ctx).
  - destruct (visit mangleBuiltin ctx st1) as [st2 |] eqn:Hv; [| discriminate].
    cbn [bind] in Hrun. injection Hrun as _ <-.
    destruct (visitInstructions_keeps mangleBuiltin ctx _ st1 st2 Hnd1 Hv
                j1 Hj1) as [j' [Hj' S']].
    { rewrite (isBinaryOperator_same _ _ S1). exact Hb. }
    exists j'. split; [exact Hj' | eapply sameButOperands_trans; eassumption].
  - cbn [bind] in Hrun. injection Hrun as _ <-. exists j1. auto.
Qed.

(** ** What the folding loop removes *)

Lemma lookup_member_any (g : Module) (k : Instruction) :
  In k g -> exists k', lookup g (id k) = Some k'.
Proof.
  intros Hk. destruct (lookup g (id k)) as [k' |] eqn:Hl; [eauto |].
  exfalso. unfold lookup in Hl.
  apply (find_none _ _ Hl k) in Hk. rewrite Nat.eqb_refl in Hk.
  discriminate.
Qed.

Lemma use_empty_replace_constant (g : Module) (n m : nat) (c : Constant) :
  use_empty g n = true ->
  use_empty (replaceAllUsesWith g m (VConst c)) n = true.
Proof.
  unfold use_empty, replaceAllUsesWith. rewrite !forallb_forall.
  intros H i' Hi'. apply in_map_iff in Hi'. destruct Hi' as [i [<- Hi]].
  specialize (H i Hi). simpl. apply negb_true_iff in H. apply negb_true_iff.
  induction (operands i) as [| o ops IH]; [reflexivity |].
  simpl in *. apply orb_false_iff in H. destruct H as [Ho Hops].
  rewrite (IH Hops), orb_false_r.
  destruct (isUseOf m o); [reflexivity | exact Ho].
Qed.

Lemma foldInstruction_ids
      (ConstantFoldInstruction : Instruction -> option Constant)
      (SPIRVTW_16Bit SPIRVTW_32Bit SPIRVTW_64Bit : Z) (ctx : Context)
      (st st' : PassState) (pInst : Instruction) (m : nat) :
  foldInstruction ConstantFoldInstruction
                  SPIRVTW_16Bit SPIRVTW_32Bit SPIRVTW_64Bit ctx st pInst
  = Some st' ->
  In m (map id (m_pModule st')) ->
  In m (map id (m_pModule st)).
Proof.
  intros Hstep.
  destruct (foldInstruction_shape _ _ _ _ _ _ _ _ Hstep) as [g1 [Hg1 Hg']].
  assert (H1 : map id g1 = map id (m_pModule st)).
  { destruct Hg1 as [-> | [c ->]];
      [reflexivity | apply replaceAllUsesWith_ids]. }
  destruct Hg' as [-> | [-> _]]; [now rewrite H1 |].
  rewrite eraseFromParent_ids, H1. intros H. apply filter_In in H. tauto.
Qed.

Lemma foldInstructions_ids
      (ConstantFoldInstruction : Instruction -> option Constant)
      (SPIRVTW_16Bit SPIRVTW_32Bit SPIRVTW_64Bit : Z) (ctx : Context)
      (m : nat) :
  forall ids st st',
    foldInstructions ConstantFoldInstruction
                     SPIRVTW_16Bit SPIRVTW_32Bit SPIRVTW_64Bit ctx ids st
    = Some st' ->
    In m (map id (m_pModule st')) ->
    In m (map id (m_pModule st)).
Proof.
  induction ids as [| n ids IH]; intros st st' H Hm.
  - now injection H as <-.
  - cbn [foldInstructions] in H.
    destruct (lookup (m_pModule st) n) as [pInst |]; [| exact (IH _ _ H Hm)].
    destruct (foldInstruction ConstantFoldInstruction SPIRVTW_16Bit
                SPIRVTW_32Bit SPIRVTW_64Bit ctx st pInst) as [st1 |] eqn:H1;
      [| discriminate].
    cbn [bind] in H.
    exact (foldInstruction_ids _ _ _ _ _ _ _ _ _ H1 (IH _ _ H Hm)).
Qed.

Lemma foldInstruction_use_empty
      (ConstantFoldInstruction : Instruction -> option Constant)
      (SPIRVTW_16Bit SPIRVTW_32Bit SPIRVTW_64Bit : Z) (ctx : Context)
      (st st' : PassState) (pInst : Instruction) (n : nat) :
  foldInstruction ConstantFoldInstruction
                  SPIRVTW_16Bit SPIRVTW_32Bit SPIRVTW_64Bit ctx st pInst
  = Some st' ->
  use_empty (m_pModule st) n = true ->
  use_empty (m_pModule st') n = true.
Proof.
  intros Hstep H.
  destruct (foldInstruction_shape _ _ _ _ _ _ _ _ Hstep) as [g1 [Hg1 Hg']].
  assert (H1 : use_empty g1 n = true).
  { destruct Hg1 as [-> | [c ->]];
      [exact H | now apply use_empty_replace_constant]. }
  destruct Hg' as [-> | [-> _]];
    [exact H1 | now apply use_empty_eraseFromParent].
Qed.

(** The loop on an instruction [j] that has no use: once the loop has
    met it, it is gone. *)
Lemma foldInstructions_removes_dead
      (ConstantFoldInstruction : Instruction -> option Constant)
      (SPIRVTW_16Bit SPIRVTW_32Bit SPIRVTW_64Bit : Z) (ctx : Context)
      (j : Instruction) :
  isTerminator j = false -> mayHaveSideEffects j = false ->
  forall ids st st',
    In (id j) ids ->
    use_empty (m_pModule st) (id j) = true ->
    (forall j', In j' (m_pModule st) -> id j' = id j -> sameButOperands j j') ->
    foldInstructions ConstantFoldInstruction
                     SPIRVTW_16Bit SPIRVTW_32Bit SPIRVTW_64Bit ctx ids st
    = Some st' ->
    ~ In (id j) (map id (m_pModule st')).
Proof.
  intros Hterm Hside.
  induction ids as [| n ids IH]; intros st st' Hin Hue Hsame Hrun;
    [contradiction |].
  cbn [foldInstructions] in Hrun.
  destruct (Nat.eq_dec n (id j)) as [-> | Hne].
  - (* the instruction is met *)
    intros Habs.
    destruct (lookup (m_pModule st) (id j)) as [pInst |] eqn:Hl.
    + destruct (foldInstruction ConstantFoldInstruction SPIRVTW_16Bit
                  SPIRVTW_32Bit SPIRVTW_64Bit ctx st pInst) as [st1 |] eqn:H1;
        [| discriminate].
      cbn [bind] in Hrun.
      apply (foldInstructions_ids _ _ _ _ _ _ _ _ _ Hrun) in Habs.
      destruct (lookup_In _ _ _ Hl) as [Hp Hpid].
      pose proof (Hsame pInst Hp Hpid) as S.
      destruct (sameButOperands_fields _ _ S) as [_ [_ [Ho Hs]]].
      assert (Hdead : isInstructionTriviallyDead (m_pModule st) pInst = true).
      { unfold isInstructionTriviallyDead, isTerminator in *.
        rewrite Hpid, Hue, Ho, Hs, Hterm, Hside. reflexivity. }
      unfold foldInstruction in H1. rewrite Hdead in H1.
      injection H1 as <-.
      cbn [m_pModule] in Habs. rewrite eraseFromParent_ids in Habs.
      apply filter_In in Habs. destruct Habs as [_ Habs].
      rewrite Hpid, Nat.eqb_refl in Habs. discriminate.
    + cbn [bind] in Hrun.
      apply (foldInstructions_ids _ _ _ _ _ _ _ _ _ Hrun) in Habs.
      apply in_map_iff in Habs. destruct Habs as [k [Hk Hkin]].
      pose proof (lookup_member_any (m_pModule st) k Hkin) as [k' Hk'].
      rewrite Hk in Hk'. congruence.
  - destruct Hin as [E | Hin]; [congruence |].
    destruct (lookup (m_pModule st) n) as [pInst |];
      [| exact (IH _ _ Hin Hue Hsame Hrun)].
    destruct (foldInstruction ConstantFoldInstruction SPIRVTW_16Bit
                SPIRVTW_32Bit SPIRVTW_64Bit ctx st pInst) as [st1 |] eqn:H1;
      [| discriminate].
    cbn [bind] in Hrun. apply (IH st1 st' Hin); [| | exact Hrun].
    + exact (foldInstruction_use_empty _ _ _ _ _ _ _ _ _ H1 Hue).
    + intros j' Hj' Hid.
      destruct (foldInstruction_shape _ _ _ _ _ _ _ _ H1)
        as [g1 [Hg1 Hg']].
      assert (Hj1 : In j' g1).
      { destruct Hg' as [E | [E _]]; rewrite E in Hj'; [exact Hj' |].
        apply In_eraseFromParent in Hj'. tauto. }
      destruct Hg1 as [-> | [c ->]]; [now apply Hsame |].
      apply replaceAllUsesWith_In in Hj1. destruct Hj1 as [k [Hk S]].
      destruct (sameButOperands_fields _ _ S) as [Hidk _].
      eapply sameButOperands_trans; [| exact S].
      apply Hsame; [exact Hk | congruence].
Qed.

(** X10: an instruction of the entry point that is trivially dead when
    the folding loop starts (no use, no side effect, not a terminator)
    is not in the module when the loop ends.  And the loop does end if
    every call of the entry point is a direct call or the 16-bit flush
    flag is clear. *)
Theorem foldConstants_removes_dead
        (ConstantFoldInstruction : Instruction -> option Constant)
        (SPIRVTW_16Bit SPIRVTW_32Bit SPIRVTW_64Bit : Z) (ctx : Context)
        (module : Module) (changed : bool) (j : Instruction) :
  NoDup (map id module) ->
  In j module ->
  parent j = m_pEntryPoint ctx ->
  isInstructionTriviallyDead module j = true ->
  let loop := foldConstants ConstantFoldInstruction SPIRVTW_16Bit
                SPIRVTW_32Bit SPIRVTW_64Bit ctx (mkState module changed) in
  (m_enableConstFolding ctx = true ->
   calleesKnown SPIRVTW_16Bit ctx module ->
   exists st', loop = Some st')
  /\ forall st', loop = Some st' -> lookup (m_pModule st') (id j) = None.
Proof.
  intros Hnd Hj Hpar Hdead. cbv zeta. split;
    [intros Hsw Hknown; now apply foldConstants_returns |].
  intros st' Hrun. apply lookup_none.
  unfold isInstructionTriviallyDead in Hdead.
  apply andb_true_iff in Hdead. destruct Hdead as [Hdead Hside].
  apply andb_true_iff in Hdead. destruct Hdead as [Hue Hterm].
  apply negb_true_iff in Hside. apply negb_true_iff in Hterm.
  unfold foldConstants in Hrun. cbn [m_pModule] in Hrun.
  apply (foldInstructions_removes_dead ConstantFoldInstruction SPIRVTW_16Bit
           SPIRVTW_32Bit SPIRVTW_64Bit ctx j Hterm Hside
           (entryInstructions ctx module)
           (mkState module changed) st'); [| exact Hue | | exact Hrun].
  - unfold entryInstructions. apply in_map. apply filter_In.
    split; [exact Hj | now apply String.eqb_eq].
  - intros j' Hj' E. cbn [m_pModule] in Hj'.
    rewrite (NoDup_id_inj module j' j Hnd Hj' Hj E).
    apply sameButOperands_refl.
Qed.

(** ** The size of the module *)

Lemma length_eraseFromParent (g : Module) (n : nat) :
  (List.length (eraseFromParent g n) <= List.length g)%nat.
Proof. apply filter_length_le. Qed.

Lemma length_replaceAllUsesWith (g : Module) (n : nat) (v : Value) :
  List.length (replaceAllUsesWith g n v) = List.length g.
Proof. apply length_map. Qed.

Lemma length_call_for_division (g : Module) (n : nat) (new : Instruction)
      (d : Value) :
  (List.length
     (eraseFromParent (replaceAllUsesWith (insertBefore g n new) n d) n)
   <= List.length g)%nat.
Proof.
  induction g as [| i g IH]; [simpl; lia |].
  cbn [insertBefore]. destruct (Nat.eqb (id i) n) eqn:E.
  - pose proof (length_eraseFromParent (replaceAllUsesWith g n d) n) as H.
    rewrite length_replaceAllUsesWith in H.
    unfold eraseFromParent, replaceAllUsesWith in *. simpl. rewrite E.
    simpl. destruct (negb (Nat.eqb (id new) n)); simpl; lia.
  - unfold eraseFromParent, replaceAllUsesWith in *. simpl. rewrite E.
    simpl. lia.
Qed.

Lemma foldInstructions_length
      (ConstantFoldInstruction : Instruction -> option Constant)
      (SPIRVTW_16Bit SPIRVTW_32Bit SPIRVTW_64Bit : Z) (ctx : Context) :
  forall ids st st',
    foldInstructions ConstantFoldInstruction
                     SPIRVTW_16Bit SPIRVTW_32Bit SPIRVTW_64Bit ctx ids st
    = Some st' ->
    (List.length (m_pModule st') <= List.length (m_pModule st))%nat.
Proof.
  induction ids as [| n ids IH]; intros st st' H.
  - injection H as <-. lia.
  - cbn [foldInstructions] in H.
    destruct (lookup (m_pModule st) n) as [pInst |]; [| exact (IH _ _ H)].
    destruct (foldInstruction ConstantFoldInstruction SPIRVTW_16Bit
                SPIRVTW_32Bit SPIRVTW_64Bit ctx st pInst) as [st1 |] eqn:H1;
      [| discriminate].
    cbn [bind] in H. etransitivity; [exact (IH _ _ H) |].
    destruct (foldInstruction_shape _ _ _ _ _ _ _ _ H1) as [g1 [Hg1 Hg']].
    cbv zeta in Hg1, Hg'.
    assert (E1 : List.length g1 = List.length (m_pModule st)).
    { destruct Hg1 as [-> | [c ->]];
        [reflexivity | apply length_replaceAllUsesWith]. }
    destruct Hg' as [-> | [-> _]]; [lia |].
    rewrite <- E1. apply length_eraseFromParent.
Qed.

Lemma visitInstructions_length
      (mangleBuiltin : string -> list Ty -> string) (ctx : Context) :
  forall ids st st',
    visitInstructions mangleBuiltin ctx ids st = Some st' ->
    (List.length (m_pModule st') <= List.length (m_pModule st))%nat.
Proof.
  induction ids as [| n ids IH]; intros st st' H.
  - injection H as <-. lia.
  - cbn [visitInstructions] in H.
    destruct (lookup (m_pModule st) n) as [x |]; [| exact (IH _ _ H)].
    destruct (isBinaryOperator x); [| exact (IH _ _ H)].
    destruct (visitBinaryOperator mangleBuiltin ctx st x) as [st1 |] eqn:Hv;
      [| discriminate].
    cbn [bind] in H. etransitivity; [exact (IH _ _ H) |].
    destruct (visitBinaryOperator_shape _ _ _ _ _ Hv) as [g1 [Hg1 Hg']].
    assert (H1 : List.length g1 = List.length (m_pModule st)).
    { destruct Hg1 as [-> | [F ->]]; [reflexivity |].
      unfold copyFastMathFlags. apply length_map. }
    destruct Hg' as [-> | [[d ->] | [new [d [_ ->]]]]]; [lia | |].
    + rewrite <- H1. etransitivity; [apply length_eraseFromParent |].
      rewrite length_replaceAllUsesWith. lia.
    + rewrite <- H1. apply length_call_for_division.
Qed.

(** X11: the pass never makes the module longer: the module it returns
    has at most as many instructions as the module it was given (a
    division gives way to its call one for one, everything else is
    kept or removed).  The module is laid out with its definitions
    before their uses, and every call of the entry point is a direct
    call if the folding loop runs with the 16-bit flush flag set. *)
Theorem runOnModule_never_grows
        (ConstantFoldInstruction : Instruction -> option Constant)
        (mangleBuiltin : string -> list Ty -> string)
        (SPIRVTW_16Bit SPIRVTW_32Bit SPIRVTW_64Bit : Z) (ctx : Context)
        (module : Module) :
  NoDup (map id module) -> definedBeforeUse [] module ->
  calleesKnown SPIRVTW_16Bit ctx module ->
  exists changed module',
    runOnModule ConstantFoldInstruction mangleBuiltin
                SPIRVTW_16Bit SPIRVTW_32Bit SPIRVTW_64Bit ctx module
    = Some (changed, module')
    /\ (List.length module' <= List.length module)%nat.
Proof.
  intros Hnd Hdbu Hknown.
  destruct (runOnModule_settles ConstantFoldInstruction mangleBuiltin
              SPIRVTW_16Bit SPIRVTW_32Bit SPIRVTW_64Bit ctx module Hnd Hdbu
              Hknown)
    as [c [g' [Hrun _]]].
  exists c, g'. split; [exact Hrun |]. unfold runOnModule in Hrun.
  destruct (if m_enableConstFolding ctx && negb (denormFlushToZero ctx =? 0)
            then foldConstants ConstantFoldInstruction SPIRVTW_16Bit
                   SPIRVTW_32Bit SPIRVTW_64Bit ctx (mkState module false)
            else Some (mkState module false)) as [st1 |] eqn:Hfold;
    [| discriminate].
  cbn [bind] in Hrun.
  assert (H1 : (List.length (m_pModule st1) <= List.length module)%nat).
  { destruct (_ && _); [| injection Hfold as <-; simpl; lia].
    unfold foldConstants in Hfold.
    exact (foldInstructions_length ConstantFoldInstruction SPIRVTW_16Bit
             SPIRVTW_32Bit SPIRVTW_64Bit ctx _ (mkState module false) st1
             Hfold). }
  destruct (m_enableFloatOpt ctx).
  - destruct (visit mangleBuiltin ctx st1) as [st2 |] eqn:Hv; [| discriminate].
    cbn [bind] in Hrun. injection Hrun as _ <-.
    pose proof (visitInstructions_length _ _ _ _ _ Hv). lia.
  - cbn [bind] in Hrun. injection Hrun as _ <-. exact H1.
Qed.

(* ================================================================== *)
(** * The second run *)
(* ================================================================== *)

(** ** The binary operators of a module under the steps of the visit *)









(** ** The order of the binary operators *)




(** ** The query on two modules that agree below a rank *)



(** ** One visit, seen on the binary operators of the module *)






(* ================================================================== *)
(** * The properties on the examples *)
(* ================================================================== *)

Lemma folded_denormal_flushed_witness :
  let st := mkState Examples.gCast false in
  let st' := substitute Examples.gCast Examples.castDenormal
               (ConstantFP (APFloat.makeZero APFloat.IEEEsingle false)) in
  (use_empty Examples.gCast 1 = false
   /\ Examples.foldBitCast Examples.castDenormal = Some (ConstantFP negDenormal)
   /\ APFloat.isDenormal negDenormal = true)
  /\ flushFolded Examples.SPIRVTW_16Bit Examples.SPIRVTW_32Bit
                 Examples.SPIRVTW_64Bit Examples.flush32
                 FloatTy (ConstantFP negDenormal)
     = ConstantFP (APFloat.makeZero APFloat.IEEEsingle false)
  /\ foldInstruction Examples.foldBitCast Examples.SPIRVTW_16Bit
       Examples.SPIRVTW_32Bit Examples.SPIRVTW_64Bit Examples.flush32
       st Examples.castDenormal = Some st'
  /\ m_changed st' = true
  /\ use_empty (m_pModule st') 1 = true.
Proof.
  split; [repeat split |].
  apply (folded_denormal_flushed Examples.foldBitCast Examples.SPIRVTW_16Bit
           Examples.SPIRVTW_32Bit Examples.SPIRVTW_64Bit Examples.flush32
           (mkState Examples.gCast false) Examples.castDenormal
           APFloat.IEEEsingle negDenormal (ConstantInt 32 0x80000001) []);
    try reflexivity.
  vm_compute. discriminate.
Defined.

(** C1, as stated, fails.  The folded constant of
    [bitcast i32 0x80000001 to float] is a negative denormal and the
    32-bit flush flag is set, yet what replaces the instruction is +0.0
    and not the zero of the sign of the denormal.  And the folded
    constant of a bitcast to [<2 x float>] whose lanes are both
    denormal replaces the instruction as it is, no lane flushed. *)
Lemma flushed_zero_sign_counterexample :
  (Examples.foldBitCast Examples.castDenormal = Some (ConstantFP negDenormal)
   /\ isFiniteNonZeroFP (ConstantFP negDenormal) = true
   /\ APFloat.isDenormal negDenormal = true
   /\ APFloat.sign negDenormal = true
   /\ Z.land (denormFlushToZero Examples.flush32) Examples.SPIRVTW_32Bit <> 0
   /\ runOnModule Examples.foldBitCast Examples.mangle Examples.SPIRVTW_16Bit
                  Examples.SPIRVTW_32Bit Examples.SPIRVTW_64Bit Examples.flush32
                  Examples.gCast
      = Some (true, [Examples.ret 2 [Examples.posZero]])
   /\ Examples.posZero <> VConst (signedZeroLike negDenormal))
  /\ (let lanes := ConstantVector
                     [ConstantFP (APFloat.ofBits APFloat.IEEEsingle 1);
                      ConstantFP negDenormal] in
      Examples.foldBitCast Examples.castDenormals = Some lanes
      /\ isFPOrFPVectorTy (ty Examples.castDenormals) = true
      /\ isFiniteNonZeroFP lanes = true
      /\ isNormalFP lanes = false
      /\ runOnModule Examples.foldBitCast Examples.mangle Examples.SPIRVTW_16Bit
                     Examples.SPIRVTW_32Bit Examples.SPIRVTW_64Bit
                     Examples.flush32 Examples.gCastVector
         = Some (true, [Examples.ret 2 [VConst lanes]])).
Proof.
  split.
  - repeat split; try (vm_compute; discriminate).
  - cbv zeta. repeat split.
Qed.

Lemma unpackHalf2x16_folded_witness :
  let st := mkState Examples.gUnpack false in
  let lo := Z.land 0x3C008001 0xFFFF in
  let hi := Z.land (Z.shiftr 0x3C008001 16) 0xFFFF in
  let packed := ConstantVector_get [ConstantFP (laneOf lo); ConstantFP (laneOf hi)] in
  let st' := substitute Examples.gUnpack Examples.unpackCall packed in
  (use_empty Examples.gUnpack 1 = false
   /\ Examples.foldBitCast Examples.unpackCall = None)
  /\ foldInstruction Examples.foldBitCast Examples.SPIRVTW_16Bit
       Examples.SPIRVTW_32Bit Examples.SPIRVTW_64Bit Examples.flush16
       st Examples.unpackCall = Some st'
  /\ m_changed st' = true
  /\ use_empty (m_pModule st') 1 = true
  /\ Constant_getType packed = VectorTy FloatTy 2
  /\ getAggregateElement packed 0 = Some (ConstantFP (laneOf lo))
  /\ getAggregateElement packed 1 = Some (ConstantFP (laneOf hi))
  /\ laneSpec lo /\ laneSpec hi.
Proof.
  split; [repeat split |].
  apply (unpackHalf2x16_folded Examples.foldBitCast Examples.SPIRVTW_16Bit
           Examples.SPIRVTW_32Bit Examples.SPIRVTW_64Bit Examples.flush16
           (mkState Examples.gUnpack false) Examples.unpackCall 32 0x3C008001);
    try reflexivity.
  vm_compute. discriminate.
Defined.

(** C2, as stated, fails: the low lane of 0x3C008001 is the smallest
    negative half denormal, and the lane of the vector that replaces
    the call is +0.0, not -0.0; the high lane is 1.0. *)
Lemma unpack_zero_sign_counterexample :
  APFloat.isDenormal (lowHalf 0x3C008001) = true
  /\ APFloat.sign (lowHalf 0x3C008001) = true
  /\ APFloat.isDenormal (highHalf 0x3C008001) = false
  /\ Z.land (denormFlushToZero Examples.flush16) Examples.SPIRVTW_16Bit <> 0
  /\ runOnModule Examples.foldBitCast Examples.mangle Examples.SPIRVTW_16Bit
                 Examples.SPIRVTW_32Bit Examples.SPIRVTW_64Bit Examples.flush16
                 Examples.gUnpack
     = Some (true,
             [Examples.ret 2
                [VConst (ConstantVector
                           [ConstantFP (APFloat.makeZero APFloat.IEEEsingle false);
                            ConstantFP (APFloat.ofBits APFloat.IEEEsingle
                                                       0x3F800000)])]])
  /\ APFloat.makeZero APFloat.IEEEsingle false
     <> APFloat.makeZero APFloat.IEEEsingle (APFloat.sign (lowHalf 0x3C008001)).
Proof.
  repeat split; try (vm_compute; discriminate).
Qed.




(** The other half of C5 on an example: the chain of the first operand
    of [%2 = fadd contract float %1, %c] passes through
    [%1 = fmul nnan float %a, %b], which has a flag but not the contract
    one, and both flags of the [fadd] are cleared. *)
Lemma contract_flags_cleared :
  Answers Examples.gChain (VInst 1) true
  /\ normalizeContract Examples.gChain Examples.faddAfterMul
     = Some [Examples.fmulNoContract; setFlags Examples.faddAfterMul 0;
             Examples.ret 3 [VInst 2%nat]].
Proof.
  split; [exists 1%nat; reflexivity | reflexivity].
Qed.

Lemma IsOperandNoContract_characterisation_witness :
  Answers Examples.gChain (VArg 0 FloatTy) false
  /\ Answers Examples.gChain (VInst 1) true
  /\ (Answers Examples.gChain (VInst 2) true <->
      Answers Examples.gChain (VInst 1) true).
Proof.
  split; [| split].
  - apply (proj1 (IsOperandNoContract_characterisation
                    Examples.gChain (VArg 0 FloatTy))).
    reflexivity.
  - apply (proj1 (proj2 (IsOperandNoContract_characterisation
                           Examples.gChain (VInst 1)))
             Examples.fmulNoContract); reflexivity.
  - apply (proj1 (proj2 (proj2 (IsOperandNoContract_characterisation
                                  Examples.gChain (VInst 2))))
             Examples.faddAfterMul); reflexivity.
Defined.

Lemma gChain_acyclic : Acc (firstOperandOf Examples.gChain) (VInst 2).
Proof.
  apply (Acc_first_operand _ _ (VInst 1) Examples.faddAfterMul);
    [reflexivity | reflexivity |].
  apply (Acc_first_operand _ _ (VArg 0 FloatTy) Examples.fmulNoContract);
    [reflexivity | reflexivity |].
  apply Acc_not_binary. reflexivity.
Qed.

Lemma IsOperandNoContract_terminates_witness :
  exists b,
    IsOperandNoContract (chainFuel Examples.gChain) Examples.gChain (VInst 2)
    = Some b
    /\ forall fuel, (chainFuel Examples.gChain <= fuel)%nat ->
                    IsOperandNoContract fuel Examples.gChain (VInst 2) = Some b.
Proof.
  apply (IsOperandNoContract_terminates Examples.gChain (VInst 2)).
  exact gChain_acyclic.
Defined.

Lemma gNegZero_acyclic (v : Value) :
  In v (operands Examples.faddNegZero) ->
  Acc (firstOperandOf Examples.gNegZero) v.
Proof.
  intros [<- | [<- | []]]; apply Acc_not_binary; reflexivity.
Qed.


Lemma division_fallback_witness :
  identityOperand Examples.flush32 (BinaryOp FDiv)
                  (Some (VArg 0 FloatTy)) (Some (VArg 1 FloatTy)) = None
  /\ visitBinaryOperator Examples.mangle Examples.flush32
       (mkState Examples.gDiv false) Examples.fdivArgs
     = Some (mkState
               [ mkInst 3 Examples.main Call FloatTy
                        [VArg 0 FloatTy; VArg 1 FloatTy;
                         VConst (Function "_Z4fdivff")] 0 true;
                 Examples.ret 2 [VInst 3%nat] ]
               true).
Proof.
  split; [reflexivity |].
  apply (proj1 (division_fallback Examples.mangle Examples.flush32
                  (mkState Examples.gDiv false) Examples.fdivArgs
                  (VArg 0 FloatTy) (VArg 1 FloatTy)
                  eq_refl eq_refl eq_refl)).
Defined.

Lemma negative_zero_identity_witness :
  preservationOff Examples.plain
  /\ isConstZero (Some Examples.negZero) = true
  /\ identityOperand Examples.plain (BinaryOp FMul)
                     (Some (VArg 0 FloatTy)) (Some Examples.negZero)
     = Some Examples.negZero
  /\ exists g1,
      normalizeContract Examples.gNegZero Examples.faddNegZero = Some g1
      /\ visitBinaryOperator Examples.mangle Examples.plain
           (mkState Examples.gNegZero false) Examples.faddNegZero
         = Some (mkState
                   (eraseFromParent
                      (replaceAllUsesWith g1 1 (VArg 0 FloatTy)) 1)
                   true).
Proof.
  assert (Hoff : preservationOff Examples.plain) by (split; reflexivity).
  pose proof (negative_zero_identity Examples.mangle Examples.plain
                APFloat.IEEEsingle Hoff)
    as [Hz [_ [_ [Hids Hvisit]]]].
  split; [exact Hoff |]. split; [exact (Hz true) |].
  split; [exact (proj1 (proj2 (proj2 (proj2
                   (Hids (VArg 0 FloatTy) true eq_refl))))) |].
  apply (Hvisit (VArg 0 FloatTy) (mkState Examples.gNegZero false)
                Examples.faddNegZero);
    [reflexivity | reflexivity | reflexivity | exact gNegZero_acyclic].
Defined.

(** What the pass does with [fadd float %a, -0.0; ret]: the return gets
    [%a]. *)
Lemma negative_zero_run :
  runOnModule Examples.foldBitCast Examples.mangle Examples.SPIRVTW_16Bit
              Examples.SPIRVTW_32Bit Examples.SPIRVTW_64Bit Examples.plain
              Examples.gNegZero
  = Some (true, [Examples.ret 2 [VArg 0 FloatTy]]).
Proof. reflexivity. Qed.

(** C7 fails on the code: the pass rewrites the fast-math flags of
    [fadd contract float %a, %b] (32 becomes 33) and nothing else, and
    returns false, although the module is no longer the one it was
    given. *)
Theorem changed_flag_missed_on_flag_rewrite :
  runOnModule Examples.foldBitCast Examples.mangle Examples.SPIRVTW_16Bit
              Examples.SPIRVTW_32Bit Examples.SPIRVTW_64Bit Examples.plain
              Examples.gContract
  = Some (false, [setFlags Examples.faddContract 33; Examples.ret 2 [VInst 1%nat]])
  /\ [setFlags Examples.faddContract 33; Examples.ret 2 [VInst 1%nat]]
     <> Examples.gContract.
Proof.
  split; [reflexivity | discriminate].
Qed.

Lemma gChain_layout :
  NoDup (map id Examples.gChain) /\ definedBeforeUse [] Examples.gChain.
Proof.
  split.
  - repeat constructor; simpl; intuition discriminate.
  - simpl. repeat split; intros m H; simpl in H;
      repeat (destruct H as [H | H]; try discriminate H;
              try (injection H as <-; simpl; tauto)); contradiction.
Qed.




(** In the module of the second half of the counterexample the binary
    operator [%1] is laid out before its operand [%2], a binary operator
    too. *)
Lemma gLayout_operators : ~ operatorsAfterOperands Examples.gLayout.
Proof.
  simpl. intros [_ [H _]].
  apply (H eq_refl
           (mkInst 2 Examples.main (BinaryOp FMul) FloatTy
                   [VArg 0 FloatTy; Examples.posZero] 0 false));
    simpl; auto.
Qed.

(** The folding loop on a call through a pointer: with the 16-bit flush
    flag set it asks a null called function for its name, and the run
    has no result; with the flag clear it passes the call by. *)
Lemma indirect_call_run :
  getCalledFunction (mkInst 1 Examples.main Call FloatTy
                            [VConst (ConstantInt 32 0); VArg 0 OtherTy] 0 true)
  = None
  /\ runOnModule Examples.foldBitCast Examples.mangle Examples.SPIRVTW_16Bit
                 Examples.SPIRVTW_32Bit Examples.SPIRVTW_64Bit Examples.flush16
                 Examples.gIndirect
     = None
  /\ runOnModule Examples.foldBitCast Examples.mangle Examples.SPIRVTW_16Bit
                 Examples.SPIRVTW_32Bit Examples.SPIRVTW_64Bit Examples.flush32
                 Examples.gIndirect
     = Some (false, Examples.gIndirect).
Proof. repeat split. Qed.

(** ** The further properties on the examples *)

Ltac layout :=
  split;
  [ repeat constructor; simpl; intuition discriminate
  | simpl; repeat split; intros m H; simpl in H;
    repeat (destruct H as [H | H]; try discriminate H;
            try (injection H as <-; simpl; tauto));
    contradiction ].

Lemma gDiv_layout :
  NoDup (map id Examples.gDiv) /\ definedBeforeUse [] Examples.gDiv.
Proof. layout. Qed.

Lemma gContract_layout :
  NoDup (map id Examples.gContract) /\ definedBeforeUse [] Examples.gContract.
Proof. layout. Qed.

Lemma gNegZero_layout :
  NoDup (map id Examples.gNegZero) /\ definedBeforeUse [] Examples.gNegZero.
Proof. layout. Qed.

Lemma gDead_layout :
  NoDup (map id Examples.gDead) /\ definedBeforeUse [] Examples.gDead.
Proof. layout. Qed.

Lemma gUnpack_layout :
  NoDup (map id Examples.gUnpack) /\ definedBeforeUse [] Examples.gUnpack.
Proof. layout. Qed.

(** The call of the example is a direct call. *)
Lemma gUnpack_callees :
  calleesKnown Examples.SPIRVTW_16Bit Examples.flush16 Examples.gUnpack.
Proof.
  intros _ _ i [<- | [<- | []]] _ Hop;
    [eexists; reflexivity | discriminate Hop].
Qed.

(** With the 16-bit flush flag clear the loop looks at no callee. *)
Lemma flag16_clear_callees (ctx : Context) (g : Module) :
  Z.land (denormFlushToZero ctx) Examples.SPIRVTW_16Bit = 0 ->
  calleesKnown Examples.SPIRVTW_16Bit ctx g.
Proof. intros E _ N. contradiction. Qed.

Lemma runOnModule_keeps_layout_witness :
  exists changed module',
    runOnModule Examples.foldBitCast Examples.mangle Examples.SPIRVTW_16Bit
                Examples.SPIRVTW_32Bit Examples.SPIRVTW_64Bit
                Examples.flush16 Examples.gUnpack
    = Some (changed, module')
    /\ NoDup (map id module')
    /\ definedBeforeUse [] module'
    /\ (forall x m, In x module' -> In (VInst m) (operands x) ->
                    exists y, In y module' /\ id y = m).
Proof.
  apply (runOnModule_keeps_layout Examples.foldBitCast Examples.mangle
           Examples.SPIRVTW_16Bit Examples.SPIRVTW_32Bit Examples.SPIRVTW_64Bit
           Examples.flush16 Examples.gUnpack);
    [exact (proj1 gUnpack_layout) | exact (proj2 gUnpack_layout)
     | exact gUnpack_callees].
Defined.

Lemma no_division_left_witness :
  exists changed module',
    runOnModule Examples.foldBitCast Examples.mangle Examples.SPIRVTW_16Bit
                Examples.SPIRVTW_32Bit Examples.SPIRVTW_64Bit
                Examples.flush32 Examples.gDiv
    = Some (changed, module')
    /\ forall x a b, In x module' -> operands x = [a; b] ->
                     opcode x <> BinaryOp FDiv.
Proof.
  apply (no_division_left Examples.foldBitCast Examples.mangle
           Examples.SPIRVTW_16Bit Examples.SPIRVTW_32Bit Examples.SPIRVTW_64Bit
           Examples.flush32 Examples.gDiv);
    [reflexivity | exact (proj1 gDiv_layout) | exact (proj2 gDiv_layout)
     | apply flag16_clear_callees; reflexivity].
Defined.

Lemma contract_flags_settled_witness :
  exists changed module',
    runOnModule Examples.foldBitCast Examples.mangle Examples.SPIRVTW_16Bit
                Examples.SPIRVTW_32Bit Examples.SPIRVTW_64Bit
                Examples.plain Examples.gContract
    = Some (changed, module')
    /\ forall x, In x module' -> opcode x = BinaryOp FAdd ->
                 FastMathFlags.allowContract (SubclassOptionalData x) = true ->
                 FastMathFlags.allowReassoc (SubclassOptionalData x) = true
                 /\ forall v, getOperand x 0 = Some v \/ getOperand x 1 = Some v ->
                              Answers module' v false.
Proof.
  apply (contract_flags_settled Examples.foldBitCast Examples.mangle
           Examples.SPIRVTW_16Bit Examples.SPIRVTW_32Bit Examples.SPIRVTW_64Bit
           Examples.plain Examples.gContract);
    [reflexivity | exact (proj1 gContract_layout)
     | exact (proj2 gContract_layout)
     | apply flag16_clear_callees; reflexivity].
Defined.

Lemma no_identity_left_witness :
  exists changed module',
    runOnModule Examples.foldBitCast Examples.mangle Examples.SPIRVTW_16Bit
                Examples.SPIRVTW_32Bit Examples.SPIRVTW_64Bit
                Examples.plain Examples.gNegZero
    = Some (changed, module')
    /\ forall x a b, In x module' -> operands x = [a; b] ->
         (opcode x = BinaryOp FAdd \/ opcode x = BinaryOp FMul ->
          isConstZero (Some a) = false /\ isConstZero (Some b) = false)
         /\ (opcode x = BinaryOp FSub -> isConstZero (Some b) = false).
Proof.
  apply (no_identity_left Examples.foldBitCast Examples.mangle
           Examples.SPIRVTW_16Bit Examples.SPIRVTW_32Bit Examples.SPIRVTW_64Bit
           Examples.plain Examples.gNegZero);
    [reflexivity | split; reflexivity | exact (proj1 gNegZero_layout)
     | exact (proj2 gNegZero_layout)].
Defined.

Lemma unreported_changes_are_flags_witness :
  Forall2 flagsOnly Examples.gContract
          [setFlags Examples.faddContract 33; Examples.ret 2 [VInst 1%nat]].
Proof.
  apply (unreported_changes_are_flags Examples.foldBitCast Examples.mangle
           Examples.SPIRVTW_16Bit Examples.SPIRVTW_32Bit Examples.SPIRVTW_64Bit
           Examples.plain Examples.gContract);
    [exact (proj1 gContract_layout) | reflexivity].
Defined.

Lemma foldConstants_keeps_witness :
  exists st',
    foldConstants Examples.foldBitCast Examples.SPIRVTW_16Bit
      Examples.SPIRVTW_32Bit Examples.SPIRVTW_64Bit
      Examples.flush32 (mkState Examples.gDead false) = Some st'
    /\ (forall j', In j' (m_pModule st') ->
                   exists j, In j Examples.gDead /\ sameButOperands j j')
    /\ (forall j, In j Examples.gDead ->
                  isTerminator j = true \/ mayHaveSideEffects j = true
                  \/ parent j <> m_pEntryPoint Examples.flush32 ->
                  exists j', In j' (m_pModule st') /\ sameButOperands j j').
Proof.
  destruct (foldConstants_keeps Examples.foldBitCast Examples.SPIRVTW_16Bit
              Examples.SPIRVTW_32Bit Examples.SPIRVTW_64Bit Examples.flush32
              Examples.gDead false (proj1 gDead_layout)) as [Hends Hkeeps].
  destruct (Hends eq_refl
              (flag16_clear_callees Examples.flush32 Examples.gDead eq_refl))
    as [st' Hst'].
  exists st'. split; [exact Hst' | exact (Hkeeps st' Hst')].
Defined.

Lemma runOnModule_keeps_witness :
  exists changed module',
    runOnModule Examples.foldBitCast Examples.mangle Examples.SPIRVTW_16Bit
                Examples.SPIRVTW_32Bit Examples.SPIRVTW_64Bit
                Examples.flush32 Examples.gDead
    = Some (changed, module')
    /\ forall j, In j Examples.gDead ->
                 isBinaryOperator j = false ->
                 isTerminator j = true \/ mayHaveSideEffects j = true
                 \/ parent j <> m_pEntryPoint Examples.flush32 ->
                 exists j', In j' module' /\ sameButOperands j j'.
Proof.
  apply (runOnModule_keeps Examples.foldBitCast Examples.mangle
           Examples.SPIRVTW_16Bit Examples.SPIRVTW_32Bit Examples.SPIRVTW_64Bit
           Examples.flush32 Examples.gDead);
    [exact (proj1 gDead_layout) | exact (proj2 gDead_layout)
     | apply flag16_clear_callees; reflexivity].
Defined.

(** [%2 = fmul float %1, %1] of the example, dead from the start. *)
Lemma foldConstants_removes_dead_witness :
  exists st',
    foldConstants Examples.foldBitCast Examples.SPIRVTW_16Bit
      Examples.SPIRVTW_32Bit Examples.SPIRVTW_64Bit
      Examples.flush32 (mkState Examples.gDead false) = Some st'
    /\ lookup (m_pModule st') 2 = None.
Proof.
  destruct (foldConstants_removes_dead Examples.foldBitCast
              Examples.SPIRVTW_16Bit Examples.SPIRVTW_32Bit
              Examples.SPIRVTW_64Bit Examples.flush32 Examples.gDead false
              (mkInst 2 Examples.main (BinaryOp FMul) FloatTy
                      [VInst 1%nat; VInst 1%nat] 0 false)
              (proj1 gDead_layout) (or_intror (or_introl eq_refl))
              eq_refl eq_refl) as [Hends Hgone].
  destruct (Hends eq_refl
              (flag16_clear_callees Examples.flush32 Examples.gDead eq_refl))
    as [st' Hst'].
  exists st'. split; [exact Hst' | exact (Hgone st' Hst')].
Defined.

Lemma runOnModule_never_grows_witness :
  exists changed module',
    runOnModule Examples.foldBitCast Examples.mangle Examples.SPIRVTW_16Bit
                Examples.SPIRVTW_32Bit Examples.SPIRVTW_64Bit
                Examples.flush32 Examples.gDiv
    = Some (changed, module')
    /\ (List.length module' <= List.length Examples.gDiv)%nat.
Proof.
  apply (runOnModule_never_grows Examples.foldBitCast Examples.mangle
           Examples.SPIRVTW_16Bit Examples.SPIRVTW_32Bit Examples.SPIRVTW_64Bit
           Examples.flush32 Examples.gDiv);
    [exact (proj1 gDiv_layout) | exact (proj2 gDiv_layout)
     | apply flag16_clear_callees; reflexivity].
Defined.
